(** * The pattern parser of m-onz-av

    A shallow embedding of the pattern compiler of src/lib/parser2.js, of
    its transformation engine and of its sequence utilities, of the two
    rewrites of the compiler the specification draws on
    (src/unnamed/part_001 and src/unnamed/part_002), and the properties
    the specification states about them.

    Conventions of the embedding.
    - A JavaScript string is a [string]: one [ascii] per code unit, so the
      development covers the code units below 256.
    - A JavaScript number is a [number]: an exact integer or [NaN].  This is
      what [parseInt] and the integer arithmetic of the transformations
      produce; a double holds an integer exactly up to 2^53 in magnitude,
      and the statements that depend on it say so.  Where the run of the
      code depends on the rounding, in the counter and the bound of a
      counting loop, and in the number [normalizePattern] returns, the
      model rounds as a double does ([toDouble]).
    - A sequence is a list of steps, the rest symbol or a note; a loose
      JavaScript value is a [value], for [normalizePattern].
    - [Math.random] reads the next element of a stream of draws, each in
      the interval from 0 (included) to 1 (excluded).
    - [console.error] and [console.log] append to a list of diagnostics.
    - An exception is an outcome [Throw]; the [try] and [catch] of the
      parser turn it into a diagnostic.
    - A loop that never ends is an outcome [Diverges].
    - Memory and time are not bounded, the length of an array is: the
      loops that repeat a step or a group, and [Array(n)], raise the
      RangeError of an array past 2^32 - 1 elements.  A text is shorter
      than that in every engine, so the push of a single token is not
      checked. *)

From Stdlib Require Import Bool Arith ZArith NArith QArith Qround Lia List.
From Stdlib Require Import Ascii String.
From Stdlib Require Import Permutation.
Import ListNotations.

Local Open Scope string_scope.
Local Open Scope list_scope.
Local Open Scope Z_scope.

(** ** The JavaScript built-ins the parser relies on *)

Module JS.

(** *** Character classes of the regular expressions *)

Definition code (c : ascii) : N := N_of_ascii c.

Definition inRange (lo hi : N) (c : ascii) : bool :=
  ((lo <=? code c) && (code c <=? hi))%N.

(** [\d] *)
Definition isDigit (c : ascii) : bool := inRange 48 57 c.

(** [[a-z]] *)
Definition isLower (c : ascii) : bool := inRange 97 122 c.

(** [[A-Z]] *)
Definition isUpper (c : ascii) : bool := inRange 65 90 c.

(** [\w], that is [[A-Za-z0-9_]] *)
Definition isWord (c : ascii) : bool :=
  isLower c || isUpper c || isDigit c || (code c =? 95)%N.

(** A line terminator: the characters [.] does not match. *)
Definition isLineTerminator (c : ascii) : bool :=
  ((code c =? 10) || (code c =? 13))%N.

(** [\s]: tab, line feed, vertical tab, form feed, carriage return, space
    and the no-break space.  [trim], [parseInt] and [Number] skip the same
    characters. *)
Definition isSpace (c : ascii) : bool :=
  (inRange 9 13 c || (code c =? 32) || (code c =? 160))%N.

(** *** Strings *)

Fixpoint takeWhile (p : ascii -> bool) (s : string) : string :=
  match s with
  | String c r => if p c then String c (takeWhile p r) else EmptyString
  | EmptyString => EmptyString
  end.

Fixpoint dropWhile (p : ascii -> bool) (s : string) : string :=
  match s with
  | String c r => if p c then dropWhile p r else s
  | EmptyString => EmptyString
  end.

Fixpoint drop (n : nat) (s : string) : string :=
  match n, s with
  | S k, String _ r => drop k r
  | _, _ => s
  end.

Fixpoint take (n : nat) (s : string) : string :=
  match n, s with
  | S k, String c r => String c (take k r)
  | _, _ => EmptyString
  end.

Fixpoint reverseOnto (s acc : string) : string :=
  match s with
  | String c r => reverseOnto r (String c acc)
  | EmptyString => acc
  end.

Definition reverse (s : string) : string := reverseOnto s EmptyString.

Definition isEmpty (s : string) : bool :=
  match s with EmptyString => true | _ => false end.

(** [s.trim()] *)
Definition trimStart (s : string) : string := dropWhile isSpace s.
Definition trimEnd (s : string) : string :=
  reverse (dropWhile isSpace (reverse s)).
Definition trim (s : string) : string := trimEnd (trimStart s).

(** [s.startsWith(p)] *)
Definition startsWith (p s : string) : bool := String.prefix p s.

(** [s.endsWith(p)] *)
Definition endsWith (p s : string) : bool :=
  String.prefix (reverse p) (reverse s).

(** [s.includes(p)] *)
Fixpoint includes (p s : string) : bool :=
  String.prefix p s ||
  match s with
  | String _ r => includes p r
  | EmptyString => false
  end.

(** [s.indexOf(c)] for a single character; [None] stands for -1. *)
Fixpoint indexOf (c : ascii) (s : string) : option nat :=
  match s with
  | String d r =>
      if Ascii.eqb c d then Some O else option_map S (indexOf c r)
  | EmptyString => None
  end.

(** [s.lastIndexOf(c)] for a single character; [None] stands for -1. *)
Fixpoint lastIndexOf (c : ascii) (s : string) : option nat :=
  match s with
  | String d r =>
      match lastIndexOf c r with
      | Some i => Some (S i)
      | None => if Ascii.eqb c d then Some O else None
      end
  | EmptyString => None
  end.

(** [s.substring(a, b)] for indices within bounds; as in JavaScript the
    two indices are swapped when [a > b]. *)
Definition substring (a b : nat) (s : string) : string :=
  let lo := Nat.min a b in
  let hi := Nat.max a b in
  take (hi - lo) (drop lo s).

(** [s.slice(1, -1)]: the string without its first and last character. *)
Definition slice_1_m1 (s : string) : string :=
  take (String.length s - 2) (drop 1 s).

(** [s.split(c)] for a single separator character. *)
Fixpoint split (c : ascii) (s : string) : list string :=
  match s with
  | EmptyString => [EmptyString]
  | String d r =>
      if Ascii.eqb c d then EmptyString :: split c r
      else match split c r with
           | h :: t => String d h :: t
           | [] => [String d EmptyString]
           end
  end.

(** [a.join(sep)] on strings. *)
Fixpoint join (sep : string) (l : list string) : string :=
  match l with
  | [] => EmptyString
  | [x] => x
  | x :: r => x ++ sep ++ join sep r
  end.

(** *** Numbers *)

Inductive number : Type :=
| Int (z : Z)
| NaN.

Definition add (a b : number) : number :=
  match a, b with Int x, Int y => Int (x + y) | _, _ => NaN end.

Definition sub (a b : number) : number :=
  match a, b with Int x, Int y => Int (x - y) | _, _ => NaN end.

Definition mul (a b : number) : number :=
  match a, b with Int x, Int y => Int (x * y) | _, _ => NaN end.

(** The double nearest to an integer below 2^1024 in magnitude: up to 2^53
    the integer itself, beyond it the 53 leading bits, rounded to the
    nearest and to the even one at a tie. *)
Definition toDouble (z : Z) : Z :=
  let a := Z.abs z in
  if a <=? 2 ^ 53 then z
  else
    let e := Z.log2 a - 52 in
    let q := a / 2 ^ e in
    let r := a mod 2 ^ e in
    let up := (2 ^ (e - 1) <? r) || ((2 ^ (e - 1) =? r) && Z.odd q) in
    Z.sgn z * ((if up then q + 1 else q) * 2 ^ e).

(** [Math.round(a / b) * b].  [Math.round] rounds a half up, so
    [Math.round(x / y)] is the floor of [(2x + y) / 2y].  With [b = 0] the
    quotient is infinite or [NaN] and its product with 0 is [NaN]. *)
Definition roundToMultiple (a b : number) : number :=
  match a, b with
  | Int x, Int y =>
      if y =? 0 then NaN
      else if 0 <? y then Int ((2 * x + y) / (2 * y) * y)
      else Int ((- (2 * x) - y) / (- (2 * y)) * y)
  | _, _ => NaN
  end.

(** The value of a digit character in a radix up to 16, when it has one. *)
Definition digitValue (c : ascii) : option Z :=
  if isDigit c then Some (Z.of_N (code c) - 48)
  else if inRange 97 102 c then Some (Z.of_N (code c) - 87)
  else if inRange 65 70 c then Some (Z.of_N (code c) - 55)
  else None.

Definition isRadixDigit (radix : Z) (c : ascii) : bool :=
  match digitValue c with
  | Some v => v <? radix
  | None => false
  end.

Fixpoint digitsValue (radix : Z) (s : string) (acc : Z) : Z :=
  match s with
  | String c r =>
      match digitValue c with
      | Some v => digitsValue radix r (acc * radix + v)
      | None => acc
      end
  | EmptyString => acc
  end.

(** The first character of [s] is [c]. *)
Definition headIs (c : ascii) (s : string) : bool :=
  match s with
  | String d _ => Ascii.eqb c d
  | EmptyString => false
  end.

(** The digits of [parseInt]: a [0x] or [0X] prefix selects radix 16, and
    the longest run of digits is the value; [None] when there is no
    digit. *)
Definition isHexPrefix (s : string) : bool :=
  headIs "0" s && (headIs "x" (drop 1 s) || headIs "X" (drop 1 s)).

Definition parseMagnitude (s : string) : option Z :=
  let radix := if isHexPrefix s then 16 else 10 in
  let digits :=
    takeWhile (isRadixDigit radix) (if isHexPrefix s then drop 2 s else s) in
  if isEmpty digits then None else Some (digitsValue radix digits 0).

(** [parseInt(s)] with no radix: leading white space is skipped, a sign is
    read, then the digits; no digit at all gives [NaN].  The result is the
    integer the digits denote, which is the number the code holds as long
    as its magnitude is at most 2^53; beyond it the code holds
    [toDouble] of it. *)
Definition parseInt (s : string) : number :=
  let s1 := trimStart s in
  let negative := headIs "-" s1 in
  let s2 := if negative || headIs "+" s1 then drop 1 s1 else s1 in
  match parseMagnitude s2 with
  | Some v => Int (if negative then - v else v)
  | None => NaN
  end.

(** The decimal digits of a natural number. *)
Definition digitChar (d : N) : ascii := ascii_of_N (48 + d).

Fixpoint decimalAux (fuel : nat) (n : N) (acc : string) : string :=
  match fuel with
  | O => acc
  | S f =>
      let acc' := String (digitChar (n mod 10)) acc in
      if (n <? 10)%N then acc' else decimalAux f (n / 10) acc'
  end.

Definition decimal (n : N) : string :=
  decimalAux (S (N.to_nat (N.log2 n))) n EmptyString.

(** The exponential form of a run of decimal digits, as in [1.5e+21]:
    the first digit, the others without the trailing zeros, and the
    exponent. *)
Definition exponential (digits : string) : string :=
  let significant := reverse (dropWhile (Ascii.eqb "0") (reverse digits)) in
  let mantissa :=
    match significant with
    | String c EmptyString => significant
    | String c r => String c (String "." r)
    | EmptyString => "0"
    end in
  mantissa ++ "e+" ++ decimal (N.of_nat (String.length digits - 1)).

(** [String(n)]: an integer below 10^21 in magnitude is printed in plain
    decimal, a larger one in the exponential form.  The digits of the
    exponential form are those of the integer, which is what JavaScript
    prints for a double with at most 17 significant digits. *)
Definition magnitudeToString (n : N) : string :=
  if (n <? 10 ^ 21)%N then decimal n else exponential (decimal n).

Definition numberToString (n : number) : string :=
  match n with
  | NaN => "NaN"
  | Int z =>
      if z <? 0 then String "-" (magnitudeToString (Z.to_N (- z)))
      else magnitudeToString (Z.to_N z)
  end.

(** *** [Number(s)] is not [NaN]: the StringNumericLiteral grammar *)

Definition allOf (p : ascii -> bool) (s : string) : bool :=
  isEmpty (dropWhile p s).

Definition isPrefixedLiteral (s : string) : bool :=
  let k := drop 1 s in
  let body (p : ascii -> bool) :=
    negb (isEmpty (drop 2 s)) && allOf p (drop 2 s) in
  headIs "0" s &&
  (if headIs "x" k || headIs "X" k then body (isRadixDigit 16)
   else if headIs "o" k || headIs "O" k then body (isRadixDigit 8)
   else if headIs "b" k || headIs "B" k then body (isRadixDigit 2)
   else false).

(** An optional exponent part, then the end of the string. *)
Definition isExponentOpt (s : string) : bool :=
  isEmpty s ||
  ((headIs "e" s || headIs "E" s) &&
   let r := drop 1 s in
   let digits := if headIs "+" r || headIs "-" r then drop 1 r else r in
   negb (isEmpty digits) && allOf isDigit digits).

Definition isUnsignedDecimal (s : string) : bool :=
  if String.eqb s "Infinity" then true
  else
    let d1 := takeWhile isDigit s in
    let r := dropWhile isDigit s in
    if headIs "." r then
      let d2 := takeWhile isDigit (drop 1 r) in
      (negb (isEmpty d1) || negb (isEmpty d2))
      && isExponentOpt (dropWhile isDigit (drop 1 r))
    else negb (isEmpty d1) && isExponentOpt r.

Definition isDecimalLiteral (s : string) : bool :=
  isUnsignedDecimal (if headIs "+" s || headIs "-" s then drop 1 s else s).

(** [!isNaN(s)] on a string: [Number(s)] is a number exactly when [s],
    trimmed, is empty or a numeric literal. *)
Definition isNumeric (s : string) : bool :=
  let t := trim s in
  isEmpty t || isPrefixedLiteral t || isDecimalLiteral t.

End JS.

(** ** Data model, state and effects *)

Module Model.
Import JS.

(** A step of a sequence: the rest symbol (the string ['-']) or a note
    holding a number. *)
Inductive step : Type :=
| Rest
| Note (n : number).

(** A loose JavaScript value, as [normalizePattern] accepts it. *)
Inductive value : Type :=
| VUndefined
| VNull
| VBool (b : bool)
| VNum (n : number)
| VStr (s : string).

Definition toValue (s : step) : value :=
  match s with
  | Rest => VStr "-"
  | Note n => VNum n
  end.

(** [String(v)], as [parseInt] and [join] apply it to a value. *)
Definition valueToString (v : value) : string :=
  match v with
  | VUndefined => "undefined"
  | VNull => "null"
  | VBool true => "true"
  | VBool false => "false"
  | VNum n => numberToString n
  | VStr s => s
  end.

(** One result of [Math.random()]: a rational in the unit interval, 1
    excluded. *)
Record draw : Type := mkDraw {
  drawValue : Q;
  drawInUnit : (Qle_bool 0 drawValue && negb (Qle_bool 1 drawValue))%bool = true
}.

Inductive diagnostic : Type :=
| Error (msg : string)      (* console.error *)
| Log (msg : string).       (* console.log *)

(** What a run can change: the recursion counter [config.currentDepth],
    the position in the random source, and the console. *)
Record State : Type := mkState {
  currentDepth : Z;
  random : nat -> draw;
  drawn : nat;
  console : list diagnostic
}.

Inductive outcome (A : Type) : Type :=
| Ok (a : A)
| Throw (message : string)   (* a JavaScript exception *)
| Overflow (array : list step)
                             (* the RangeError of an array that is filled in
                                place past 2^32 - 1 elements; [array] is the
                                array as the exception leaves it *)
| Diverges                   (* the code does not return: a loop never ends *)
| OutOfFuel.                 (* the model ran out of fuel; never a result of the code *)

Arguments Ok {A} a.
Arguments Throw {A} message.
Arguments Overflow {A} array.
Arguments Diverges {A}.
Arguments OutOfFuel {A}.

Definition M (A : Type) : Type := State -> outcome A * State.

Definition ret {A : Type} (a : A) : M A := fun st => (Ok a, st).

Definition bind {A B : Type} (m : M A) (f : A -> M B) : M B :=
  fun st =>
    match m st with
    | (Ok a, st') => f a st'
    | (Throw e, st') => (Throw e, st')
    | (Overflow array, st') => (Overflow array, st')
    | (Diverges, st') => (Diverges, st')
    | (OutOfFuel, st') => (OutOfFuel, st')
    end.

Definition throw {A : Type} (message : string) : M A :=
  fun st => (Throw message, st).

(** [try { m } catch (e) { h(e.message) }] *)
Definition tryCatch {A : Type} (m : M A) (h : string -> M A) : M A :=
  fun st =>
    match m st with
    | (Throw e, st') => h e st'
    | (Overflow _, st') => h "Invalid array length" st'
    | r => r
    end.

(** [try { m } catch (e) { h(e.message) }] around statements that fill
    [array] in place: the handler finds the array as the exception left
    it. *)
Definition tryCatchOn {A : Type} (array : list step) (m : M A)
    (h : string -> list step -> M A) : M A :=
  fun st =>
    match m st with
    | (Throw e, st') => h e array st'
    | (Overflow array', st') => h "Invalid array length" array' st'
    | r => r
    end.

Notation "x <- m ;; k" := (bind m (fun x => k))
  (at level 61, m at next level, right associativity).
Notation "m ;;; k" := (bind m (fun _ => k))
  (at level 61, right associativity).

Definition emit (d : diagnostic) : M unit :=
  fun st =>
    (Ok tt, mkState (currentDepth st) (random st) (drawn st)
                    (console st ++ [d])).

Definition console_error (msg : string) : M unit := emit (Error msg).
Definition console_log (msg : string) : M unit := emit (Log msg).

(** [Math.random()] *)
Definition Math_random : M Q :=
  fun st =>
    (Ok (drawValue (random st (drawn st))),
     mkState (currentDepth st) (random st) (S (drawn st)) (console st)).

Definition getDepth : M Z := fun st => (Ok (currentDepth st), st).

Definition setDepth (d : Z) : M unit :=
  fun st => (Ok tt, mkState d (random st) (drawn st) (console st)).

(** [r < p] on the rationals. *)
Definition Qltb (r p : Q) : bool := negb (Qle_bool p r).

(** [Math.floor(r * n)] *)
Definition floorMul (r : Q) (n : Z) : Z := Qfloor (r * inject_Z n).

(** [Array(n).fill(x)]: a length that is not an integer from 0 to 2^32 - 1
    raises a RangeError. *)
Definition Array_fill {A : Type} (n : number) (x : A) : M (list A) :=
  match n with
  | Int z =>
      if (0 <=? z) && (z <=? 4294967295)
      then ret (repeat x (Z.to_nat z))
      else throw "Invalid array length"
  | NaN => throw "Invalid array length"
  end.

(** The longest array has 2^32 - 1 elements. *)
Definition fits (a : list step) : bool :=
  Z.of_nat (List.length a) <=? 4294967295.

(** [a.concat(b)]: a result longer than an array can be raises a
    RangeError; with nothing to add the result is a copy of [a]. *)
Definition Array_concat (a b : list step) : M (list step) :=
  match b with
  | [] => ret a
  | _ => if fits (a ++ b) then ret (a ++ b) else throw "Invalid array length"
  end.

(** [a = a.concat(b)] on the array of the enclosing [try]: when the call
    raises, [a] is what it was. *)
Definition Array_extend (a b : list step) : M (list step) :=
  match b with
  | [] => ret a
  | _ => if fits (a ++ b) then ret (a ++ b) else fun st => (Overflow a, st)
  end.

(** [a.push(...b)] on the array of the enclosing [try]: the elements are
    stored one by one, and setting a length past 2^32 - 1 raises a
    RangeError; the elements that fit stay in [a]. *)
Definition Array_push (a b : list step) : M (list step) :=
  match b with
  | [] => ret a
  | _ =>
      if fits (a ++ b) then ret (a ++ b)
      else fun st => (Overflow (firstn (Z.to_nat 4294967295) (a ++ b)), st)
  end.

(** [for (let i = 0; i < n; i++) a = body(a)], entered with the counter
    [i].  The counter is a double: [i++] is [toDouble (i + 1)], which
    leaves 2^53 where it is, and [n] stands for the double nearest to it.
    [turns] counts the values the counter can still take.  When none is
    left and the counter is still below [n], only an exception can end
    the loop; the bodies of the loops of the parser add each time as many
    elements to an array, so they raise long before or never, and the
    loop does not return. *)
Fixpoint forCount {A : Type} (turns : nat) (i n : Z) (body : A -> M A)
    (a : A) : M A :=
  if i <? toDouble n then
    match turns with
    | O => fun st => (Diverges, st)
    | S k =>
        a' <- body a ;;
        forCount k (toDouble (i + 1)) n body a'
    end
  else ret a.

(** [for (let i = 0; i < n; i++) a = body(a)] *)
Definition forLoop {A : Type} (n : Z) (body : A -> M A) (a : A) : M A :=
  forCount (Z.to_nat (Z.min (toDouble n) (2 ^ 53))) 0 n body a.

(** [a.flatMap(f)] for a callback with effects. *)
Fixpoint flatMapM {A B : Type} (f : A -> M (list B)) (l : list A)
  : M (list B) :=
  match l with
  | [] => ret []
  | x :: r =>
      ys <- f x ;;
      zs <- flatMapM f r ;;
      ret (ys ++ zs)
  end.

(** [a.map(f)] for a callback with effects. *)
Fixpoint mapM {A B : Type} (f : A -> M B) (l : list A) : M (list B) :=
  match l with
  | [] => ret []
  | x :: r =>
      y <- f x ;;
      ys <- mapM f r ;;
      ret (y :: ys)
  end.

End Model.

(** ** src/lib/parser2.js *)

Module Parser2.
Import JS.
Import Model.

(** *** The transformation engine *)

(** [array[i]] and the assignment [array[i] = x], within bounds. *)
Definition getAt (i : nat) (a : list step) : step := nth i a Rest.

Fixpoint setAt (i : nat) (x : step) (a : list step) : list step :=
  match a, i with
  | [], _ => []
  | _ :: r, O => x :: r
  | y :: r, S k => y :: setAt k x r
  end.

(** [[array[i], array[j]] = [array[j], array[i]]] *)
Definition swap (i j : nat) (a : list step) : list step :=
  let ai := getAt i a in
  let aj := getAt j a in
  setAt j ai (setAt i aj a).

(** The loop of [shuffleArray], from index [i] down to 1. *)
Fixpoint shuffleFrom (i : nat) (array : list step) : M (list step) :=
  match i with
  | O => ret array
  | S k =>
      r <- Math_random ;;
      let j := Z.to_nat (floorMul r (Z.of_nat i + 1)) in
      shuffleFrom k (swap i j array)
  end.

Definition shuffleArray (array : list step) : M (list step) :=
  shuffleFrom (List.length array - 1)%nat array.

(** [transformName.match] with the expression of the source, a group
    [[a-z]+] then a group of digits, not anchored: the first run of
    lower-case letters, wherever it starts, and the digits that follow it. *)
Definition matchTransform (transformName : string)
  : option (string * string) :=
  let s := dropWhile (fun c => negb (isLower c)) transformName in
  if isEmpty s then None
  else Some (takeWhile isLower s, takeWhile isDigit (dropWhile isLower s)).

(** [paramMatch[2] ? parseInt(paramMatch[2]) : null] *)
Definition paramOf (digits : string) : option number :=
  if isEmpty digits then None else Some (parseInt digits).

(** [pattern.map(note => note === '-' ? '-' : f(note))] *)
Definition mapNotes (f : number -> number) (pattern : list step)
  : list step :=
  map (fun note => match note with
                   | Rest => Rest
                   | Note v => Note (f v)
                   end) pattern.

(** [param || 1]: null, 0 and NaN are falsy. *)
Definition orOne (param : option number) : Z :=
  match param with
  | Some (Int z) => if z =? 0 then 1 else z
  | _ => 1
  end.

(** [param ? param / 100 : 0.5] *)
Definition sparseProbability (param : option number) : Q :=
  match param with
  | Some (Int z) => if z =? 0 then 1 # 2 else inject_Z z / inject_Z 100
  | _ => 1 # 2
  end.

Definition requireParam (name : string) (param : option number)
    (pattern : list step) (k : number -> M (list step)) : M (list step) :=
  match param with
  | None =>
      console_error (name ++ " transformation requires a numeric parameter") ;;;
      ret pattern
  | Some p => k p
  end.

Definition transformPattern (transformName : string) (pattern : list step)
  : M (list step) :=
  match matchTransform transformName with
  | None =>
      console_error ("Invalid transformation: " ++ transformName) ;;;
      ret pattern
  | Some (transform, digits) =>
      let param := paramOf digits in
      if String.eqb transform "scramble" then
        shuffleArray pattern
      else if String.eqb transform "invert" then
        requireParam "invert" param pattern (fun p =>
          ret (mapNotes (fun note => sub (mul p (Int 2)) note) pattern))
      else if String.eqb transform "scale" then
        requireParam "scale" param pattern (fun p =>
          ret (mapNotes (fun note => mul note p) pattern))
      else if String.eqb transform "offset" then
        requireParam "offset" param pattern (fun p =>
          ret (mapNotes (fun note => add note p) pattern))
      else if String.eqb transform "mirror" then
        ret (pattern ++ rev (removelast pattern))
      else if String.eqb transform "repeat" then
        requireParam "repeat" param pattern (fun p =>
          flatMapM (fun note => Array_fill p note) pattern)
      else if String.eqb transform "quantize" then
        requireParam "quantize" param pattern (fun p =>
          ret (mapNotes (fun note => roundToMultiple note p) pattern))
      else if String.eqb transform "reverse" then
        ret (rev pattern)
      else if String.eqb transform "rotate" then
        let steps := orOne param in
        let len := Z.of_nat (List.length pattern) in
        if len <=? 1 then ret pattern
        else
          let normalizedSteps :=
            Z.to_nat (Z.rem (Z.rem steps len + len) len) in
          ret (skipn normalizedSteps pattern ++ firstn normalizedSteps pattern)
      else if String.eqb transform "sparse" then
        let probability := sparseProbability param in
        mapM (fun note =>
                r <- Math_random ;;
                ret (if Qltb r probability then Rest else note)) pattern
      else if String.eqb transform "interleave" then
        ret (flat_map (fun note => [note; Rest]) pattern)
      else
        console_error ("Unknown transformation: " ++ transform) ;;;
        ret pattern
  end.

(** The names of the registry, the cases of the [switch]. *)
Definition registry : list string :=
  ["scramble"; "invert"; "scale"; "offset"; "mirror"; "repeat"; "quantize";
   "reverse"; "rotate"; "sparse"; "interleave"].

Definition inRegistry (transform : string) : bool :=
  existsb (String.eqb transform) registry.

(** *** Sequence utilities *)

(** [item === '-' || item === undefined || item === null] *)
Definition isRestOrAbsent (item : value) : bool :=
  match item with
  | VStr s => String.eqb s "-"
  | VUndefined | VNull => true
  | _ => false
  end.

(** The callback of [normalizePattern].  The number it returns is the
    double [parseInt] holds, the one nearest to the integer of the
    digits. *)
Definition normalizeItem (item : value) : value :=
  if isRestOrAbsent item then VStr "-"
  else
    match parseInt (valueToString item) with
    | NaN => item
    | Int parsed => VNum (Int (toDouble parsed))
    end.

Definition normalizePattern (pattern : list value) : list value :=
  map normalizeItem pattern.

(** [normalizePattern] on the steps a compilation holds. *)
Definition normalizeStep (item : step) : step :=
  match item with
  | Rest => Rest
  | Note n =>
      match parseInt (numberToString n) with
      | NaN => item
      | parsed => Note parsed
      end
  end.

Definition normalizeSteps (pattern : list step) : list step :=
  map normalizeStep pattern.

(** The text [join] gives an element: nothing for [undefined] and [null]. *)
Definition joinText (v : value) : string :=
  match v with
  | VUndefined | VNull => ""
  | _ => valueToString v
  end.

(** [patternToString(pattern)] on an array. *)
Definition patternToStringLoose (pattern : list value) : string :=
  join " " (map joinText pattern).

Definition patternToString (pattern : list step) : string :=
  patternToStringLoose (map toValue pattern).

(** *** The tokens of a pattern *)

(** The end of a token that starts with a bracket, for the lazy [.*?\]]:
    the text up to the first closing bracket, which no line terminator
    may precede. *)
Fixpoint lazyToClose (s : string) : option string :=
  match s with
  | EmptyString => None
  | String c r =>
      if Ascii.eqb c "]" then Some "]"
      else if isLineTerminator c then None
      else option_map (String c) (lazyToClose r)
  end.

Definition startsCloseStarDigit (s : string) : bool :=
  match s with
  | String c1 (String c2 (String c3 _)) =>
      Ascii.eqb c1 "]" && Ascii.eqb c2 "*" && isDigit c3
  | _ => false
  end.

(** The same for the lazy [.*?\]\*\d+]: the text up to the first closing
    bracket that a star and a digit follow, then every digit. *)
Fixpoint lazyToCloseStar (s : string) : option string :=
  match s with
  | EmptyString => None
  | String c r =>
      if startsCloseStarDigit s
      then Some ("]*" ++ takeWhile isDigit (drop 1 r))%string
      else if isLineTerminator c then None
      else option_map (String c) (lazyToCloseStar r)
  end.

(** A separator of the last alternative, [[^,;\s]+]. *)
Definition isSeparator (c : ascii) : bool :=
  Ascii.eqb c "," || Ascii.eqb c ";" || isSpace c.

(** First alternative, a word, white space and a bracket pair. *)
Definition matchCall (s : string) : option string :=
  let w := takeWhile isWord s in
  let r1 := dropWhile isWord s in
  let ws := takeWhile isSpace r1 in
  if isEmpty w then None
  else
    match dropWhile isSpace r1 with
    | String c r3 =>
        if Ascii.eqb c "["
        then option_map (fun t => (w ++ ws ++ String c t)%string) (lazyToClose r3)
        else None
    | EmptyString => None
    end.

(** Second alternative, a bracket pair with a repeat count. *)
Definition matchGroupRepeat (s : string) : option string :=
  match s with
  | String c r =>
      if Ascii.eqb c "[" then option_map (String c) (lazyToCloseStar r)
      else None
  | EmptyString => None
  end.

(** Third alternative, a bracket pair. *)
Definition matchGroup (s : string) : option string :=
  match s with
  | String c r =>
      if Ascii.eqb c "[" then option_map (String c) (lazyToClose r)
      else None
  | EmptyString => None
  end.

(** Fourth alternative, a run without separators. *)
Definition matchWord (s : string) : option string :=
  let t := takeWhile (fun c => negb (isSeparator c)) s in
  if isEmpty t then None else Some t.

(** One attempt of the expression at the start of [s]: the alternatives
    in their order. *)
Definition matchAt (s : string) : option string :=
  match matchCall s with
  | Some t => Some t
  | None =>
      match matchGroupRepeat s with
      | Some t => Some t
      | None =>
          match matchGroup s with
          | Some t => Some t
          | None => matchWord s
          end
      end
  end.

(** The global match: [skip] counts the characters still inside the last
    token; elsewhere the expression is tried at each position in turn. *)
Fixpoint scan (skip : nat) (s : string) : list string :=
  match s with
  | EmptyString => []
  | String _ r =>
      match skip with
      | S k => scan k r
      | O =>
          match matchAt s with
          | Some token => token :: scan (String.length token - 1) r
          | None => scan O r
          end
      end
  end.

(** [pattern.match(...)]; the empty list stands for [null]. *)
Definition matchTokens (pattern : string) : list string := scan O pattern.

(** [/^\w+\[.*\]$/.test(token)] *)
Definition isTransformCall (token : string) : bool :=
  negb (isEmpty (takeWhile isWord token)) &&
  match dropWhile isWord token with
  | String c r =>
      Ascii.eqb c "[" && endsWith "]" r &&
      allOf (fun d => negb (isLineTerminator d)) r
  | EmptyString => false
  end.

(** *** The compiler *)

(** The configuration [{...defaults, ...options}].  The rest sentinel is
    a step: the default ['-'] or a number. *)
Record Config : Type := mkConfig {
  debug : bool;
  maxRecursionDepth : Z;
  preserveEmptyNotes : bool;
  defaultRestValue : step;
  normalizePitches : bool
}.

Definition defaults : Config :=
  {| debug := false;
     maxRecursionDepth := 10;
     preserveEmptyNotes := false;
     defaultRestValue := Rest;
     normalizePitches := false |}.

Definition quote : string := String (ascii_of_nat 34) EmptyString.

(** An index or -1. *)
Definition indexZ (i : option nat) : Z :=
  match i with
  | Some n => Z.of_nat n
  | None => -1
  end.

(** [s.substring(a, b)] on integers: each index is clamped to the string. *)
Definition substringZ (a b : Z) (s : string) : string :=
  let clamp i := Nat.min (Z.to_nat i) (String.length s) in
  substring (clamp a) (clamp b) s.

(** [if (result && result.length) outputPattern = outputPattern.concat(result)] *)
Definition concatResult (outputPattern result : list step) : list step :=
  match result with
  | [] => outputPattern
  | _ => outputPattern ++ result
  end.

(** The two names of [const [a, b] = token.split('*')]; [None] stands for
    [undefined]. *)
Definition splitStar (token : string) : string * option string :=
  match split "*" token with
  | a :: b :: _ => (a, Some b)
  | a :: [] => (a, None)
  | [] => (EmptyString, None)
  end.

(** [!repeat] *)
Definition isMissing (repeat : option string) : bool :=
  match repeat with
  | Some r => isEmpty r
  | None => true
  end.

Definition textOf (repeat : option string) : string :=
  match repeat with
  | Some r => r
  | None => "undefined"
  end.

(** [isNaN(repeatCount) || repeatCount <= 0] *)
Definition badCount (repeatCount : number) : bool :=
  match repeatCount with
  | NaN => true
  | Int z => z <=? 0
  end.

Section Handlers.

(** The recursive call, [parsePatternString(text, config)]. *)
Variable parseInner : string -> M (list step).
Variable config : Config.

Definition handleTransformation (token : string) : M (list step) :=
  let transformName := substringZ 0 (indexZ (indexOf "[" token)) token in
  let contentStart := indexZ (indexOf "[" token) + 1 in
  let contentEnd := indexZ (lastIndexOf "]" token) in
  if contentStart >=? contentEnd then
    console_error ("Invalid transformation syntax: " ++ token) ;;;
    ret []
  else
    let groupContent := substringZ contentStart contentEnd token in
    groupPattern <- parseInner groupContent ;;
    transformPattern transformName groupPattern.

Definition handleGroupWithRepeat (token : string) : M (list step) :=
  let '(group, repeat) := splitStar token in
  if isEmpty group || isMissing repeat then
    console_error ("Invalid group with repeat syntax: " ++ token) ;;;
    ret []
  else
    let repeatCount := parseInt (textOf repeat) in
    if badCount repeatCount then
      console_error ("Invalid repeat count: " ++ textOf repeat) ;;;
      ret []
    else
      let groupContent := trim (slice_1_m1 group) in
      groupPattern <- parseInner groupContent ;;
      match repeatCount with
      | Int n =>
          forLoop n (fun result => Array_concat result groupPattern) []
      | NaN => ret []
      end.

Definition handleDirectRepetition (token : string) : M (list step) :=
  let '(value, repeat) := splitStar token in
  if isEmpty value || isMissing repeat then
    console_error ("Invalid repetition syntax: " ++ token) ;;;
    ret []
  else
    let repeatCount := parseInt (textOf repeat) in
    if badCount repeatCount then
      console_error ("Invalid repeat count: " ++ textOf repeat) ;;;
      ret []
    else if String.eqb value "-" then
      Array_fill repeatCount (defaultRestValue config)
    else if isNumeric value then
      Array_fill repeatCount (Note (parseInt value))
    else
      console_error ("Invalid value for repetition: " ++ value) ;;;
      ret [].

(** The body of [tokens.forEach], with its [try] and [catch]. *)
Definition processToken (outputPattern : list step) (token : string)
  : M (list step) :=
  tryCatch
    (if isNumeric token then
       ret (outputPattern ++ [Note (parseInt token)])
     else if isTransformCall token then
       result <- handleTransformation token ;;
       ret (concatResult outputPattern result)
     else if includes "]*" token then
       result <- handleGroupWithRepeat token ;;
       ret (concatResult outputPattern result)
     else if startsWith "[" token && endsWith "]" token then
       let groupContent := trim (slice_1_m1 token) in
       groupPattern <- parseInner groupContent ;;
       ret (outputPattern ++ groupPattern)
     else if includes "*" token then
       result <- handleDirectRepetition token ;;
       ret (concatResult outputPattern result)
     else if String.eqb token "-" then
       ret (outputPattern ++ [defaultRestValue config])
     else
       match parseInt token with
       | Int z => ret (outputPattern ++ [Note (Int z)])
       | NaN =>
           (if debug config
            then console_error ("Invalid token: " ++ token)
            else ret tt) ;;;
           ret outputPattern
       end)
    (fun message =>
       console_error ("Error processing token " ++ quote ++ token ++ quote
                      ++ ": " ++ message) ;;;
       ret outputPattern).

(** [tokens.forEach(...)], threading [outputPattern]. *)
Fixpoint forEachToken (tokens : list string) (outputPattern : list step)
  : M (list step) :=
  match tokens with
  | [] => ret outputPattern
  | token :: rest =>
      outputPattern' <- processToken outputPattern token ;;
      forEachToken rest outputPattern'
  end.

End Handlers.

(** [config.currentDepth++] and [config.currentDepth--] *)
Definition incrementDepth : M unit := d <- getDepth ;; setDepth (d + 1).
Definition decrementDepth : M unit := d <- getDepth ;; setDepth (d - 1).

(** [parsePatternString(pattern, config)].  [fuel] bounds the nesting of
    the recursive calls; [parsePatternString_returns] shows that the depth
    guard of the source keeps the nesting within it. *)
Fixpoint parsePatternString (fuel : nat) (config : Config) (pattern : string)
  : M (list step) :=
  d <- getDepth ;;
  if d >? maxRecursionDepth config then
    console_error ("Maximum recursion depth ("
                   ++ numberToString (Int (maxRecursionDepth config))
                   ++ ") exceeded. Pattern may have circular references.") ;;;
    ret []
  else
    match fuel with
    | O => fun st => (OutOfFuel, st)
    | S fuel' =>
        incrementDepth ;;;
        match matchTokens pattern with
        | [] =>
            (if debug config
             then console_error "No valid tokens found in pattern"
             else ret tt) ;;;
            decrementDepth ;;;
            ret []
        | tokens =>
            outputPattern <-
              forEachToken (parsePatternString fuel' config) config tokens [] ;;
            let outputPattern' :=
              if normalizePitches config
              then normalizeSteps outputPattern
              else outputPattern in
            decrementDepth ;;;
            ret outputPattern'
        end
    end.

(** Fuel for a compilation: one more than the deepest level the guard
    lets through. *)
Definition fuelFor (config : Config) : nat :=
  Z.to_nat (maxRecursionDepth config + 1).

(** [parsePattern(pattern, options)]; [options] holds the merged
    configuration, [defaults] when the caller gives none. *)
Definition parsePattern (pattern : string) (options : Config)
  : M (list step) :=
  if isEmpty pattern then
    console_error "Invalid pattern input" ;;;
    ret []
  else
    (if debug options
     then console_log ("Parsing pattern: " ++ pattern)
     else ret tt) ;;;
    setDepth 0 ;;;
    parsePatternString (fuelFor options) options pattern.

(** *** The random pattern generator *)

Record RandomOptions : Type := mkRandomOptions {
  patternLength : Z;             (* the option [length] *)
  minValue : Z;
  maxValue : Z;
  restProbability : Q;
  groupProbability : Q;
  repetitionProbability : Q
}.

Definition randomDefaults : RandomOptions :=
  {| patternLength := 16;
     minValue := 1;
     maxValue := 99;
     restProbability := 3 # 10;
     groupProbability := 2 # 10;
     repetitionProbability := 4 # 10 |}.

Section Generator.

Variable config : RandomOptions.

(** [Math.floor(Math.random() * (config.maxValue - config.minValue + 1))
    + config.minValue], with the difference, the product and the sum taken
    exactly.  For bounds below 2^52 in magnitude the difference and the
    sum of the code are exact and its product, rounded to a double, stays
    below the span, so that the value is within the bounds there as it is
    here; the statements about the values ask for such bounds.  With
    larger bounds the code leaves them: a [minValue] of -1e308 with a
    [maxValue] of 1e308 gives a span of [Infinity]. *)
Definition randomValue : M Z :=
  r <- Math_random ;;
  ret (floorMul r (maxValue config - minValue config + 1) + minValue config).

(** [Math.floor(Math.random() * 3) + 2] *)
Definition randomCount : M Z :=
  r <- Math_random ;;
  ret (floorMul r 3 + 2).

(** The loop that fills [group]. *)
Fixpoint randomGroup (groupLength : nat) (group : list step)
  : M (list step) :=
  match groupLength with
  | O => ret group
  | S k =>
      r <- Math_random ;;
      if Qltb r (restProbability config) then
        randomGroup k (group ++ [Rest])
      else
        v <- randomValue ;;
        randomGroup k (group ++ [Note (Int v)])
  end.

(** The [for] loop of [createRandomPattern], entered with the index [i];
    each branch ends with the [i++] of the loop. *)
Fixpoint randomLoop (fuel : nat) (i : Z) (result : list step)
  : M (list step) :=
  if i <? patternLength config then
    match fuel with
    | O => fun st => (OutOfFuel, st)
    | S fuel' =>
        rand <- Math_random ;;
        if Qltb rand (restProbability config) then
          randomLoop fuel' (i + 1) (result ++ [Rest])
        else if Qltb rand (restProbability config + groupProbability config)
        then
          if i <? patternLength config - 3 then
            groupLength <- randomCount ;;
            group <- randomGroup (Z.to_nat groupLength) [] ;;
            r <- Math_random ;;
            result' <-
              (if Qltb r (repetitionProbability config) then
                 repeatCount <- randomCount ;;
                 ret (result ++
                      List.concat (List.repeat group (Z.to_nat repeatCount)))
               else ret (result ++ group)) ;;
            randomLoop fuel' (i + (groupLength - 1) + 1) result'
          else
            v <- randomValue ;;
            randomLoop fuel' (i + 1) (result ++ [Note (Int v)])
        else
          value <- randomValue ;;
          r <- Math_random ;;
          if Qltb r (repetitionProbability config) then
            repeatCount <- randomCount ;;
            randomLoop fuel' (i + (repeatCount - 1) + 1)
              (result ++ List.repeat (Note (Int value)) (Z.to_nat repeatCount))
          else
            randomLoop fuel' (i + 1) (result ++ [Note (Int value)])
    end
  else ret result.

End Generator.

(** [createRandomPattern(options)]; [options] holds the merged
    configuration.  The index grows at every turn of the loop, so
    [length] turns are enough. *)
Definition createRandomPattern (options : RandomOptions) : M (list step) :=
  randomLoop options (Z.to_nat (patternLength options)) 0 [].

End Parser2.

(** ** src/unnamed/part_002, the rewrite marked as the final version

    The transformation engine and the sequence utilities are, text for
    text, those of src/lib/parser2.js; this file differs in its tokens and
    in [parsePatternString], which gives every recursive call a copy of
    the configuration and so passes the depth by value. *)

Module Final.
Import JS.
Import Model.
Import Parser2.

(** [s.split(/\s+/)]: [inRun] tells that the last character was white
    space. *)
Fixpoint splitRuns (inRun : bool) (s : string) : list string :=
  match s with
  | EmptyString => [EmptyString]
  | String c r =>
      if isSpace c then
        if inRun then splitRuns true r else EmptyString :: splitRuns true r
      else
        match splitRuns false r with
        | h :: t => String c h :: t
        | [] => [String c EmptyString]
        end
  end.

(** [pattern.trim().split(/\s+/)] *)
Definition parts (pattern : string) : list string :=
  splitRuns false (trim pattern).

(** The repetition of a single element, as both paths of this file write
    it: the count is tested, then the element is pushed in a loop. *)
Definition repetition (config : Config) (token : string)
    (output : list step) : M (list step) :=
  let '(value, repeat) := splitStar token in
  let repeatCount := parseInt (textOf repeat) in
  match repeatCount with
  | Int n =>
      if n <=? 0 then
        console_error ("Invalid repeat count: " ++ textOf repeat) ;;;
        ret output
      else if String.eqb value "-" then
        forLoop n (fun a => Array_push a [defaultRestValue config]) output
      else if isNumeric value then
        let numValue := Note (parseInt value) in
        forLoop n (fun a => Array_push a [numValue]) output
      else
        console_error ("Invalid value for repetition: " ++ value) ;;;
        ret output
  | NaN =>
      console_error ("Invalid repeat count: " ++ textOf repeat) ;;;
      ret output
  end.

(** The body of the loop over [parts], for a pattern without brackets. *)
Definition flatPart (config : Config) (outputPattern : list step)
    (part : string) : M (list step) :=
  if includes "*" part then repetition config part outputPattern
  else if String.eqb part "-" then
    ret (outputPattern ++ [defaultRestValue config])
  else if isNumeric part then
    ret (outputPattern ++ [Note (parseInt part)])
  else ret outputPattern.

Fixpoint flatLoop (config : Config) (l : list string)
    (outputPattern : list step) : M (list step) :=
  match l with
  | [] => ret outputPattern
  | part :: rest =>
      outputPattern' <- flatPart config outputPattern part ;;
      flatLoop config rest outputPattern'
  end.

(** [transformMatch]: the expression of the source asks, from the start
    of the text, for a letter, word characters and an opening bracket;
    the result is the length of that identifier. *)
Definition identifierLength (prefix : string) : option nat :=
  match prefix with
  | String c r =>
      if isLower c || isUpper c then
        if headIs "[" (dropWhile isWord r)
        then Some (S (String.length (takeWhile isWord r)))
        else None
      else None
  | EmptyString => None
  end.

(** The loop that looks for the matching bracket: the number of
    characters read and the depth left. *)
Fixpoint closeBracket (s : string) (bracketDepth read : nat) : nat * nat :=
  match bracketDepth with
  | O => (read, O)
  | S below =>
      match s with
      | EmptyString => (read, bracketDepth)
      | String c r =>
          if Ascii.eqb c "[" then closeBracket r (S bracketDepth) (S read)
          else if Ascii.eqb c "]" then closeBracket r below (S read)
          else closeBracket r bracketDepth (S read)
      end
  end.

(** The end of a repeat count that starts after the star at [tokenEnd]. *)
Definition repeatEndFrom (pattern : string) (tokenEnd : nat) : nat :=
  (tokenEnd + 1
   + String.length (takeWhile isDigit (drop (tokenEnd + 1) pattern)))%nat.

Definition starAt (pattern : string) (i : nat) : bool :=
  headIs "*" (drop i pattern).

(** [extractNextToken(pattern, startPos)]: the token, [None] for [null],
    and the new position. *)
Definition extractNextToken (pattern : string) (startPos : nat)
  : M (option string * nat) :=
  let len := String.length pattern in
  let currentPos :=
    (startPos + String.length (takeWhile isSpace (drop startPos pattern)))%nat
  in
  match String.get currentPos pattern with
  | None => ret (None, currentPos)
  | Some c =>
      if Ascii.eqb c "[" then
        let transformMatch :=
          identifierLength (substring 0 (currentPos + 1) pattern) in
        let '(read, bracketDepth) :=
          closeBracket (drop (currentPos + 1) pattern) 1 0 in
        let tokenEnd := (currentPos + 1 + read)%nat in
        if (0 <? bracketDepth)%nat then
          console_error "Unbalanced brackets in pattern" ;;;
          ret (None, len)
        else
          let stop :=
            if starAt pattern tokenEnd
            then repeatEndFrom pattern tokenEnd
            else tokenEnd in
          match transformMatch with
          | Some nameLength =>
              ret (Some (substring (currentPos - nameLength) stop pattern),
                   stop)
          | None => ret (Some (substring currentPos stop pattern), stop)
          end
      else if isDigit c || Ascii.eqb c "-" then
        let tokenEnd :=
          if isDigit c
          then (currentPos + 1
                + String.length
                    (takeWhile isDigit (drop (currentPos + 1) pattern)))%nat
          else (currentPos + 1)%nat in
        let stop :=
          if starAt pattern tokenEnd
          then repeatEndFrom pattern tokenEnd
          else tokenEnd in
        ret (Some (substring currentPos stop pattern), stop)
      else
        ret (Some (String c EmptyString), (currentPos + 1)%nat)
  end.

(** [/^\[.*\]\*\d+$/.test(token)] *)
Definition isGroupRepeat (token : string) : bool :=
  let digits := takeWhile isDigit (reverse token) in
  let before := dropWhile isDigit (reverse token) in
  negb (isEmpty digits) &&
  match before with
  | String c1 (String c2 inner) =>
      Ascii.eqb c1 "*" && Ascii.eqb c2 "]" && endsWith "[" inner
      && allOf (fun d => negb (isLineTerminator d)) inner
  | _ => false
  end.

Section Tokens.

(** The recursive call, on a copy of the configuration. *)
Variable parseInner : string -> M (list step).
Variable config : Config.

(** The body of the loop of [processComplexPattern] for a token, with its
    [try] and [catch]. *)
Definition processToken (result : list step) (token : string)
  : M (list step) :=
  tryCatchOn result
    (if String.eqb token "-" then
       ret (result ++ [defaultRestValue config])
     else if isNumeric token then
       ret (result ++ [Note (parseInt token)])
     else if includes "*" token && negb (startsWith "[" token) then
       repetition config token result
     else if isTransformCall token then
       let transformName :=
         substringZ 0 (indexZ (indexOf "[" token)) token in
       let content :=
         substringZ (indexZ (indexOf "[" token) + 1)
                    (indexZ (lastIndexOf "]" token)) token in
       contentPattern <- parseInner content ;;
       transformedPattern <- transformPattern transformName contentPattern ;;
       ret (result ++ transformedPattern)
     else if isGroupRepeat token then
       let closeBracketPos := indexZ (lastIndexOf "]" token) in
       let group := substringZ 1 closeBracketPos token in
       let repeat := drop (Z.to_nat (closeBracketPos + 2)) token in
       match parseInt repeat with
       | Int n =>
           if n <=? 0 then
             console_error ("Invalid repeat count: " ++ repeat) ;;;
             ret result
           else
             groupPattern <- parseInner group ;;
             forLoop n (fun a => Array_push a groupPattern) result
       | NaN =>
           console_error ("Invalid repeat count: " ++ repeat) ;;;
           ret result
       end
     else if startsWith "[" token && endsWith "]" token then
       let content := substring 1 (String.length token - 1) token in
       groupPattern <- parseInner content ;;
       ret (result ++ groupPattern)
     else
       (if debug config
        then console_error ("Unknown token type: " ++ token)
        else ret tt) ;;;
       ret result)
    (fun message array =>
       console_error ("Error processing token " ++ quote ++ token ++ quote
                      ++ ": " ++ message) ;;;
       ret array).

(** The loop of [processComplexPattern]: [rest] is the text from the
    position [pos] on, and [skip] counts the characters up to
    [currentPos]. *)
Fixpoint complexLoop (pattern rest : string) (pos skip : nat)
    (result : list step) : M (list step) :=
  match rest with
  | EmptyString => ret result
  | String c r =>
      match skip with
      | S k => complexLoop pattern r (S pos) k result
      | O =>
          if isSpace c then complexLoop pattern r (S pos) O result
          else
            extracted <- extractNextToken pattern pos ;;
            let '(token, newPos) := extracted in
            result' <-
              match token with
              | Some t => if isEmpty t then ret result
                          else processToken result t
              | None => ret result
              end ;;
            complexLoop pattern r (S pos) (newPos - pos - 1) result'
      end
  end.

Definition processComplexPattern (pattern : string) : M (list step) :=
  complexLoop pattern pattern 0 0 [].

End Tokens.

(** [parsePatternString(pattern, config)], with [config.currentDepth]
    as the argument [depth]. *)
Fixpoint parsePatternString (fuel : nat) (config : Config) (depth : Z)
    (pattern : string) : M (list step) :=
  if depth >? maxRecursionDepth config then
    console_error ("Maximum recursion depth ("
                   ++ numberToString (Int (maxRecursionDepth config))
                   ++ ") exceeded. Pattern may have circular references.") ;;;
    ret []
  else
    match fuel with
    | O => fun st => (OutOfFuel, st)
    | S fuel' =>
        outputPattern <-
          tryCatchOn []
            (if negb (includes "[" pattern) then
               flatLoop config (parts pattern) []
             else
               processComplexPattern
                 (parsePatternString fuel' config (depth + 1)) config pattern)
            (fun message array =>
               console_error ("Error parsing pattern: " ++ message) ;;;
               ret array) ;;
        ret (if normalizePitches config
             then normalizeSteps outputPattern
             else outputPattern)
    end.

Definition parsePattern (pattern : string) (options : Config)
  : M (list step) :=
  if isEmpty pattern then
    console_error "Invalid pattern input" ;;;
    ret []
  else
    (if debug options
     then console_log ("Parsing pattern: " ++ pattern)
     else ret tt) ;;;
    parsePatternString (fuelFor options) options 0 pattern.

End Final.

(** ** src/unnamed/part_001, the rewrite marked as the fixed version

    Its tokens come from a scan, character by character, that counts the
    brackets; the recursive calls work on a copy of the configuration. *)

Module Fixed.
Import JS.
Import Model.
Import Parser2.

(** The variables of the loop of [tokenizeWithBrackets]. *)
Record Scan : Type := mkScan {
  tokens : list string;
  currentToken : string;
  bracketDepth : nat;
  inTransform : bool
}.

(** [tokens.push(currentToken.trim()); currentToken = ''] *)
Definition pushToken (s : Scan) : Scan :=
  mkScan (tokens s ++ [trim (currentToken s)]) EmptyString
         (bracketDepth s) (inTransform s).

(** [currentToken += char] *)
Definition addChar (c : ascii) (s : Scan) : Scan :=
  mkScan (tokens s) (currentToken s ++ String c EmptyString)
         (bracketDepth s) (inTransform s).

(** [/^\w+$/.test(text)] *)
Definition isWordText (text : string) : bool :=
  negb (isEmpty text) && allOf isWord text.

(** The loop of [tokenizeWithBrackets]: [rest] is the text from the
    index [i] on, and [skip] counts the digits a repeat count has already
    taken. *)
Fixpoint scanLoop (rest : string) (i skip : nat) (s : Scan) : M Scan :=
  match rest with
  | EmptyString => ret s
  | String c r =>
      match skip with
      | S k => scanLoop r (S i) k s
      | O =>
          if Ascii.eqb c "[" then
            let depth := S (bracketDepth s) in
            let transform :=
              if (depth =? 1)%nat && negb (isEmpty (currentToken s))
                 && isWordText (trim (currentToken s))
              then true else inTransform s in
            scanLoop r (S i) O
              (mkScan (tokens s) (currentToken s ++ "[") depth transform)
          else if Ascii.eqb c "]" then
            match bracketDepth s with
            | S below =>
                let s1 :=
                  mkScan (tokens s) (currentToken s ++ "]") below
                         (inTransform s) in
                match below with
                | O =>
                    if headIs "*" r then scanLoop r (S i) O s1
                    else
                      scanLoop r (S i) O
                        (mkScan (tokens s1 ++ [trim (currentToken s1)])
                                EmptyString O false)
                | S _ => scanLoop r (S i) O s1
                end
            | O =>
                console_error
                  ("Unbalanced bracket at position "
                   ++ numberToString (Int (Z.of_nat i))) ;;;
                scanLoop r (S i) O s
            end
          else if Ascii.eqb c "*" then
            let s1 := addChar c s in
            if (bracketDepth s =? 0)%nat && isDigit (match r with
                                                     | String d _ => d
                                                     | EmptyString => c
                                                     end)
            then
              let digits := takeWhile isDigit r in
              scanLoop r (S i) (String.length digits)
                (pushToken
                   (mkScan (tokens s1) (currentToken s1 ++ digits)
                           (bracketDepth s1) (inTransform s1)))
            else scanLoop r (S i) O s1
          else if Ascii.eqb c " " || (code c =? 9)%N || (code c =? 10)%N then
            if (0 <? bracketDepth s)%nat || inTransform s then
              scanLoop r (S i) O (addChar c s)
            else if negb (isEmpty (currentToken s)) then
              scanLoop r (S i) O (pushToken s)
            else scanLoop r (S i) O s
          else scanLoop r (S i) O (addChar c s)
      end
  end.

(** [tokenizeWithBrackets(pattern)] *)
Definition tokenizeWithBrackets (pattern : string) : M (list string) :=
  s <- scanLoop pattern 0 0 (mkScan [] EmptyString 0 false) ;;
  let s' := if isEmpty (currentToken s) then s else pushToken s in
  (if (bracketDepth s' =? 0)%nat then ret tt
   else console_error "Unbalanced brackets in pattern") ;;;
  ret (filter (fun t => negb (isEmpty (trim t))) (tokens s')).

(** [/^\[.*\]$/.test(token)] *)
Definition isGroup (token : string) : bool :=
  headIs "[" token && endsWith "]" (drop 1 token)
  && allOf (fun d => negb (isLineTerminator d)) token.

(** [/^.+\*\d+$/.test(token)] *)
Definition isRepetition (token : string) : bool :=
  let digits := takeWhile isDigit (reverse token) in
  let before := dropWhile isDigit (reverse token) in
  negb (isEmpty digits) &&
  match before with
  | String c1 value =>
      Ascii.eqb c1 "*" && negb (isEmpty value)
      && allOf (fun d => negb (isLineTerminator d)) value
  | EmptyString => false
  end.

Section Tokens.

(** The recursive call, on a copy of the configuration. *)
Variable parseInner : string -> M (list step).
Variable config : Config.

(** The body of the loop over the tokens, with its [try] and [catch]. *)
Definition processToken (outputPattern : list step) (token : string)
  : M (list step) :=
  tryCatchOn outputPattern
    (if Final.isGroupRepeat token then
       let '(group, repeat) := splitStar token in
       match parseInt (textOf repeat) with
       | Int n =>
           if n <=? 0 then
             console_error ("Invalid repeat count: " ++ textOf repeat) ;;;
             ret outputPattern
           else
             let groupContent := trim (slice_1_m1 group) in
             groupPattern <- parseInner groupContent ;;
             forLoop n (fun a => Array_extend a groupPattern) outputPattern
       | NaN =>
           console_error ("Invalid repeat count: " ++ textOf repeat) ;;;
           ret outputPattern
       end
     else if isTransformCall token then
       let transformName :=
         substringZ 0 (indexZ (indexOf "[" token)) token in
       let content :=
         substringZ (indexZ (indexOf "[" token) + 1)
                    (indexZ (lastIndexOf "]" token)) token in
       contentPattern <- parseInner content ;;
       transformedPattern <- transformPattern transformName contentPattern ;;
       ret (outputPattern ++ transformedPattern)
     else if isGroup token then
       let content := trim (slice_1_m1 token) in
       groupPattern <- parseInner content ;;
       ret (outputPattern ++ groupPattern)
     else if isRepetition token then
       Final.repetition config token outputPattern
     else if String.eqb token "-" then
       ret (outputPattern ++ [defaultRestValue config])
     else if isNumeric token then
       ret (outputPattern ++ [Note (parseInt token)])
     else
       (if debug config
        then console_error ("Invalid token: " ++ token)
        else ret tt) ;;;
       ret outputPattern)
    (fun message array =>
       console_error ("Error processing token " ++ quote ++ token ++ quote
                      ++ ": " ++ message) ;;;
       ret array).

Fixpoint forEachToken (l : list string) (outputPattern : list step)
  : M (list step) :=
  match l with
  | [] => ret outputPattern
  | token :: rest =>
      outputPattern' <- processToken outputPattern token ;;
      forEachToken rest outputPattern'
  end.

End Tokens.

(** [parsePatternString(pattern, config)], with [config.currentDepth]
    as the argument [depth]. *)
Fixpoint parsePatternString (fuel : nat) (config : Config) (depth : Z)
    (pattern : string) : M (list step) :=
  if depth >? maxRecursionDepth config then
    console_error ("Maximum recursion depth ("
                   ++ numberToString (Int (maxRecursionDepth config))
                   ++ ") exceeded. Pattern may have circular references.") ;;;
    ret []
  else
    match fuel with
    | O => fun st => (OutOfFuel, st)
    | S fuel' =>
        found <- tokenizeWithBrackets pattern ;;
        match found with
        | [] =>
            (if debug config
             then console_log "No valid tokens found in pattern"
             else ret tt) ;;;
            ret []
        | _ =>
            outputPattern <-
              forEachToken (parsePatternString fuel' config (depth + 1))
                config found [] ;;
            ret (if normalizePitches config
                 then normalizeSteps outputPattern
                 else outputPattern)
        end
    end.

Definition parsePattern (pattern : string) (options : Config)
  : M (list step) :=
  if isEmpty pattern then
    console_error "Invalid pattern input" ;;;
    ret []
  else
    (if debug options
     then console_log ("Parsing pattern: " ++ pattern)
     else ret tt) ;;;
    parsePatternString (fuelFor options) options 0 pattern.

End Fixed.

(** ** Notions used to state the properties *)

Module Notions.
Import JS.
Import Model.
Import Parser2.

(** A run of decimal digits and the number it denotes. *)
Inductive denotes : string -> Z -> Prop :=
| denotes_one d :
    (d < 10)%N -> denotes (String (digitChar d) EmptyString) (Z.of_N d)
| denotes_snoc s v d :
    denotes s v -> (d < 10)%N ->
    denotes (s ++ String (digitChar d) EmptyString) (v * 10 + Z.of_N d).

(** From a state at depth [d] the computation returns a value, at depth
    [d']. *)
Definition moves {A : Type} (d d' : Z) (m : M A) : Prop :=
  forall st, currentDepth st = d ->
  exists a st', m st = (Ok a, st') /\ currentDepth st' = d'.

(** The computation returns a value and leaves the depth counter at [d]. *)
Definition returns {A : Type} (d : Z) (m : M A) : Prop := moves d d m.

(** The outcome is a value or an exception with a message. *)
Definition isSettled {A : Type} (r : outcome A) : Prop :=
  match r with
  | Ok _ | Throw _ => True
  | _ => False
  end.

(** The computation returns or throws, and leaves the depth counter at
    [d]. *)
Definition settles {A : Type} (d : Z) (m : M A) : Prop :=
  forall st, currentDepth st = d ->
  exists r st', m st = (r, st') /\ isSettled r /\ currentDepth st' = d.

(** The computation has an outcome of the code, within the fuel of the
    model, and unless it does not return it leaves the depth counter at
    [d]. *)
Definition attempts {A : Type} (d : Z) (m : M A) : Prop :=
  forall st, currentDepth st = d ->
  exists r st',
    m st = (r, st') /\ r <> OutOfFuel
    /\ (r = Diverges \/ currentDepth st' = d).

(** From a state at depth [d] the computation returns a value, at depth
    [d'], or does not return; it raises nothing. *)
Definition reaches {A : Type} (d d' : Z) (m : M A) : Prop :=
  forall st, currentDepth st = d ->
  (exists a st', m st = (Ok a, st') /\ currentDepth st' = d')
  \/ (exists st', m st = (Diverges, st')).

Definition finishes {A : Type} (d : Z) (m : M A) : Prop := reaches d d m.

(** The computation returns a value that satisfies [P], whatever the
    state. *)
Definition produces {A : Type} (P : A -> Prop) (m : M A) : Prop :=
  forall st, exists a st', m st = (Ok a, st') /\ P a.

(** Two computations give the same run from every state at depth [d]. *)
Definition agree {A : Type} (d : Z) (m1 m2 : M A) : Prop :=
  forall st, currentDepth st = d -> m1 st = m2 st.

(** The state after one more [console.error]. *)
Definition withError (st : State) (msg : string) : State :=
  mkState (currentDepth st) (random st) (drawn st) (console st ++ [Error msg]).

(** The tokens the dispatch of [parsePatternString] expands through a
    recursive call: a transformation, a group with a repeat, a group. *)
Definition isBracketToken (token : string) : bool :=
  negb (isNumeric token) &&
  (isTransformCall token || includes "]*" token
   || (startsWith "[" token && endsWith "]" token)).

(** The tokens the dispatch of part_002 expands through a recursive call. *)
Definition isFinalBracketToken (token : string) : bool :=
  negb (String.eqb token "-") && negb (isNumeric token)
  && negb (includes "*" token && negb (startsWith "[" token))
  && (isTransformCall token || Final.isGroupRepeat token
      || (startsWith "[" token && endsWith "]" token)).

(** The tokens the dispatch hands to [handleGroupWithRepeat]. *)
Definition isGroupRepeatToken (token : string) : bool :=
  negb (isNumeric token) && negb (isTransformCall token)
  && includes "]*" token.





(** The leading letters of a transformation name. *)
Definition lettersPrefix (name : string) : string :=
  takeWhile (fun c => isLower c || isUpper c) name.

(** The registry name [transformPattern] selects: the first run of
    lower-case letters of the name. *)
Definition selected (name : string) : option string :=
  option_map fst (matchTransform name).

(** The name selects an entry of the registry. *)
Definition selectsRegistered (name : string) : bool :=
  match selected name with
  | Some transform => inRegistry transform
  | None => false
  end.

(** [normalize] in the words of the specification: a numeric-looking value
    becomes the note of its parsed integer, anything else a rest. *)
Definition normalize_spec (pattern : list value) : list value :=
  map (fun item =>
         match parseInt (valueToString item) with
         | Int z => VNum (Int z)
         | NaN => VStr "-"
         end) pattern.

(** A value whose parsed number, if any, the code prints in plain
    decimal: the double nearest to the integer of the digits is below
    10^21. *)
Definition plainItem (item : value) : bool :=
  match parseInt (valueToString item) with
  | Int z => Z.abs (toDouble z) <? 10 ^ 21
  | NaN => true
  end.

(** What [normalizePattern] makes of a value: the rest symbol of a rest
    or an absent value; the number [parseInt] reads, which is the integer
    of the digits up to 2^53 and the double nearest to it beyond, as long
    as there is one (below 2^1024; past the largest double the code holds
    [Infinity], a number); the value itself when [parseInt] reads no
    integer. *)
Definition normalized (item result : value) : Prop :=
  if isRestOrAbsent item then result = VStr "-"
  else
    match parseInt (valueToString item) with
    | Int z =>
        if Z.abs z <=? 2 ^ 53 then result = VNum (Int z)
        else if Z.abs (toDouble z) <? 2 ^ 1024
             then result = VNum (Int (toDouble z))
             else exists n, result = VNum n
    | NaN => result = item
    end.

(** [Array(n)] accepts the length [n]. *)
Definition isArrayLength (n : number) : bool :=
  match n with
  | Int z => (0 <=? z) && (z <=? 4294967295)
  | NaN => false
  end.

(** The call asks [repeat] for arrays longer than an array can be: the
    name selects [repeat], the sequence is not empty and the parameter is
    no array length. *)
Definition repeatsTooLong (name : string) (s : list step) : bool :=
  match matchTransform name with
  | Some (transform, digits) =>
      String.eqb transform "repeat"
      && negb (Nat.eqb (List.length s) 0)
      && match paramOf digits with
         | Some p => negb (isArrayLength p)
         | None => false
         end
  | None => false
  end.

(** The text [join] gives a step. *)
Definition stepText (x : step) : string := joinText (toValue x).

(** A rest or an integer note that is printed in plain decimal. *)
Definition isPlain (x : step) : bool :=
  match x with
  | Rest => true
  | Note (Int z) => Z.abs z <? 10 ^ 21
  | Note NaN => false
  end.

(** A character of the text of a plain step: a digit or the minus sign. *)
Definition isPlainChar (c : ascii) : bool := isDigit c || Ascii.eqb c "-".

(** A text of digits and minus signs, not empty. *)
Definition isPlainText (t : string) : bool :=
  negb (isEmpty t) && allOf isPlainChar t.

(** The character [d] is not [c]. *)
Definition without (c d : ascii) : bool := negb (Ascii.eqb d c).




(** [t] is a piece of [s]: some text, then [t], then some text. *)
Definition pieceOf (t s : string) : Prop :=
  exists a b, s = (a ++ t ++ b)%string.

(** Every run of hexadecimal digits of [s] has at most [k] characters;
    [run] is the length of the run that [s] continues. *)
Fixpoint shortRuns (k run : nat) (s : string) : bool :=
  match s with
  | EmptyString => true
  | String c r =>
      if isRadixDigit 16 c
      then (run <? k)%nat && shortRuns k (S run) r
      else shortRuns k O r
  end.

(** No number written in [s], in decimal or in hexadecimal, reaches 2^52:
    no run of hexadecimal digits has more than 13 characters. *)
Definition countsAreSmall (s : string) : bool := shortRuns 13 0 s.

(** Draws and states for the examples. *)
Definition half : draw := mkDraw (1 # 2) eq_refl.
Definition tenth : draw := mkDraw (1 # 10) eq_refl.

Definition initialState : State := mkState 0 (fun _ => half) 0 [].

(** A random source that makes every turn of the generator a note
    repeated three times: 0.5 for the kind and the value, 0.1 for the
    choice to repeat, 0.5 for the count. *)
Definition tripletSource (n : nat) : draw :=
  match Nat.modulo n 4 with
  | 2%nat => tenth
  | _ => half
  end.

(** The options of the non-grouped path: group probability 0. *)
Definition nonGrouped : RandomOptions :=
  {| patternLength := 16;
     minValue := 1;
     maxValue := 99;
     restProbability := 3 # 10;
     groupProbability := 0;
     repetitionProbability := 4 # 10 |}.

(** A step is a rest or a note between [lo] and [hi]. *)
Definition inBounds (lo hi : Z) (s : step) : Prop :=
  match s with
  | Rest => True
  | Note (Int v) => lo <= v <= hi
  | Note NaN => False
  end.

End Notions.

(** ** src/lib/improved_pattern_generator.js

    The class [ImprovedPatternGenerator] builds pattern texts from
    [createRandomPattern] and from fixed lists; its methods use no field
    of the object, so they are functions here.  It loads its parser from
    './parser2_final.js'; [createRandomPattern] is the same text in
    src/lib/parser2.js and in the parts of src/unnamed, and is
    [Parser2.createRandomPattern] here. *)

Module Generator.
Import JS.
Import Model.
Import Parser2.

(** [getRandomInt(max)] *)
Definition getRandomInt (max : Z) : M Z :=
  r <- Math_random ;;
  ret (floorMul r max).

(** [array[i]] on a list of texts; [None] stands for [undefined]. *)
Definition elementAt (array : list string) (i : Z) : option string :=
  if i <? 0 then None else nth_error array (Z.to_nat i).

(** [patterns[this.getRandomInt(patterns.length)]] *)
Definition pick (patterns : list string) : M (option string) :=
  i <- getRandomInt (Z.of_nat (List.length patterns)) ;;
  ret (elementAt patterns i).

(** The text a template literal gives an element that may be absent. *)
Definition textOfElement (x : option string) : string :=
  match x with
  | Some t => t
  | None => "undefined"
  end.

(** [s.toLowerCase()] on the code units below 256: the letters A to Z and
    the capital letters of Latin-1, which lie 32 below their small
    letters. *)
Definition toLowerChar (c : ascii) : ascii :=
  if isUpper c || (inRange 192 222 c && negb (code c =? 215)%N)
  then ascii_of_N (code c + 32)
  else c.

Fixpoint toLowerCase (s : string) : string :=
  match s with
  | String c r => String (toLowerChar c) (toLowerCase r)
  | EmptyString => EmptyString
  end.

(** The defaults of [generateSimplePattern]. *)
Definition simpleDefaults : RandomOptions :=
  {| patternLength := 16;
     minValue := 1;
     maxValue := 99;
     restProbability := 4 # 10;
     groupProbability := 2 # 10;
     repetitionProbability := 3 # 10 |}.

(** [generateSimplePattern(options)]; [options] holds the merged
    configuration. *)
Definition generateSimplePattern (options : RandomOptions) : M string :=
  pattern <- createRandomPattern options ;;
  ret (patternToString pattern).

(** The options the sections give [createRandomPattern]: a length and
    two probabilities, no groups, and the bounds of its defaults. *)
Definition sectionOptions (length : Z) (rest repetition : Q) : RandomOptions :=
  {| patternLength := length;
     minValue := minValue randomDefaults;
     maxValue := maxValue randomDefaults;
     restProbability := rest;
     groupProbability := 0;
     repetitionProbability := repetition |}.

(** The text of a group with a repeat count. *)
Definition groupText (section : list step) (repeat : Z) : string :=
  "[" ++ patternToString section ++ "]*" ++ numberToString (Int repeat).

(** The text of a transformation applied to a group. *)
Definition callText (transform : string) (pattern : list step) : string :=
  transform ++ "[" ++ patternToString pattern ++ "]".

Definition generateSimplePatternSection : M string :=
  r <- Math_random ;;
  let length := floorMul r 4 + 2 in
  section <- createRandomPattern (sectionOptions length (3 # 10) (4 # 10)) ;;
  again <- Math_random ;;
  if Qltb (7 # 10) again then
    r' <- Math_random ;;
    let repeat := floorMul r' 3 + 2 in
    ret (groupText section repeat)
  else ret (patternToString section).

Definition generateGroupedSection : M string :=
  r <- Math_random ;;
  let length := floorMul r 3 + 2 in
  section <- createRandomPattern (sectionOptions length (2 # 10) (2 # 10)) ;;
  r' <- Math_random ;;
  let repeat := floorMul r' 3 + 2 in
  ret (groupText section repeat).

Definition transformations : list string :=
  ["invert5"; "scale2"; "offset3"; "mirror";
   "repeat2"; "quantize5"; "reverse"; "rotate1"].

Definition generateTransformationSection : M string :=
  transform <- pick transformations ;;
  r <- Math_random ;;
  let length := floorMul r 4 + 3 in
  pattern <- createRandomPattern (sectionOptions length (2 # 10) (2 # 10)) ;;
  ret (callText (textOfElement transform) pattern).

(** The options of [generateComplexPattern]. *)
Record ComplexOptions : Type := mkComplexOptions {
  sections : Z;
  transformProbability : Q;
  nestingProbability : Q
}.

Definition complexDefaults : ComplexOptions :=
  {| sections := 3;
     transformProbability := 6 # 10;
     nestingProbability := 4 # 10 |}.

(** The loop of [generateComplexPattern], with [n] turns left. *)
Fixpoint complexLoop (n : nat) (patternSections : list string)
  : M (list string) :=
  match n with
  | O => ret patternSections
  | S k =>
      sectionType <- Math_random ;;
      section <-
        (if Qltb sectionType (3 # 10) then generateSimplePatternSection
         else if Qltb sectionType (6 # 10) then generateGroupedSection
         else generateTransformationSection) ;;
      complexLoop k (patternSections ++ [section])
  end.

(** [generateComplexPattern(options)]; [options] holds the merged
    configuration. *)
Definition generateComplexPattern (options : ComplexOptions) : M string :=
  patternSections <- complexLoop (Z.to_nat (sections options)) [] ;;
  ret (join " " patternSections).

Definition dnbPatterns : list string :=
  ["[1 - - - - - 1 -]*2";
   "[- - 1 - - 1 - -]*2";
   "[1 - - 1 - 1 - -]*2";
   "1 - - - - - 1 - - - - - 1 - - -";
   "- - - - 1 - - - - - - - 1 - - -";
   "[1 -]*8"].

Definition housePatterns : list string :=
  ["[1 - - -]*4";
   "[1 - - - 1 - - -]*2";
   "[- 1 - 1]*4";
   "[- 1]*8";
   "[- - 1 - - - 1 -]*2"].

Definition minimalPatterns : list string :=
  ["[1 - - - - - - -]*2";
   "1 - - - - - - - 2 - - - - - - -";
   "[- - 1 - - - - -]*4";
   "1 - - - 1 - - - - - 1 - - - - -"].

Definition glitchPatterns : list string :=
  ["1 - 3 - - 2 - - 1 - - - 5 - 2 -";
   "scramble[1 2 3 4 5 6 7 8]";
   "1 - - 1 - 1 - - - 1 - - 1 - 1 -";
   "rotate3[1 - 2 - 3 - 4 -]"].

Definition generateDrumAndBassPattern : M (option string) := pick dnbPatterns.
Definition generateHousePattern : M (option string) := pick housePatterns.
Definition generateMinimalPattern : M (option string) := pick minimalPatterns.
Definition generateGlitchPattern : M (option string) := pick glitchPatterns.

(** [generateGenericPattern()]: a length and a rest probability, the
    other options from the defaults of [createRandomPattern]. *)
Definition generateGenericPattern : M string :=
  base <- createRandomPattern
            {| patternLength := 8;
               minValue := minValue randomDefaults;
               maxValue := maxValue randomDefaults;
               restProbability := 3 # 10;
               groupProbability := groupProbability randomDefaults;
               repetitionProbability := repetitionProbability randomDefaults |} ;;
  ret (patternToString base).

(** [generateStylePattern(style)] *)
Definition generateStylePattern (style : string) : M (option string) :=
  let lower := toLowerCase style in
  if String.eqb lower "dnb" then generateDrumAndBassPattern
  else if String.eqb lower "house" then generateHousePattern
  else if String.eqb lower "minimal" then generateMinimalPattern
  else if String.eqb lower "glitch" then generateGlitchPattern
  else
    text <- generateGenericPattern ;;
    ret (Some text).

Definition musicalStyles : list string := ["dnb"; "house"; "minimal"; "glitch"].

(** [generatePattern(complexity)] *)
Definition generatePattern (complexity : string) : M (option string) :=
  if existsb (String.eqb (toLowerCase complexity)) musicalStyles then
    generateStylePattern complexity
  else if String.eqb complexity "complex" then
    text <- generateComplexPattern complexDefaults ;;
    ret (Some text)
  else
    text <- generateSimplePattern simpleDefaults ;;
    ret (Some text).

End Generator.

(** ** Notions for the properties of the transformations, the tokens
    and the generator *)

Module Shapes.
Import JS.
Import Model.
Import Parser2.
Import Notions.

(** A rest, [NaN], or a note below [bound] in magnitude: with a bound
    within 2^53 the arithmetic on such notes is exact in a double. *)
Definition exactStep (bound : Z) (x : step) : bool :=
  match x with
  | Note (Int z) => Z.abs z <? bound
  | _ => true
  end.

Definition isRest (x : step) : bool :=
  match x with Rest => true | Note _ => false end.

(** Two steps are both rests or both notes. *)
Definition sameKind (x y : step) : Prop := isRest x = isRest y.

(** [y] is the step [x] moved to a nearest multiple of [p]. *)
Definition quantized (p : Z) (x y : step) : Prop :=
  match x, y with
  | Rest, Rest => True
  | Note (Int a), Note (Int b) => (p | b) /\ 2 * Z.abs (b - a) <= p
  | Note NaN, Note NaN => True
  | _, _ => False
  end.

(** The transformations that compute on the value of each note. *)
Definition arithmetic : list string := ["invert"; "scale"; "offset"; "quantize"].

(** [y] is the step [x] or a rest in its place. *)
Definition thinned (x y : step) : Prop := y = Rest \/ y = x.

(** The sequence turned left by [k] places. *)
Definition rotation (k : nat) (s : list step) : list step :=
  skipn k s ++ firstn k s.

(** A character a numeric literal can hold, white space around it
    included. *)
Definition isLiteralChar (c : ascii) : bool :=
  isWord c || Ascii.eqb c "+" || Ascii.eqb c "-" || Ascii.eqb c "."
  || isSpace c.

(** A character of the text of a plain sequence: a digit, the minus sign
    or the space between two steps. *)
Definition isContentChar (c : ascii) : bool :=
  isPlainChar c || Ascii.eqb c " ".

(** A character of a group's content as [.] with the lazy star reads it:
    no closing bracket, no line terminator. *)
Definition isInnerChar (c : ascii) : bool :=
  negb (Ascii.eqb c "]") && negb (isLineTerminator c).

(** A character of a token of the last alternative that opens no
    bracket. *)
Definition isRunChar (c : ascii) : bool :=
  negb (isSeparator c) && without "[" c.

(** The state with another value of the recursion counter. *)
Definition atDepth (d : Z) (st : State) : State :=
  mkState d (random st) (drawn st) (console st).

(** The computation neither reads nor writes the recursion counter. *)
Definition ignoresDepth {A : Type} (m : M A) : Prop :=
  forall d st, m (atDepth d st) = (fst (m st), atDepth d (snd (m st))).

(** A text with no white space at either end. *)
Definition isTrimmed (t : string) : Prop := trim t = t.

(** The tokens a scan of part_001 has pushed are trimmed. *)
Definition tokensTrimmed (s : Fixed.Scan) : Prop :=
  Forall isTrimmed (Fixed.tokens s).

(** The pattern compiles, with no diagnostic, to a whole number of bars of
    eight steps. *)
Definition compilesToBars (p : string) : Prop :=
  forall st,
  exists seq st',
    parsePattern p defaults st = (Ok seq, st')
    /\ console st' = console st
    /\ seq <> []
    /\ (List.length seq mod 8 = 0)%nat.

End Shapes.


(** * Properties *)

Import JS.
Import Model.
Import Parser2.
Import Notions.

(** ** Printing and reading decimal digits *)

Lemma digitChar_isDigit (d : N) : (d < 10)%N -> isDigit (digitChar d) = true.
Proof.
  intros H.
  assert (E : In d [0;1;2;3;4;5;6;7;8;9]%N).
  { simpl. lia. }
  simpl in E.
  repeat (destruct E as [<- | E]; [reflexivity |]).
  destruct E.
Qed.

Lemma digitChar_value (d : N) :
  (d < 10)%N -> digitValue (digitChar d) = Some (Z.of_N d).
Proof.
  intros H.
  assert (E : In d [0;1;2;3;4;5;6;7;8;9]%N).
  { simpl. lia. }
  simpl in E.
  repeat (destruct E as [<- | E]; [reflexivity |]).
  destruct E.
Qed.

Lemma isDigit_radix10 (c : ascii) :
  isDigit c = true -> isRadixDigit 10 c = true.
Proof.
  unfold isRadixDigit, digitValue. intros H. rewrite H.
  unfold isDigit, inRange in H.
  apply andb_true_iff in H. destruct H as [H1 H2].
  apply N.leb_le in H1. apply N.leb_le in H2.
  apply Z.ltb_lt. lia.
Qed.

Lemma append_assoc (a b c : string) : ((a ++ b) ++ c = a ++ (b ++ c))%string.
Proof. induction a; simpl; congruence. Qed.

Lemma decimalAux_denotes (fuel : nat) :
  forall n acc, (0 < fuel)%nat -> (n < 10 ^ N.of_nat fuel)%N ->
  exists d, decimalAux fuel n acc = (d ++ acc)%string /\ denotes d (Z.of_N n).
Proof.
  induction fuel as [|f IH]; intros n acc Hf Hn.
  - lia.
  - simpl decimalAux.
    assert (Hm : (n mod 10 < 10)%N) by (apply N.mod_lt; lia).
    destruct (n <? 10)%N eqn:E.
    + apply N.ltb_lt in E. rewrite N.mod_small by lia.
      exists (String (digitChar n) EmptyString). split; [reflexivity|].
      now apply denotes_one.
    + apply N.ltb_ge in E.
      destruct (IH (n / 10)%N (String (digitChar (n mod 10)) acc)) as (d & Hd & Hv).
      { destruct f as [|f']; [|lia].
        simpl in Hn. lia. }
      { apply N.Div0.div_lt_upper_bound.
        rewrite Nat2N.inj_succ, N.pow_succ_r' in Hn. lia. }
      exists (d ++ String (digitChar (n mod 10)) EmptyString)%string. split.
      * rewrite Hd, append_assoc. reflexivity.
      * replace (Z.of_N n) with (Z.of_N (n / 10) * 10 + Z.of_N (n mod 10)).
        { now apply denotes_snoc. }
        pose proof (N.div_mod n 10). lia.
Qed.

Lemma append_empty_r (s : string) : (s ++ "")%string = s.
Proof. induction s; simpl; congruence. Qed.

Lemma decimal_denotes (n : N) : denotes (decimal n) (Z.of_N n).
Proof.
  unfold decimal.
  destruct (decimalAux_denotes (S (N.to_nat (N.log2 n))) n EmptyString)
    as (d & Hd & Hv).
  - lia.
  - rewrite Nat2N.inj_succ, N2Nat.id.
    destruct n as [|p]; [reflexivity|].
    apply N.lt_le_trans with (2 ^ N.succ (N.log2 (N.pos p)))%N.
    + apply N.log2_spec. lia.
    + apply N.pow_le_mono_l. lia.
  - rewrite Hd, append_empty_r. exact Hv.
Qed.

Lemma allOf_cons (p : ascii -> bool) (c : ascii) (r : string) :
  allOf p (String c r) = p c && allOf p r.
Proof. unfold allOf. simpl. destruct (p c); reflexivity. Qed.

Lemma allOf_app (p : ascii -> bool) (s t : string) :
  allOf p (s ++ t) = allOf p s && allOf p t.
Proof.
  induction s as [|c r IH]; simpl.
  - reflexivity.
  - rewrite !allOf_cons, IH. apply andb_assoc.
Qed.

Lemma takeWhile_all (p : ascii -> bool) (s : string) :
  allOf p s = true -> takeWhile p s = s.
Proof.
  induction s as [|c r IH]; simpl; [reflexivity|].
  rewrite allOf_cons. intros H. apply andb_true_iff in H.
  destruct H as [Hc Hr]. rewrite Hc, IH by assumption. reflexivity.
Qed.

Lemma allOf_impl (p q : ascii -> bool) (s : string) :
  (forall c, p c = true -> q c = true) -> allOf p s = true -> allOf q s = true.
Proof.
  intros Hpq. induction s as [|c r IH]; [reflexivity|].
  rewrite !allOf_cons. intros H. apply andb_true_iff in H.
  destruct H as [Hc Hr]. now rewrite (Hpq _ Hc), IH.
Qed.

Lemma length_append (s t : string) :
  String.length (s ++ t) = (String.length s + String.length t)%nat.
Proof. induction s; simpl; congruence. Qed.

Lemma denotes_allDigits (s : string) (v : Z) :
  denotes s v -> allOf isDigit s = true.
Proof.
  induction 1 as [d Hd | s v d Hs IH Hd].
  - rewrite allOf_cons, digitChar_isDigit by assumption. reflexivity.
  - rewrite allOf_app, IH, allOf_cons, digitChar_isDigit by assumption.
    reflexivity.
Qed.

Lemma denotes_nonempty (s : string) (v : Z) : denotes s v -> isEmpty s = false.
Proof. induction 1; [reflexivity|]. destruct s; [discriminate | reflexivity]. Qed.

Lemma denotes_nonneg (s : string) (v : Z) : denotes s v -> 0 <= v.
Proof. induction 1; lia. Qed.

Lemma denotes_value (s : string) (v : Z) :
  denotes s v ->
  forall t acc,
    digitsValue 10 (s ++ t) acc
    = digitsValue 10 t (acc * 10 ^ Z.of_nat (String.length s) + v).
Proof.
  induction 1 as [d Hd | s v d Hs IH Hd]; intros t acc.
  - simpl. rewrite digitChar_value by assumption. f_equal.
  - rewrite append_assoc, IH. simpl.
    rewrite digitChar_value by assumption. f_equal.
    rewrite length_append. simpl String.length.
    rewrite Nat2Z.inj_add, Z.pow_add_r by lia. simpl Z.of_nat. lia.
Qed.

Lemma denotes_digitsValue (s : string) (v : Z) :
  denotes s v -> digitsValue 10 s 0 = v.
Proof.
  intros H. rewrite <- (append_empty_r s), (denotes_value s v H). reflexivity.
Qed.

Lemma isDigit_code (c : ascii) :
  isDigit c = true -> (48 <= code c <= 57)%N.
Proof.
  unfold isDigit, inRange. intros H. apply andb_true_iff in H.
  destruct H as [H1 H2]. apply N.leb_le in H1. apply N.leb_le in H2. lia.
Qed.

Lemma isDigit_not_space (c : ascii) : isDigit c = true -> isSpace c = false.
Proof.
  intros H. apply isDigit_code in H. unfold isSpace, inRange.
  destruct (9 <=? code c)%N eqn:E1, (code c <=? 13)%N eqn:E2,
    (code c =? 32)%N eqn:E3, (code c =? 160)%N eqn:E4; simpl; try reflexivity;
    try apply N.leb_le in E2; try apply N.eqb_eq in E3;
    try apply N.eqb_eq in E4; lia.
Qed.

Lemma isDigit_headIs (c : ascii) (s : string) :
  isDigit c = false -> allOf isDigit s = true -> headIs c s = false.
Proof.
  destruct s as [|d r]; [reflexivity|]. simpl. rewrite allOf_cons.
  intros Hc H. apply andb_true_iff in H. destruct H as [Hd _].
  destruct (Ascii.eqb_spec c d) as [->|]; [congruence | reflexivity].
Qed.

Lemma allOf_drop1 (p : ascii -> bool) (s : string) :
  allOf p s = true -> allOf p (drop 1 s) = true.
Proof.
  destruct s as [|c r]; [intros; reflexivity|]. rewrite allOf_cons. simpl.
  intros H. apply andb_true_iff in H. tauto.
Qed.

Lemma parseMagnitude_digits (s : string) :
  allOf isDigit s = true -> isEmpty s = false ->
  parseMagnitude s = Some (digitsValue 10 s 0).
Proof.
  intros Hd Hne. unfold parseMagnitude, isHexPrefix.
  rewrite (isDigit_headIs "x" (drop 1 s)), (isDigit_headIs "X" (drop 1 s))
    by (reflexivity || now apply allOf_drop1).
  rewrite andb_false_r.
  rewrite takeWhile_all by (eapply allOf_impl; [apply isDigit_radix10 | exact Hd]).
  now rewrite Hne.
Qed.

(** [parseInt] on a run of decimal digits. *)
Lemma parseInt_digits (s : string) :
  allOf isDigit s = true -> isEmpty s = false ->
  parseInt s = Int (digitsValue 10 s 0).
Proof.
  intros Hd Hne. unfold parseInt, trimStart.
  replace (dropWhile isSpace s) with s.
  2:{ destruct s as [|c r]; [reflexivity|]. simpl.
      rewrite allOf_cons in Hd. apply andb_true_iff in Hd.
      now rewrite (isDigit_not_space c) by tauto. }
  rewrite !(isDigit_headIs _ s) by (reflexivity || assumption). simpl orb.
  now rewrite parseMagnitude_digits.
Qed.

Lemma parseInt_minus_digits (s : string) :
  allOf isDigit s = true -> isEmpty s = false ->
  parseInt (String "-" s) = Int (- digitsValue 10 s 0).
Proof.
  intros Hd Hne. unfold parseInt, trimStart.
  change (dropWhile isSpace (String "-" s)) with (String "-" s).
  change (headIs "-" (String "-" s)) with true. simpl orb.
  change (drop 1 (String "-" s)) with s.
  now rewrite parseMagnitude_digits.
Qed.

Lemma parseInt_decimal (n : N) : parseInt (decimal n) = Int (Z.of_N n).
Proof.
  pose proof (decimal_denotes n) as H.
  rewrite parseInt_digits.
  - now rewrite (denotes_digitsValue _ _ H).
  - eapply denotes_allDigits; eassumption.
  - eapply denotes_nonempty; eassumption.
Qed.

(** Reading back what [String] printed, in the range of the plain
    decimal form. *)
Lemma parseInt_numberToString (z : Z) :
  Z.abs z < 10 ^ 21 -> parseInt (numberToString (Int z)) = Int z.
Proof.
  intros Hz. unfold numberToString, magnitudeToString.
  destruct (z <? 0) eqn:E.
  - apply Z.ltb_lt in E.
    replace (Z.to_N (- z) <? 10 ^ 21)%N with true
      by (symmetry; apply N.ltb_lt; lia).
    pose proof (decimal_denotes (Z.to_N (- z))) as H.
    rewrite parseInt_minus_digits.
    + rewrite (denotes_digitsValue _ _ H). f_equal. lia.
    + eapply denotes_allDigits; eassumption.
    + eapply denotes_nonempty; eassumption.
  - apply Z.ltb_ge in E.
    replace (Z.to_N z <? 10 ^ 21)%N with true
      by (symmetry; apply N.ltb_lt; lia).
    rewrite parseInt_decimal. f_equal. lia.
Qed.

(** ** Texts and their pieces *)


Lemma reverseOnto_append (s acc : string) :
  reverseOnto s acc = (reverse s ++ acc)%string.
Proof.
  unfold reverse. revert acc.
  induction s as [|c r IH]; intros acc; [reflexivity|]. simpl.
  rewrite (IH (String c acc)), (IH (String c EmptyString)), append_assoc.
  reflexivity.
Qed.

Lemma reverse_cons (c : ascii) (s : string) :
  reverse (String c s) = (reverse s ++ String c EmptyString)%string.
Proof. unfold reverse at 1. simpl. apply reverseOnto_append. Qed.

Lemma reverse_snoc (s : string) (c : ascii) :
  reverse (s ++ String c EmptyString) = String c (reverse s).
Proof.
  induction s as [|d r IH]; [reflexivity|].
  change (String d r ++ String c "")%string
    with (String d (r ++ String c "")%string).
  now rewrite !reverse_cons, IH.
Qed.

Lemma reverse_involutive (s : string) : reverse (reverse s) = s.
Proof.
  induction s as [|c r IH]; [reflexivity|].
  now rewrite reverse_cons, reverse_snoc, IH.
Qed.

Lemma takeWhile_dropWhile (p : ascii -> bool) (s : string) :
  (takeWhile p s ++ dropWhile p s)%string = s.
Proof.
  induction s as [|c r IH]; [reflexivity|]. simpl.
  destruct (p c); [simpl; now rewrite IH | reflexivity].
Qed.

Lemma allOf_takeWhile (p : ascii -> bool) (s : string) :
  allOf p (takeWhile p s) = true.
Proof.
  induction s as [|c r IH]; [reflexivity|]. simpl.
  destruct (p c) eqn:E; [|reflexivity]. now rewrite allOf_cons, E.
Qed.

Lemma reverse_app (a b : string) :
  reverse (a ++ b) = (reverse b ++ reverse a)%string.
Proof.
  induction a as [|c r IH]; [now rewrite append_empty_r|].
  change (String c r ++ b)%string with (String c (r ++ b)%string).
  now rewrite !reverse_cons, IH, append_assoc.
Qed.

(** ** Pieces of a text *)

Lemma pieceOf_refl (s : string) : pieceOf s s.
Proof. exists EmptyString, EmptyString. now rewrite append_empty_r. Qed.

Lemma pieceOf_trans (t u s : string) :
  pieceOf t u -> pieceOf u s -> pieceOf t s.
Proof.
  intros (a & b & ->) (a' & b' & ->).
  exists (a' ++ a)%string, (b ++ b')%string.
  now rewrite !append_assoc.
Qed.

Lemma pieceOf_prefix (t r : string) : pieceOf t (t ++ r).
Proof. now exists EmptyString, r. Qed.

Lemma pieceOf_suffix (a t : string) : pieceOf t (a ++ t).
Proof. exists a, EmptyString. now rewrite append_empty_r. Qed.

Lemma pieceOf_cons (c : ascii) (t s : string) :
  pieceOf t s -> pieceOf t (String c s).
Proof. intros (a & b & ->). now exists (String c a), b. Qed.

Lemma take_drop (n : nat) (s : string) : (take n s ++ drop n s)%string = s.
Proof.
  revert s. induction n as [|k IH]; intros [|c r]; try reflexivity.
  simpl. now rewrite IH.
Qed.

Lemma pieceOf_take (n : nat) (s : string) : pieceOf (take n s) s.
Proof. rewrite <- (take_drop n s) at 2. apply pieceOf_prefix. Qed.

Lemma pieceOf_drop (n : nat) (s : string) : pieceOf (drop n s) s.
Proof. rewrite <- (take_drop n s) at 2. apply pieceOf_suffix. Qed.

Lemma pieceOf_takeWhile (p : ascii -> bool) (s : string) :
  pieceOf (takeWhile p s) s.
Proof. rewrite <- (takeWhile_dropWhile p s) at 2. apply pieceOf_prefix. Qed.

Lemma pieceOf_dropWhile (p : ascii -> bool) (s : string) :
  pieceOf (dropWhile p s) s.
Proof. rewrite <- (takeWhile_dropWhile p s) at 2. apply pieceOf_suffix. Qed.

Lemma pieceOf_substring (a b : nat) (s : string) : pieceOf (substring a b s) s.
Proof.
  unfold substring.
  eapply pieceOf_trans; [apply pieceOf_take | apply pieceOf_drop].
Qed.

Lemma pieceOf_substringZ (a b : Z) (s : string) : pieceOf (substringZ a b s) s.
Proof. apply pieceOf_substring. Qed.

Lemma pieceOf_slice (s : string) : pieceOf (slice_1_m1 s) s.
Proof.
  unfold slice_1_m1.
  eapply pieceOf_trans; [apply pieceOf_take | apply pieceOf_drop].
Qed.

Lemma pieceOf_trimEnd (s : string) : pieceOf (trimEnd s) s.
Proof.
  unfold trimEnd.
  rewrite <- (reverse_involutive s) at 2.
  rewrite <- (takeWhile_dropWhile isSpace (reverse s)) at 2.
  rewrite reverse_app. apply pieceOf_prefix.
Qed.

Lemma pieceOf_trim (s : string) : pieceOf (trim s) s.
Proof.
  unfold trim, trimStart.
  eapply pieceOf_trans; [apply pieceOf_trimEnd | apply pieceOf_dropWhile].
Qed.

Lemma pieceOf_split (c : ascii) (s t : string) :
  In t (split c s) -> pieceOf t s.
Proof.
  revert t. induction s as [|d r IH]; intros t Hin.
  - destruct Hin as [<-|[]]. apply pieceOf_refl.
  - cbn [split] in Hin. destruct (Ascii.eqb c d).
    + destruct Hin as [<-|Hin].
      * now exists EmptyString, (String d r).
      * apply pieceOf_cons. now apply IH.
    + destruct (split c r) as [|h tl] eqn:E.
      * destruct Hin as [<-|[]]. now exists EmptyString, r.
      * destruct Hin as [<-|Hin].
        -- destruct (IH h (or_introl eq_refl)) as (a & b & Hr).
           (* h is the first piece of r: it is a prefix *)
           clear IH.
           assert (Hpre : exists b', r = (h ++ b')%string).
           { clear Hr a b. revert h tl E.
             induction r as [|e r' IHr]; intros h tl E.
             - injection E as <- <-. now exists EmptyString.
             - cbn [split] in E. destruct (Ascii.eqb c e).
               + injection E as <- <-. now exists (String e r').
               + destruct (split c r') as [|h' tl'] eqn:E'.
                 * injection E as <- <-. now exists r'.
                 * injection E as <- <-.
                   destruct (IHr h' tl' eq_refl) as (b' & ->).
                   now exists b'. }
           destruct Hpre as (b' & ->).
           now exists EmptyString, b'.
        -- apply pieceOf_cons. apply IH. now right.
Qed.

(** The pieces of [splitStar]. *)
Lemma pieceOf_splitStar (token group repeat : string) :
  splitStar token = (group, Some repeat) ->
  pieceOf group token /\ pieceOf repeat token.
Proof.
  unfold splitStar. intros E.
  destruct (split "*" token) as [|a [|b l]] eqn:Es; try discriminate.
  injection E as <- <-.
  split; apply (pieceOf_split "*"); rewrite Es; simpl; auto.
Qed.

Lemma pieceOf_splitStar_fst (token : string) :
  pieceOf (fst (splitStar token)) token.
Proof.
  unfold splitStar.
  destruct (split "*" token) as [|a [|b l]] eqn:Es; cbn [fst].
  - now exists EmptyString, token.
  - apply (pieceOf_split "*"). rewrite Es. now left.
  - apply (pieceOf_split "*"). rewrite Es. now left.
Qed.

(** *** The tokens are pieces of the pattern *)

Lemma lazyToClose_prefix (s t : string) :
  lazyToClose s = Some t -> exists r, s = (t ++ r)%string.
Proof.
  revert t. induction s as [|c r IH]; intros t; [discriminate|].
  cbn [lazyToClose]. destruct (Ascii.eqb_spec c "]") as [->|_].
  - intros [= <-]. now exists r.
  - destruct (isLineTerminator c); [discriminate|].
    destruct (lazyToClose r) as [t'|]; [|discriminate].
    intros [= <-]. destruct (IH t' eq_refl) as (r' & ->). now exists r'.
Qed.

Lemma lazyToCloseStar_prefix (s t : string) :
  lazyToCloseStar s = Some t -> exists r, s = (t ++ r)%string.
Proof.
  revert t. induction s as [|c r IH]; intros t; [discriminate|].
  cbn [lazyToCloseStar]. destruct (startsCloseStarDigit (String c r)) eqn:E.
  - intros [= <-].
    destruct r as [|c2 [|c3 r3]]; try discriminate.
    cbn [startsCloseStarDigit] in E.
    apply andb_true_iff in E. destruct E as [E E3].
    apply andb_true_iff in E. destruct E as [E1 E2].
    apply Ascii.eqb_eq in E1, E2. subst c c2.
    cbn [drop]. exists (dropWhile isDigit (String c3 r3)).
    cbn [append]. do 2 f_equal. symmetry. apply takeWhile_dropWhile.
  - destruct (isLineTerminator c); [discriminate|].
    destruct (lazyToCloseStar r) as [t'|]; [|discriminate].
    intros [= <-]. destruct (IH t' eq_refl) as (r' & ->). now exists r'.
Qed.

Lemma matchAt_prefix (s t : string) :
  matchAt s = Some t -> exists r, s = (t ++ r)%string.
Proof.
  unfold matchAt.
  destruct (matchCall s) as [t1|] eqn:E1.
  { intros [= <-]. unfold matchCall in E1.
    destruct (isEmpty (takeWhile isWord s)); [discriminate|].
    destruct (dropWhile isSpace (dropWhile isWord s)) as [|c r3] eqn:E3;
      [discriminate|].
    destruct (Ascii.eqb c "["); [|discriminate].
    destruct (lazyToClose r3) as [t'|] eqn:E4; [|discriminate].
    injection E1 as <-.
    destruct (lazyToClose_prefix _ _ E4) as (r' & Hr3).
    exists r'.
    rewrite <- (takeWhile_dropWhile isWord s) at 1.
    rewrite <- (takeWhile_dropWhile isSpace (dropWhile isWord s)) at 1.
    rewrite E3, Hr3. rewrite !append_assoc. reflexivity. }
  destruct (matchGroupRepeat s) as [t2|] eqn:E2.
  { intros [= <-]. unfold matchGroupRepeat in E2.
    destruct s as [|c r]; [discriminate|].
    destruct (Ascii.eqb c "["); [|discriminate].
    destruct (lazyToCloseStar r) as [t'|] eqn:E4; [|discriminate].
    injection E2 as <-.
    destruct (lazyToCloseStar_prefix _ _ E4) as (r' & ->). now exists r'. }
  destruct (matchGroup s) as [t3|] eqn:E3.
  { intros [= <-]. unfold matchGroup in E3.
    destruct s as [|c r]; [discriminate|].
    destruct (Ascii.eqb c "["); [|discriminate].
    destruct (lazyToClose r) as [t'|] eqn:E4; [|discriminate].
    injection E3 as <-.
    destruct (lazyToClose_prefix _ _ E4) as (r' & ->). now exists r'. }
  unfold matchWord.
  destruct (isEmpty _); [discriminate|].
  intros [= <-]. eexists. symmetry. apply takeWhile_dropWhile.
Qed.

Lemma pieceOf_scan (s : string) :
  forall skip token, In token (scan skip s) -> pieceOf token s.
Proof.
  induction s as [|c r IH]; intros skip token Hin; [destruct Hin|].
  cbn [scan] in Hin. destruct skip as [|k].
  - destruct (matchAt (String c r)) as [t|] eqn:E.
    + destruct Hin as [<-|Hin].
      * destruct (matchAt_prefix _ _ E) as (r' & ->). apply pieceOf_prefix.
      * apply pieceOf_cons. eapply IH; eassumption.
    + apply pieceOf_cons. eapply IH; eassumption.
  - apply pieceOf_cons. eapply IH; eassumption.
Qed.

Lemma pieceOf_matchTokens (pattern token : string) :
  In token (matchTokens pattern) -> pieceOf token pattern.
Proof. apply pieceOf_scan. Qed.

(** ** Runs of hexadecimal digits *)

Lemma shortRuns_le (k : nat) (s : string) :
  forall run run', (run' <= run)%nat ->
    shortRuns k run s = true -> shortRuns k run' s = true.
Proof.
  induction s as [|c r IH]; intros run run' Hle; [reflexivity|].
  cbn [shortRuns]. destruct (isRadixDigit 16 c); [|auto].
  intros H. apply andb_true_iff in H. destruct H as [H1 H2].
  apply andb_true_iff. split.
  - apply Nat.ltb_lt in H1. apply Nat.ltb_lt. lia.
  - apply (IH (S run)); [lia | assumption].
Qed.

Lemma shortRuns_app_l (k : nat) (a b : string) :
  forall run, shortRuns k run (a ++ b) = true -> shortRuns k run a = true.
Proof.
  induction a as [|c r IH]; intros run; [reflexivity|].
  cbn [append shortRuns]. destruct (isRadixDigit 16 c); [|apply IH].
  intros H. apply andb_true_iff in H. destruct H as [H1 H2].
  rewrite H1. now apply IH.
Qed.

Lemma shortRuns_app_r (k : nat) (a b : string) :
  forall run, shortRuns k run (a ++ b) = true -> shortRuns k 0 b = true.
Proof.
  induction a as [|c r IH]; intros run.
  - apply shortRuns_le. lia.
  - cbn [append shortRuns]. destruct (isRadixDigit 16 c); [|apply IH].
    intros H. apply andb_true_iff in H. destruct H as [_ H2].
    now apply (IH (S run)).
Qed.

Lemma shortRuns_piece (k : nat) (t s : string) :
  pieceOf t s -> shortRuns k 0 s = true -> shortRuns k 0 t = true.
Proof.
  intros (a & b & ->) H.
  apply shortRuns_app_r in H. now apply shortRuns_app_l in H.
Qed.

Lemma countsAreSmall_piece (t s : string) :
  pieceOf t s -> countsAreSmall s = true -> countsAreSmall t = true.
Proof. apply shortRuns_piece. Qed.

(** A text of hexadecimal digits only is one run. *)
Lemma shortRuns_length (k : nat) (s : string) :
  forall run,
    allOf (isRadixDigit 16) s = true -> shortRuns k run s = true ->
    (run + String.length s <= k)%nat \/ s = EmptyString.
Proof.
  induction s as [|c r IH]; intros run Hall H; [now right|]. left.
  rewrite allOf_cons in Hall. apply andb_true_iff in Hall.
  destruct Hall as [Hc Hr]. cbn [shortRuns] in H. rewrite Hc in H.
  apply andb_true_iff in H. destruct H as [H1 H2].
  apply Nat.ltb_lt in H1.
  destruct (IH (S run) Hr H2) as [Hl | ->]; simpl; lia.
Qed.

Lemma isRadixDigit_16 (radix : Z) (c : ascii) :
  radix <= 16 -> isRadixDigit radix c = true -> isRadixDigit 16 c = true.
Proof.
  unfold isRadixDigit. intros Hr. destruct (digitValue c); [|discriminate].
  intros H. apply Z.ltb_lt in H. apply Z.ltb_lt. lia.
Qed.

Lemma digitValue_nonneg (c : ascii) (v : Z) : digitValue c = Some v -> 0 <= v.
Proof.
  unfold digitValue.
  destruct (isDigit c) eqn:E1.
  { unfold isDigit, inRange in E1. apply andb_true_iff in E1.
    destruct E1 as [E1 _]. apply N.leb_le in E1. intros [= <-]. lia. }
  destruct (inRange 97 102 c) eqn:E2.
  { unfold inRange in E2. apply andb_true_iff in E2.
    destruct E2 as [E2 _]. apply N.leb_le in E2. intros [= <-]. lia. }
  destruct (inRange 65 70 c) eqn:E3; [|discriminate].
  unfold inRange in E3. apply andb_true_iff in E3.
  destruct E3 as [E3 _]. apply N.leb_le in E3. intros [= <-]. lia.
Qed.

(** The value of a run of digits is below the radix to the power of its
    length. *)
Lemma digitsValue_bound (radix : Z) (s : string) :
  0 < radix ->
  forall acc,
    0 <= acc -> allOf (isRadixDigit radix) s = true ->
    0 <= digitsValue radix s acc
         < (acc + 1) * radix ^ Z.of_nat (String.length s).
Proof.
  intros Hr. induction s as [|c r IH]; intros acc Hacc Hall.
  - simpl. lia.
  - rewrite allOf_cons in Hall. apply andb_true_iff in Hall.
    destruct Hall as [Hc Hall]. cbn [digitsValue].
    unfold isRadixDigit in Hc.
    destruct (digitValue c) as [v|] eqn:Ev; [|discriminate].
    apply Z.ltb_lt in Hc. pose proof (digitValue_nonneg c v Ev) as Hv.
    assert (Hacc' : 0 <= acc * radix + v).
    { apply Z.add_nonneg_nonneg; [|assumption].
      apply Z.mul_nonneg_nonneg; lia. }
    destruct (IH (acc * radix + v) Hacc' Hall) as [H1 H2].
    split; [assumption|].
    replace (Z.of_nat (String.length (String c r)))
      with (1 + Z.of_nat (String.length r))
      by (cbn [String.length]; lia).
    rewrite Z.pow_add_r by lia. rewrite Z.pow_1_r.
    set (P := radix ^ Z.of_nat (String.length r)) in *.
    assert (HP : 0 < P) by (apply Z.pow_pos_nonneg; lia).
    eapply Z.lt_le_trans; [exact H2|].
    replace ((acc + 1) * (radix * P)) with ((acc * radix + radix) * P) by ring.
    apply Z.mul_le_mono_nonneg_r; lia.
Qed.

(** What [parseInt] reads in a text whose runs of hexadecimal digits are
    short is below 2^52 in magnitude. *)
Lemma parseMagnitude_small (s : string) (v : Z) :
  countsAreSmall s = true -> parseMagnitude s = Some v -> 0 <= v < 2 ^ 52.
Proof.
  intros Hs. unfold parseMagnitude.
  set (radix := if isHexPrefix s then 16 else 10).
  set (body := if isHexPrefix s then drop 2 s else s).
  set (digits := takeWhile (isRadixDigit radix) body).
  destruct (isEmpty digits) eqn:Ee; [discriminate|]. intros [= <-].
  assert (Hradix : 0 < radix <= 16) by (unfold radix; destruct (isHexPrefix s); lia).
  assert (Hall : allOf (isRadixDigit radix) digits = true)
    by apply allOf_takeWhile.
  assert (Hpiece : pieceOf digits s).
  { eapply pieceOf_trans; [apply pieceOf_takeWhile|].
    unfold body. destruct (isHexPrefix s);
      [apply pieceOf_drop | apply pieceOf_refl]. }
  assert (Hlen : (String.length digits <= 13)%nat).
  { destruct (shortRuns_length 13 digits 0) as [H | H].
    - eapply allOf_impl; [|exact Hall].
      intros c. apply isRadixDigit_16. lia.
    - eapply countsAreSmall_piece; eassumption.
    - lia.
    - rewrite H. simpl. lia. }
  destruct (digitsValue_bound radix digits (proj1 Hradix) 0) as [H1 H2];
    [lia | assumption |].
  split; [assumption|].
  eapply Z.lt_le_trans; [exact H2|]. rewrite Z.mul_1_l.
  apply Z.le_trans with (16 ^ Z.of_nat (String.length digits)).
  - apply Z.pow_le_mono_l. lia.
  - change (2 ^ 52) with (16 ^ 13).
    apply Z.pow_le_mono_r; lia.
Qed.

Lemma parseInt_small (s : string) :
  countsAreSmall s = true ->
  match parseInt s with
  | Int z => Z.abs z < 2 ^ 52
  | NaN => True
  end.
Proof.
  intros Hs. unfold parseInt.
  set (s1 := trimStart s).
  set (s2 := if headIs "-" s1 || headIs "+" s1 then drop 1 s1 else s1).
  destruct (parseMagnitude s2) as [v|] eqn:E; [|exact I].
  assert (Hp : pieceOf s2 s).
  { unfold s2. eapply pieceOf_trans; [|apply pieceOf_dropWhile].
    destruct (_ || _); [apply pieceOf_drop | apply pieceOf_refl]. }
  pose proof (parseMagnitude_small s2 v
                (countsAreSmall_piece _ _ Hp Hs) E) as Hv.
  destruct (headIs "-" s1); lia.
Qed.

(** ** The rounding of a double *)

(** The double nearest to an integer up to 2^53 is the integer. *)
Lemma toDouble_exact (z : Z) : Z.abs z <= 2 ^ 53 -> toDouble z = z.
Proof.
  intros H. unfold toDouble.
  now replace (Z.abs z <=? 2 ^ 53) with true by (symmetry; apply Z.leb_le; lia).
Qed.

(** A magnitude of 53 bits at most, scaled by a power of two, is a
    double. *)
Lemma toDouble_scaled (s m e : Z) :
  s = 1 \/ s = -1 -> 2 ^ 52 <= m <= 2 ^ 53 -> 0 <= e ->
  toDouble (s * (m * 2 ^ e)) = s * (m * 2 ^ e).
Proof.
  intros Hs Hm He. unfold toDouble.
  assert (Hp : 0 < 2 ^ e) by (apply Z.pow_pos_nonneg; lia).
  assert (Ha : Z.abs (s * (m * 2 ^ e)) = m * 2 ^ e).
  { assert (0 < m) by (change (2 ^ 52) with 4503599627370496 in Hm; lia).
    destruct Hs as [-> | ->]; nia. }
  rewrite Ha.
  destruct (m * 2 ^ e <=? 2 ^ 53) eqn:E; [reflexivity|].
  apply Z.leb_gt in E.
  assert (Hsgn : Z.sgn (s * (m * 2 ^ e)) = s).
  { assert (0 < m * 2 ^ e) by (change (2 ^ 52) with 4503599627370496 in Hm; nia).
    destruct Hs as [-> | ->].
    - rewrite Z.mul_1_l. now apply Z.sgn_pos.
    - apply Z.sgn_neg. lia. }
  rewrite Hsgn.
  destruct (Z.eq_dec m (2 ^ 53)) as [-> | Hne].
  - assert (L : Z.log2 (2 ^ 53 * 2 ^ e) = 53 + e).
    { rewrite <- Z.pow_add_r by lia. apply Z.log2_pow2. lia. }
    rewrite L.
    replace (53 + e - 52) with (e + 1) by lia.
    replace (2 ^ 53 * 2 ^ e) with (2 ^ 52 * 2 ^ (e + 1))
      by (rewrite <- !Z.pow_add_r by lia; f_equal; lia).
    assert (Hp' : 0 < 2 ^ (e + 1)) by (apply Z.pow_pos_nonneg; lia).
    rewrite Z.div_mul by lia. rewrite Z.mod_mul by lia.
    replace (e + 1 - 1) with e by lia.
    replace (2 ^ e <? 0) with false by (symmetry; apply Z.ltb_ge; lia).
    replace (2 ^ e =? 0) with false by (symmetry; apply Z.eqb_neq; lia).
    reflexivity.
  - assert (L : Z.log2 (m * 2 ^ e) = 52 + e).
    { apply Z.log2_unique; [lia|].
      replace (2 ^ Z.succ (52 + e)) with (2 ^ 53 * 2 ^ e)
        by (rewrite <- Z.pow_add_r by lia; f_equal; lia).
      rewrite Z.pow_add_r by lia.
      split.
      - apply Z.mul_le_mono_nonneg_r; lia.
      - apply Z.mul_lt_mono_pos_r; lia. }
    rewrite L.
    replace (52 + e - 52) with e by lia.
    rewrite Z.div_mul by lia. rewrite Z.mod_mul by lia.
    assert (0 < e).
    { destruct (Z.eq_dec e 0) as [-> | ]; [|lia].
      change (2 ^ 0) with 1 in E. lia. }
    assert (0 < 2 ^ (e - 1)) by (apply Z.pow_pos_nonneg; lia).
    replace (2 ^ (e - 1) <? 0) with false by (symmetry; apply Z.ltb_ge; lia).
    replace (2 ^ (e - 1) =? 0) with false by (symmetry; apply Z.eqb_neq; lia).
    reflexivity.
Qed.

(** The double nearest to an integer beyond 2^53 has a magnitude of 53
    bits, scaled. *)
Lemma toDouble_shape (z : Z) :
  2 ^ 53 < Z.abs z ->
  exists s m e,
    (s = 1 \/ s = -1) /\ 2 ^ 52 <= m <= 2 ^ 53 /\ 0 <= e
    /\ toDouble z = s * (m * 2 ^ e).
Proof.
  intros Hz. unfold toDouble.
  replace (Z.abs z <=? 2 ^ 53) with false by (symmetry; apply Z.leb_gt; lia).
  set (a := Z.abs z) in *.
  assert (Ha : 0 < a) by (change (2 ^ 53) with 9007199254740992 in Hz; lia).
  destruct (Z.log2_spec a Ha) as [Hlo Hhi].
  assert (Hl : 53 <= Z.log2 a).
  { apply Z.log2_le_pow2; [lia|]. lia. }
  set (e := Z.log2 a - 52) in *.
  assert (He : 0 <= e) by lia.
  assert (Hp : 0 < 2 ^ e) by (apply Z.pow_pos_nonneg; lia).
  assert (Hq : 2 ^ 52 <= a / 2 ^ e < 2 ^ 53).
  { split.
    - apply Z.div_le_lower_bound; [lia|].
      rewrite Z.mul_comm, <- Z.pow_add_r by lia.
      now replace (52 + e) with (Z.log2 a) by lia.
    - apply Z.div_lt_upper_bound; [lia|].
      rewrite <- Z.pow_add_r by lia.
      now replace (e + 53) with (Z.succ (Z.log2 a)) by lia. }
  exists (Z.sgn z).
  exists (if (2 ^ (e - 1) <? a mod 2 ^ e)
             || (2 ^ (e - 1) =? a mod 2 ^ e) && Z.odd (a / 2 ^ e)
          then a / 2 ^ e + 1 else a / 2 ^ e), e.
  split.
  { destruct (Z.sgn_spec z) as [[_ ->] | [[E _] | [_ ->]]]; auto.
    subst z. simpl in Ha. lia. }
  split; [|split; [assumption | reflexivity]].
  destruct (_ || _); lia.
Qed.

Lemma toDouble_idempotent (z : Z) : toDouble (toDouble z) = toDouble z.
Proof.
  destruct (Z.le_gt_cases (Z.abs z) (2 ^ 53)) as [H | H].
  - rewrite (toDouble_exact z H). now apply toDouble_exact.
  - destruct (toDouble_shape z H) as (s & m & e & Hs & Hm & He & ->).
    now apply toDouble_scaled.
Qed.

(** ** normalizePattern *)

Lemma normalizeItem_idempotent (item : value) :
  plainItem item = true ->
  normalizeItem (normalizeItem item) = normalizeItem item.
Proof.
  unfold plainItem, normalizeItem. intros Hsafe.
  destruct (isRestOrAbsent item) eqn:E; [reflexivity|].
  destruct (parseInt (valueToString item)) as [z|] eqn:Ep.
  - change (match parseInt (numberToString (Int (toDouble z))) with
            | NaN => VNum (Int (toDouble z))
            | Int parsed => VNum (Int (toDouble parsed))
            end = VNum (Int (toDouble z))).
    rewrite parseInt_numberToString by (now apply Z.ltb_lt).
    now rewrite toDouble_idempotent.
  - now rewrite E, Ep.
Qed.

(** Beyond 2^53 the number is the nearest double, not the integer of the
    digits. *)
Example normalizePattern_rounds :
  normalizePattern [VStr "9007199254740993"] = [VNum (Int 9007199254740992)]
  /\ normalizePattern [VStr "9007199254740995"]
     = [VNum (Int 9007199254740996)].
Proof. split; reflexivity. Qed.

(** From 10^21 on the second pass changes the result: the number is
    printed in the exponential form and read back as its first digit. *)
Example normalizePattern_twice_large :
  normalizePattern [VStr "1000000000000000000000"]
  = [VNum (Int 1000000000000000000000)]
  /\ normalizePattern [VNum (Int 1000000000000000000000)] = [VNum (Int 1)].
Proof. split; reflexivity. Qed.

(** ** rotate *)

Lemma isDigit_not_lower (c : ascii) : isDigit c = true -> isLower c = false.
Proof.
  intros H. apply isDigit_code in H. unfold isLower, inRange.
  apply andb_false_iff. left. apply N.leb_gt. lia.
Qed.

Lemma takeWhile_lower_digits (s : string) :
  allOf isDigit s = true -> takeWhile isLower s = EmptyString.
Proof.
  destruct s as [|c r]; [reflexivity|]. rewrite allOf_cons. intros H.
  apply andb_true_iff in H. simpl. now rewrite isDigit_not_lower.
Qed.

Lemma dropWhile_lower_digits (s : string) :
  allOf isDigit s = true -> dropWhile isLower s = s.
Proof.
  destruct s as [|c r]; [reflexivity|]. rewrite allOf_cons. intros H.
  apply andb_true_iff in H. simpl. now rewrite isDigit_not_lower.
Qed.

Lemma matchTransform_rotate (digits : string) :
  allOf isDigit digits = true ->
  matchTransform ("rotate" ++ digits) = Some ("rotate", digits).
Proof.
  intros H. unfold matchTransform. simpl.
  rewrite takeWhile_lower_digits, dropWhile_lower_digits, takeWhile_all
    by assumption.
  reflexivity.
Qed.

Lemma transformPattern_rotate (name digits : string) (s : list step) :
  matchTransform name = Some ("rotate", digits) ->
  transformPattern name s
  = let steps := orOne (paramOf digits) in
    let len := Z.of_nat (List.length s) in
    if len <=? 1 then ret s
    else
      let normalizedSteps := Z.to_nat (Z.rem (Z.rem steps len + len) len) in
      ret (skipn normalizedSteps s ++ firstn normalizedSteps s).
Proof. unfold transformPattern. intros ->. reflexivity. Qed.

(** [rotate] by the length of the sequence gives the sequence back. *)
Lemma rotate_by_length (s : list step) (st : State) :
  transformPattern ("rotate" ++ decimal (N.of_nat (List.length s))) s st
  = (Ok s, st).
Proof.
  pose proof (decimal_denotes (N.of_nat (List.length s))) as Hden.
  rewrite (transformPattern_rotate _ (decimal (N.of_nat (List.length s)))).
  2:{ apply matchTransform_rotate. eapply denotes_allDigits; eassumption. }
  unfold paramOf. rewrite (denotes_nonempty _ _ Hden), parseInt_decimal.
  cbv zeta. rewrite nat_N_Z.
  destruct (Z.leb_spec (Z.of_nat (List.length s)) 1) as [Hle|Hgt];
    [reflexivity|].
  unfold orOne.
  replace (Z.of_nat (List.length s) =? 0) with false
    by (symmetry; apply Z.eqb_neq; lia).
  rewrite Z.rem_same by lia. simpl Z.add. rewrite Z.rem_same by lia.
  simpl. now rewrite app_nil_r.
Qed.

Section Effects.
Context {A B : Type}.
Variable d : Z.

Lemma returns_settles (m : M A) : returns d m -> settles d m.
Proof.
  intros H st Hst. destruct (H st Hst) as (a & st' & E & Hd).
  exists (Ok a), st'. repeat split; assumption.
Qed.

Lemma returns_ret (a : A) : returns d (ret a).
Proof. intros st Hst. exists a, st. now split. Qed.

Lemma settles_throw (e : string) : settles d (@throw A e).
Proof.
  intros st Hst. exists (Throw e), st. repeat split; assumption.
Qed.

Lemma moves_bind (d1 d2 : Z) (m : M A) (f : A -> M B) :
  moves d d1 m -> (forall a, moves d1 d2 (f a)) -> moves d d2 (bind m f).
Proof.
  intros Hm Hf st Hst. unfold bind.
  destruct (Hm st Hst) as (a & st1 & -> & H1).
  exact (Hf a st1 H1).
Qed.

Lemma returns_bind (m : M A) (f : A -> M B) :
  returns d m -> (forall a, returns d (f a)) -> returns d (bind m f).
Proof. apply moves_bind. Qed.

Lemma moves_getDepth (d2 : Z) (f : Z -> M B) :
  moves d d2 (f d) -> moves d d2 (bind getDepth f).
Proof.
  intros Hf st Hst. unfold bind, getDepth. rewrite Hst. exact (Hf st Hst).
Qed.

Lemma settles_bind (m : M A) (f : A -> M B) :
  settles d m -> (forall a, settles d (f a)) -> settles d (bind m f).
Proof.
  intros Hm Hf st Hst. unfold bind.
  destruct (Hm st Hst) as (r & st1 & -> & Hr & H1).
  destruct r as [a | e | array | |]; try contradiction.
  - exact (Hf a st1 H1).
  - exists (Throw e), st1. repeat split; assumption.
Qed.

Lemma returns_tryCatch (m : M A) (h : string -> M A) :
  settles d m -> (forall e, returns d (h e)) -> returns d (tryCatch m h).
Proof.
  intros Hm Hh st Hst. unfold tryCatch.
  destruct (Hm st Hst) as (r & st1 & -> & Hr & H1).
  destruct r as [a | e | array | |]; try contradiction.
  - now exists a, st1.
  - exact (Hh e st1 H1).
Qed.

Lemma settles_attempts (m : M A) : settles d m -> attempts d m.
Proof.
  intros H st Hst. destruct (H st Hst) as (r & st' & E & Hr & Hd).
  exists r, st'. repeat split; [assumption | | now right].
  intros ->. exact Hr.
Qed.

Lemma returns_finishes (m : M A) : returns d m -> finishes d m.
Proof.
  intros H st Hst. left. exact (H st Hst).
Qed.

Lemma finishes_attempts (m : M A) : finishes d m -> attempts d m.
Proof.
  intros H st Hst.
  destruct (H st Hst) as [(a & st' & E & Hd) | (st' & E)].
  - exists (Ok a), st'. repeat split; [assumption | discriminate | now right].
  - exists Diverges, st'. repeat split; [assumption | discriminate | now left].
Qed.

Lemma attempts_bind (m : M A) (f : A -> M B) :
  attempts d m -> (forall a, attempts d (f a)) -> attempts d (bind m f).
Proof.
  intros Hm Hf st Hst. unfold bind.
  destruct (Hm st Hst) as (r & st1 & -> & Hr & H1).
  destruct r as [a | e | array | |]; try congruence.
  - destruct H1 as [H1|H1]; [discriminate|]. exact (Hf a st1 H1).
  - destruct H1 as [H1|H1]; [discriminate|].
    exists (Throw e), st1. repeat split; [discriminate | now right].
  - destruct H1 as [H1|H1]; [discriminate|].
    exists (Overflow array), st1. repeat split; [discriminate | now right].
  - exists Diverges, st1. repeat split; [discriminate | now left].
Qed.

Lemma reaches_bind (d1 d2 : Z) (m : M A) (f : A -> M B) :
  reaches d d1 m -> (forall a, reaches d1 d2 (f a)) ->
  reaches d d2 (bind m f).
Proof.
  intros Hm Hf st Hst. unfold bind.
  destruct (Hm st Hst) as [(a & st1 & -> & H1) | (st1 & ->)].
  - exact (Hf a st1 H1).
  - right. now exists st1.
Qed.

Lemma finishes_bind (m : M A) (f : A -> M B) :
  finishes d m -> (forall a, finishes d (f a)) -> finishes d (bind m f).
Proof. apply reaches_bind. Qed.

Lemma moves_reaches (d1 : Z) (m : M A) : moves d d1 m -> reaches d d1 m.
Proof. intros H st Hst. left. exact (H st Hst). Qed.

Lemma reaches_getDepth (d2 : Z) (f : Z -> M B) :
  reaches d d2 (f d) -> reaches d d2 (bind getDepth f).
Proof.
  intros Hf st Hst. unfold bind, getDepth. rewrite Hst. exact (Hf st Hst).
Qed.

Lemma finishes_tryCatch (m : M A) (h : string -> M A) :
  attempts d m -> (forall e, finishes d (h e)) -> finishes d (tryCatch m h).
Proof.
  intros Hm Hh st Hst. unfold tryCatch.
  destruct (Hm st Hst) as (r & st1 & -> & Hr & H1).
  destruct r as [a | e | array | |]; try congruence;
    try (destruct H1 as [H1|H1]; [discriminate|]).
  - left. now exists a, st1.
  - exact (Hh e st1 H1).
  - exact (Hh _ st1 H1).
  - right. now exists st1.
Qed.

Lemma finishes_tryCatchOn (array : list step) (m : M A)
    (h : string -> list step -> M A) :
  attempts d m -> (forall e a, finishes d (h e a)) ->
  finishes d (tryCatchOn array m h).
Proof.
  intros Hm Hh st Hst. unfold tryCatchOn.
  destruct (Hm st Hst) as (r & st1 & -> & Hr & H1).
  destruct r as [a | e | array' | |]; try congruence;
    try (destruct H1 as [H1|H1]; [discriminate|]).
  - left. now exists a, st1.
  - exact (Hh e array st1 H1).
  - exact (Hh _ array' st1 H1).
  - right. now exists st1.
Qed.

End Effects.

Lemma moves_setDepth (d d' : Z) : moves d d' (setDepth d').
Proof. intros st Hst. eexists _, _. split; reflexivity. Qed.

Lemma returns_emit (d : Z) (x : diagnostic) : returns d (emit x).
Proof. intros st Hst. eexists _, _. split; [reflexivity | exact Hst]. Qed.

Lemma returns_random (d : Z) : returns d Math_random.
Proof. intros st Hst. eexists _, _. split; [reflexivity | exact Hst]. Qed.

Lemma returns_if {A : Type} (d : Z) (b : bool) (m1 m2 : M A) :
  returns d m1 -> returns d m2 -> returns d (if b then m1 else m2).
Proof. now destruct b. Qed.

Lemma settles_if {A : Type} (d : Z) (b : bool) (m1 m2 : M A) :
  settles d m1 -> settles d m2 -> settles d (if b then m1 else m2).
Proof. now destruct b. Qed.

Create HintDb effects.
#[local] Hint Resolve returns_ret returns_emit returns_random settles_throw
  : effects.
#[local] Hint Resolve returns_settles | 10 : effects.

Ltac effects :=
  repeat first
    [ match goal with |- forall _, _ => intro end
    | apply returns_ret | apply returns_emit | apply returns_random
    | apply settles_throw
    | apply returns_bind | apply returns_if
    | apply settles_bind | apply settles_if
    | solve [auto with effects] ].

Lemma settles_Array_fill {A : Type} (d : Z) (n : number) (x : A) :
  settles d (Array_fill n x).
Proof.
  unfold Array_fill. destruct n as [z|]; [|apply settles_throw].
  destruct ((0 <=? z) && (z <=? 4294967295)); auto with effects.
Qed.

Lemma settles_flatMapM {A B : Type} (d : Z) (f : A -> M (list B)) (l : list A) :
  (forall x, settles d (f x)) -> settles d (flatMapM f l).
Proof.
  intros Hf. induction l as [|x r IH]; simpl; effects.
Qed.

Lemma returns_mapM {A B : Type} (d : Z) (f : A -> M B) (l : list A) :
  (forall x, returns d (f x)) -> returns d (mapM f l).
Proof.
  intros Hf. induction l as [|x r IH]; simpl; effects.
Qed.

Lemma returns_shuffleFrom (d : Z) (i : nat) :
  forall array, returns d (shuffleFrom i array).
Proof. induction i as [|k IH]; intros array; simpl; effects. Qed.

Lemma settles_requireParam (d : Z) name param pattern k :
  (forall p, settles d (k p)) -> settles d (requireParam name param pattern k).
Proof.
  intros Hk. unfold requireParam. destruct param; [apply Hk|].
  unfold console_error. effects.
Qed.

Lemma settles_transformPattern (d : Z) (name : string) (pattern : list step) :
  settles d (transformPattern name pattern).
Proof.
  unfold transformPattern, console_error.
  destruct (matchTransform name) as [[transform digits]|]; [|effects].
  repeat match goal with
  | |- settles _ (if ?b then _ else _) => apply settles_if
  end;
  try apply settles_requireParam; intros;
  try apply settles_flatMapM; intros;
  try apply settles_Array_fill;
  apply returns_settles;
  try apply returns_shuffleFrom; try apply returns_mapM; effects.
Qed.

(** *** The counting loops *)

Lemma settles_Array_concat (d : Z) (a b : list step) :
  settles d (Array_concat a b).
Proof.
  unfold Array_concat. destruct b; [effects|].
  destruct (fits _); effects.
Qed.

Lemma attempts_overflow {A : Type} (d : Z) (array : list step) :
  attempts d (fun st => (@Overflow A array, st)).
Proof.
  intros st Hst. exists (Overflow array), st.
  repeat split; [discriminate | now right].
Qed.

Lemma attempts_Array_extend (d : Z) (a b : list step) :
  attempts d (Array_extend a b).
Proof.
  unfold Array_extend. destruct b; [apply settles_attempts; effects|].
  destruct (fits _);
    [apply settles_attempts; effects | apply attempts_overflow].
Qed.

Lemma attempts_Array_push (d : Z) (a b : list step) :
  attempts d (Array_push a b).
Proof.
  unfold Array_push. destruct b; [apply settles_attempts; effects|].
  destruct (fits _);
    [apply settles_attempts; effects | apply attempts_overflow].
Qed.

Lemma attempts_forCount {A : Type} (d n : Z) (body : A -> M A) :
  (forall a, attempts d (body a)) ->
  forall turns i a, attempts d (forCount turns i n body a).
Proof.
  intros Hbody. induction turns as [|k IH]; intros i a; cbn [forCount];
    destruct (i <? toDouble n);
    try (apply settles_attempts; effects; fail).
  - intros st Hst. exists Diverges, st.
    repeat split; [discriminate | now left].
  - apply attempts_bind; [apply Hbody | intros a'; apply IH].
Qed.

Lemma attempts_forLoop {A : Type} (d n : Z) (body : A -> M A) (a : A) :
  (forall a, attempts d (body a)) -> attempts d (forLoop n body a).
Proof. intros H. now apply attempts_forCount. Qed.


(** With a count up to 2^53 the loop ends: it returns or its body
    raises. *)
Lemma settles_forCount (d n : Z) (body : list step -> M (list step)) :
  Z.abs n <= 2 ^ 53 ->
  (forall a, settles d (body a)) ->
  forall turns i a,
    0 <= i -> n - i <= Z.of_nat turns ->
    settles d (forCount turns i n body a).
Proof.
  intros Hn Hbody. pose proof (toDouble_exact n Hn) as En.
  change (2 ^ 53) with 9007199254740992 in Hn.
  induction turns as [|k IH]; intros i a Hi Hk; cbn [forCount]; rewrite En;
    destruct (Z.ltb_spec i n) as [Hlt|Hge]; try (effects; fail); try lia.
  apply settles_bind; [apply Hbody|]. intros a'.
  rewrite toDouble_exact
    by (change (2 ^ 53) with 9007199254740992; lia).
  apply IH; lia.
Qed.

Lemma settles_forLoop (d n : Z) (body : list step -> M (list step))
    (a : list step) :
  Z.abs n <= 2 ^ 53 ->
  (forall a, settles d (body a)) -> settles d (forLoop n body a).
Proof.
  intros Hn Hbody. unfold forLoop. apply settles_forCount; try assumption;
    [lia|].
  rewrite toDouble_exact by assumption. lia.
Qed.

Section HandlersSettle.
Variable parseInner : string -> M (list step).
Variable config : Config.
Variable d : Z.
Hypothesis inner_finishes : forall text, finishes d (parseInner text).

Lemma attempts_handleTransformation (token : string) :
  attempts d (handleTransformation parseInner token).
Proof.
  unfold handleTransformation, console_error.
  destruct (_ >=? _); [apply settles_attempts; effects|].
  apply attempts_bind; [apply finishes_attempts, inner_finishes|].
  intros groupPattern. apply settles_attempts, settles_transformPattern.
Qed.

Lemma attempts_handleGroupWithRepeat (token : string) :
  attempts d (handleGroupWithRepeat parseInner token).
Proof.
  unfold handleGroupWithRepeat, console_error.
  destruct (splitStar token) as [group repeat].
  destruct (_ || _); [apply settles_attempts; effects|].
  destruct (badCount _); [apply settles_attempts; effects|].
  apply attempts_bind; [apply finishes_attempts, inner_finishes|].
  intros groupPattern.
  destruct (parseInt (textOf repeat)); [|apply settles_attempts; effects].
  apply attempts_forLoop. intros a.
  apply settles_attempts, settles_Array_concat.
Qed.

Lemma settles_handleDirectRepetition (token : string) :
  settles d (handleDirectRepetition config token).
Proof.
  unfold handleDirectRepetition, console_error.
  destruct (splitStar token) as [value repeat].
  repeat apply settles_if; try apply settles_Array_fill; effects.
Qed.

Lemma finishes_processToken (outputPattern : list step) (token : string) :
  finishes d (processToken parseInner config outputPattern token).
Proof.
  unfold processToken, console_error.
  apply finishes_tryCatch; [|intros; apply returns_finishes; effects].
  repeat match goal with
  | |- attempts _ (if ?b then _ else _) => destruct b
  end; try (apply settles_attempts; effects; fail).
  - apply attempts_bind; [apply attempts_handleTransformation|].
    intros; apply settles_attempts; effects.
  - apply attempts_bind; [apply attempts_handleGroupWithRepeat|].
    intros; apply settles_attempts; effects.
  - apply attempts_bind; [apply finishes_attempts, inner_finishes|].
    intros; apply settles_attempts; effects.
  - apply attempts_bind;
      [apply settles_attempts, settles_handleDirectRepetition|].
    intros; apply settles_attempts; effects.
  - destruct (parseInt token); apply settles_attempts; effects.
Qed.

Lemma finishes_forEachToken (tokens : list string) :
  forall outputPattern,
    finishes d (forEachToken parseInner config tokens outputPattern).
Proof.
  induction tokens as [|token rest IH]; intros outputPattern; simpl.
  - apply returns_finishes. effects.
  - apply finishes_bind; [apply finishes_processToken | exact IH].
Qed.

End HandlersSettle.

(** With fuel for the levels the guard lets through, [parsePatternString]
    raises nothing: it returns a sequence and leaves the counter as it
    found it, or it does not return. *)
Lemma parsePatternString_finishes (config : Config) (fuel : nat) :
  forall d pattern,
    (Z.to_nat (maxRecursionDepth config - d + 1) <= fuel)%nat ->
    finishes d (parsePatternString fuel config pattern).
Proof.
  induction fuel as [|fuel' IH]; intros d pattern Hfuel;
    cbn [parsePatternString]; apply reaches_getDepth;
    destruct (Z.gtb_spec d (maxRecursionDepth config)) as [Hd|Hd];
    unfold console_error; try solve [apply returns_finishes; effects];
    try lia.
  assert (Hinner : forall text,
             finishes (d + 1) (parsePatternString fuel' config text)).
  { intros text. apply IH. lia. }
  assert (Hup : moves d (d + 1) incrementDepth).
  { apply moves_getDepth, moves_setDepth. }
  assert (Hdown : moves (d + 1) d decrementDepth).
  { apply moves_getDepth. replace d with (d + 1 - 1) at 2 by lia.
    apply moves_setDepth. }
  apply (reaches_bind _ (d + 1)); [apply moves_reaches, Hup|]. intros _.
  destruct (matchTokens pattern) as [|token rest].
  - apply moves_reaches.
    apply (moves_bind _ (d + 1)); [effects|]. intros _.
    apply (moves_bind _ _ _ _ _ Hdown). effects.
  - apply (reaches_bind _ (d + 1));
      [apply finishes_forEachToken; exact Hinner|].
    intros outputPattern. apply moves_reaches.
    apply (moves_bind _ _ _ _ _ Hdown). effects.
Qed.

(** [parsePattern] raises nothing, for every input: it returns a sequence
    or it does not return. *)
Lemma parsePattern_finishes (pattern : string) (options : Config) (st : State) :
  (exists seq st', parsePattern pattern options st = (Ok seq, st'))
  \/ (exists st', parsePattern pattern options st = (Diverges, st')).
Proof.
  unfold parsePattern. destruct (isEmpty pattern).
  - left. eexists _, _. reflexivity.
  - assert (H : reaches (currentDepth st) 0
                  ((if debug options
                    then console_log ("Parsing pattern: " ++ pattern)
                    else ret tt) ;;;
                   setDepth 0 ;;;
                   parsePatternString (fuelFor options) options pattern)).
    { unfold console_log.
      apply (reaches_bind _ (currentDepth st));
        [apply returns_finishes; effects|]. intros _.
      apply (reaches_bind _ 0); [apply moves_reaches, moves_setDepth|].
      intros _.
      apply parsePatternString_finishes. unfold fuelFor.
      replace (maxRecursionDepth options - 0 + 1)
        with (maxRecursionDepth options + 1) by lia.
      apply Nat.le_refl. }
    destruct (H st eq_refl) as [(seq & st' & E & _) | (st' & E)].
    + left. now exists seq, st'.
    + right. now exists st'.
Qed.

(** *** A loop whose body changes nothing *)

Lemma bind_Ok {A B : Type} (m : M A) (f : A -> M B) st a st1 :
  m st = (Ok a, st1) -> bind m f st = f a st1.
Proof. intros E. unfold bind. now rewrite E. Qed.

(** A counting loop whose body leaves [a] as it is returns [a] when the
    counter reaches the bound, and does not return when the counter stops
    at 2^53 below it. *)
Lemma forCount_idle {A : Type} (n : Z) (body : A -> M A) (a : A) :
  (forall st, body a st = (Ok a, st)) ->
  forall turns i st,
    0 <= i -> i + Z.of_nat turns <= 2 ^ 53 ->
    forCount turns i n body a st
    = if i + Z.of_nat turns <? toDouble n then (Diverges, st) else (Ok a, st).
Proof.
  intros Hbody. change (2 ^ 53) with 9007199254740992.
  induction turns as [|k IH]; intros i st Hi Hk; cbn [forCount].
  - change (Z.of_nat 0) with 0. rewrite Z.add_0_r.
    now destruct (i <? toDouble n).
  - destruct (Z.ltb_spec i (toDouble n)) as [Hlt|Hge].
    + rewrite (bind_Ok _ _ st a st (Hbody st)).
      rewrite toDouble_exact
        by (change (2 ^ 53) with 9007199254740992; lia).
      rewrite IH by lia. now replace (i + 1 + Z.of_nat k) with (i + Z.of_nat (S k)) by lia.
    + now replace (i + Z.of_nat (S k) <? toDouble n) with false
        by (symmetry; apply Z.ltb_ge; lia).
Qed.

Lemma forLoop_idle {A : Type} (n : Z) (body : A -> M A) (a : A) (st : State) :
  (forall st, body a st = (Ok a, st)) ->
  forLoop n body a st
  = if 2 ^ 53 <? toDouble n then (Diverges, st) else (Ok a, st).
Proof.
  intros Hbody. unfold forLoop.
  rewrite (forCount_idle n body a Hbody) by lia.
  rewrite Z.add_0_l.
  change (2 ^ 53) with 9007199254740992.
  destruct (Z.ltb_spec 9007199254740992 (toDouble n)) as [Hbig|Hsmall].
  - replace (Z.of_nat (Z.to_nat (Z.min (toDouble n) 9007199254740992)))
      with 9007199254740992 by lia.
    now replace (9007199254740992 <? toDouble n) with true
      by (symmetry; apply Z.ltb_lt; lia).
  - now replace (Z.of_nat (Z.to_nat (Z.min (toDouble n) 9007199254740992))
               <? toDouble n) with false
      by (symmetry; apply Z.ltb_ge; lia).
Qed.

(** The loop of [handleGroupWithRepeat] on a group that is not empty, as
    long as the copies fit an array. *)
Lemma forCount_concat (s : list step) (n : Z) (st : State) :
  s <> [] -> n <= 2 ^ 53 ->
  forall turns i result,
    0 <= i -> i + Z.of_nat turns = n ->
    Z.of_nat (List.length result)
    + Z.of_nat turns * Z.of_nat (List.length s) <= 4294967295 ->
    forCount turns i n (fun result => Array_concat result s) result st
    = (Ok (result ++ List.concat (List.repeat s turns)), st).
Proof.
  intros Hne Hn. change (2 ^ 53) with 9007199254740992 in Hn.
  assert (En : toDouble n = n \/ n < 0).
  { destruct (Z.le_gt_cases 0 n); [left | right; lia].
    apply toDouble_exact. change (2 ^ 53) with 9007199254740992. lia. }
  induction turns as [|k IH]; intros i result Hi Hk Hfit; cbn [forCount].
  - destruct En as [->|En]; [|lia].
    replace (i <? n) with false by (symmetry; apply Z.ltb_ge; lia).
    cbn [List.repeat List.concat]. now rewrite app_nil_r.
  - destruct En as [En|En]; [|lia]. rewrite En.
    replace (i <? n) with true by (symmetry; apply Z.ltb_lt; lia).
    assert (Hstep : Array_concat result s st = (Ok (result ++ s), st)).
    { unfold Array_concat, fits. destruct s as [|x s']; [congruence|].
      replace (Z.of_nat (List.length (result ++ x :: s')) <=? 4294967295)
        with true; [reflexivity|].
      symmetry. apply Z.leb_le. rewrite length_app. nia. }
    rewrite (bind_Ok _ _ st _ st Hstep).
    rewrite toDouble_exact
      by (change (2 ^ 53) with 9007199254740992; lia).
    rewrite IH; [|lia|lia|rewrite length_app; nia].
    cbn [List.repeat List.concat]. now rewrite app_assoc.
Qed.

Lemma forLoop_concat (s : list step) (n : Z) (st : State) :
  s <> [] -> 0 <= n ->
  n * Z.of_nat (List.length s) <= 4294967295 ->
  forLoop n (fun result => Array_concat result s) [] st
  = (Ok (List.concat (List.repeat s (Z.to_nat n))), st).
Proof.
  intros Hne Hn Hfit.
  assert (Hlen : 1 <= Z.of_nat (List.length s)).
  { destruct s; [congruence | simpl; lia]. }
  assert (Hn53 : n <= 9007199254740992) by nia.
  unfold forLoop.
  rewrite toDouble_exact by (change (2 ^ 53) with 9007199254740992; lia).
  change (2 ^ 53) with 9007199254740992.
  replace (Z.min n 9007199254740992) with n by lia.
  rewrite (forCount_concat s n st Hne);
    [reflexivity | exact Hn53 | lia | lia |].
  cbn [List.length]. lia.
Qed.

(** *** Past the depth bound *)

Lemma parsePatternString_guard fuel config pattern st :
  currentDepth st > maxRecursionDepth config ->
  exists st',
    parsePatternString fuel config pattern st = (Ok [], st')
    /\ currentDepth st' = currentDepth st.
Proof.
  intros Hd.
  assert (E : (currentDepth st >? maxRecursionDepth config) = true)
    by (apply Z.gtb_lt; lia).
  destruct fuel; cbn [parsePatternString]; unfold bind at 1, getDepth at 1;
    rewrite E; eexists; split; reflexivity.
Qed.

Lemma transformPattern_nil name st :
  exists st',
    transformPattern name [] st = (Ok [], st')
    /\ currentDepth st' = currentDepth st.
Proof.
  unfold transformPattern, requireParam.
  destruct (matchTransform name) as [[transform digits]|];
    [|eexists; split; reflexivity].
  repeat match goal with
  | |- context [String.eqb transform ?x] => destruct (String.eqb transform x)
  end;
  try destruct (paramOf digits); eexists; split; reflexivity.
Qed.

Lemma concat_repeat_nil {A : Type} (n : nat) :
  List.concat (List.repeat (@nil A) n) = [].
Proof. induction n; simpl; auto. Qed.

(** The count of a repeat token whose numbers are small. *)
Lemma small_count (text : string) (n : Z) :
  countsAreSmall text = true -> parseInt text = Int n ->
  Z.abs n <= 2 ^ 53 /\ toDouble n = n.
Proof.
  intros Hs E. pose proof (parseInt_small text Hs) as H. rewrite E in H.
  assert (Hn : Z.abs n <= 2 ^ 53).
  { apply Z.lt_le_incl, Z.lt_trans with (2 ^ 52); [assumption | reflexivity]. }
  split; [assumption | now apply toDouble_exact].
Qed.

(** Past the bound a transformation, a group with a repeat or a group adds
    nothing, as long as the count of the repeat lets the loop end. *)
Lemma bracket_token_past_bound fuel config outputPattern token st :
  currentDepth st > maxRecursionDepth config ->
  isBracketToken token = true ->
  countsAreSmall token = true ->
  exists st',
    processToken (parsePatternString fuel config) config outputPattern token st
    = (Ok outputPattern, st')
    /\ currentDepth st' = currentDepth st.
Proof.
  intros Hd Hb Hsmall. unfold isBracketToken in Hb.
  apply andb_true_iff in Hb. destruct Hb as [Hnum Hb].
  apply negb_true_iff in Hnum.
  assert (Hin : forall text st1,
             currentDepth st1 = currentDepth st ->
             exists st2,
               parsePatternString fuel config text st1 = (Ok [], st2)
               /\ currentDepth st2 = currentDepth st).
  { intros text st1 H1.
    destruct (parsePatternString_guard fuel config text st1) as (st2 & E & H2);
      [lia|]. exists st2. split; [assumption | congruence]. }
  unfold processToken, tryCatch. rewrite Hnum.
  destruct (isTransformCall token).
  - unfold handleTransformation.
    destruct (_ >=? _).
    + eexists. split; reflexivity.
    + match goal with
      | |- context [parsePatternString fuel config ?text] =>
          destruct (Hin text st eq_refl) as (st2 & E & H2)
      end.
      destruct (transformPattern_nil
                  (substringZ 0 (indexZ (indexOf "[" token)) token) st2)
        as (st3 & E3 & H3).
      rewrite (bind_Ok _ _ st [] st3).
      * exists st3. split; [reflexivity | congruence].
      * rewrite (bind_Ok _ _ st [] st2 E). exact E3.
  - destruct (includes "]*" token).
    + unfold handleGroupWithRepeat.
      destruct (splitStar token) as [group repeat] eqn:Es.
      destruct (isEmpty group || isMissing repeat) eqn:Em;
        [eexists; split; reflexivity|].
      destruct repeat as [r|];
        [|cbn [isMissing] in Em; now rewrite orb_true_r in Em].
      cbn [textOf].
      destruct (badCount (parseInt r)) eqn:Eb;
        [eexists; split; reflexivity|].
      match goal with
      | |- context [parsePatternString fuel config ?text] =>
          destruct (Hin text st eq_refl) as (st2 & E & H2)
      end.
      exists st2. split; [|assumption].
      erewrite bind_Ok.
      2:{ erewrite bind_Ok by exact E.
          destruct (parseInt r) as [n|] eqn:En; [|reflexivity].
          destruct (small_count r n) as [_ Hn]; [|assumption|].
          { eapply countsAreSmall_piece; [|exact Hsmall].
            exact (proj2 (pieceOf_splitStar _ _ _ Es)). }
          rewrite forLoop_idle by reflexivity. rewrite Hn.
          replace (2 ^ 53 <? n) with false; [reflexivity|].
          symmetry. apply Z.ltb_ge.
          pose proof (parseInt_small r) as Hr. rewrite En in Hr.
          specialize (Hr (countsAreSmall_piece _ _
                            (proj2 (pieceOf_splitStar _ _ _ Es)) Hsmall)).
          apply Z.le_trans with (2 ^ 52); [lia | discriminate]. }
      reflexivity.
    + simpl in Hb. rewrite Hb.
      match goal with
      | |- context [parsePatternString fuel config ?text] =>
          destruct (Hin text st eq_refl) as (st2 & E & H2)
      end.
      exists st2. split; [|assumption].
      rewrite (bind_Ok _ _ st [] st2 E). unfold ret. now rewrite app_nil_r.
Qed.

(** *** When the counts are small *)

Section SmallCounts.
Variable parseInner : string -> M (list step).
Variable config : Config.
Variable d : Z.
Hypothesis inner_returns :
  forall text, countsAreSmall text = true -> returns d (parseInner text).

Lemma settles_handleTransformation (token : string) :
  countsAreSmall token = true ->
  settles d (handleTransformation parseInner token).
Proof.
  intros Hs. unfold handleTransformation, console_error.
  apply settles_if; [effects|].
  apply settles_bind.
  - apply returns_settles, inner_returns.
    eapply countsAreSmall_piece; [apply pieceOf_substringZ | exact Hs].
  - intros groupPattern. apply settles_transformPattern.
Qed.

Lemma settles_handleGroupWithRepeat (token : string) :
  countsAreSmall token = true ->
  settles d (handleGroupWithRepeat parseInner token).
Proof.
  intros Hs. unfold handleGroupWithRepeat, console_error.
  destruct (splitStar token) as [group repeat] eqn:Es.
  destruct (isEmpty group || isMissing repeat) eqn:Em; [effects|].
  destruct repeat as [r|];
    [|cbn [isMissing] in Em; now rewrite orb_true_r in Em].
  destruct (pieceOf_splitStar _ _ _ Es) as [Hg Hr].
  cbn [textOf]. destruct (badCount (parseInt r)); [effects|].
  apply settles_bind.
  - apply returns_settles, inner_returns.
    eapply countsAreSmall_piece; [|exact Hs].
    eapply pieceOf_trans; [apply pieceOf_trim|].
    eapply pieceOf_trans; [apply pieceOf_slice | exact Hg].
  - intros groupPattern.
    destruct (parseInt r) as [n|] eqn:En; [|effects].
    apply settles_forLoop; [|intros; apply settles_Array_concat].
    apply (small_count r n); [|assumption].
    eapply countsAreSmall_piece; eassumption.
Qed.

Lemma returns_processToken (outputPattern : list step) (token : string) :
  countsAreSmall token = true ->
  returns d (processToken parseInner config outputPattern token).
Proof.
  intros Hs. unfold processToken, console_error.
  apply returns_tryCatch; [|effects].
  repeat apply settles_if; try (apply returns_settles; effects; fail).
  - apply settles_bind; [now apply settles_handleTransformation | effects].
  - apply settles_bind; [now apply settles_handleGroupWithRepeat | effects].
  - apply settles_bind; [|effects].
    apply returns_settles, inner_returns.
    eapply countsAreSmall_piece; [|exact Hs].
    eapply pieceOf_trans; [apply pieceOf_trim | apply pieceOf_slice].
  - apply settles_bind; [apply settles_handleDirectRepetition | effects].
  - destruct (parseInt token); effects.
Qed.

Lemma returns_forEachToken (tokens : list string) :
  Forall (fun token => countsAreSmall token = true) tokens ->
  forall outputPattern,
    returns d (forEachToken parseInner config tokens outputPattern).
Proof.
  induction 1 as [|token rest Ht Hrest IH]; intros outputPattern; simpl.
  - effects.
  - apply returns_bind; [now apply returns_processToken | exact IH].
Qed.

End SmallCounts.

Lemma matchTokens_small (pattern : string) :
  countsAreSmall pattern = true ->
  Forall (fun token => countsAreSmall token = true) (matchTokens pattern).
Proof.
  intros Hs. apply Forall_forall. intros token Hin.
  eapply countsAreSmall_piece; [|exact Hs]. now apply pieceOf_matchTokens.
Qed.

(** With fuel for the levels the guard lets through, [parsePatternString]
    returns a sequence and leaves the counter as it found it, for every
    pattern whose numbers are small. *)
Lemma parsePatternString_returns (config : Config) (fuel : nat) :
  forall d pattern,
    (Z.to_nat (maxRecursionDepth config - d + 1) <= fuel)%nat ->
    countsAreSmall pattern = true ->
    returns d (parsePatternString fuel config pattern).
Proof.
  induction fuel as [|fuel' IH]; intros d pattern Hfuel Hs;
    cbn [parsePatternString]; apply moves_getDepth;
    destruct (Z.gtb_spec d (maxRecursionDepth config)) as [Hd|Hd];
    unfold console_error; try solve [effects]; try lia.
  assert (Hinner : forall text,
             countsAreSmall text = true ->
             returns (d + 1) (parsePatternString fuel' config text)).
  { intros text Ht. apply IH; [lia | assumption]. }
  assert (Hup : moves d (d + 1) incrementDepth).
  { apply moves_getDepth, moves_setDepth. }
  assert (Hdown : moves (d + 1) d decrementDepth).
  { apply moves_getDepth. replace d with (d + 1 - 1) at 2 by lia.
    apply moves_setDepth. }
  apply (moves_bind _ _ _ _ _ Hup). intros _.
  pose proof (matchTokens_small pattern Hs) as Htokens.
  destruct (matchTokens pattern) as [|token rest].
  - apply (moves_bind _ (d + 1)); [effects|]. intros _.
    apply (moves_bind _ _ _ _ _ Hdown). effects.
  - apply (moves_bind _ (d + 1));
      [apply returns_forEachToken; [exact Hinner | exact Htokens]|].
    intros outputPattern. apply (moves_bind _ _ _ _ _ Hdown). effects.
Qed.

(** [parsePattern] returns a sequence for every pattern whose numbers are
    small. *)
Lemma parsePattern_returns (pattern : string) (options : Config) (st : State) :
  countsAreSmall pattern = true ->
  exists seq st', parsePattern pattern options st = (Ok seq, st').
Proof.
  intros Hs. unfold parsePattern. destruct (isEmpty pattern).
  - eexists _, _. reflexivity.
  - assert (H : moves (currentDepth st) 0
                  ((if debug options
                    then console_log ("Parsing pattern: " ++ pattern)
                    else ret tt) ;;;
                   setDepth 0 ;;;
                   parsePatternString (fuelFor options) options pattern)).
    { unfold console_log.
      apply (moves_bind _ (currentDepth st)); [effects|]. intros _.
      apply (moves_bind _ 0); [apply moves_setDepth|]. intros _.
      apply parsePatternString_returns; [|assumption]. unfold fuelFor.
      replace (maxRecursionDepth options - 0 + 1)
        with (maxRecursionDepth options + 1) by lia.
      apply Nat.le_refl. }
    destruct (H st eq_refl) as (seq & st' & E & _). now exists seq, st'.
Qed.

(** ** The rewrites: src/unnamed/part_002 and src/unnamed/part_001 *)

Lemma attempts_repetition (d : Z) config token output :
  attempts d (Final.repetition config token output).
Proof.
  unfold Final.repetition, console_error.
  destruct (splitStar token) as [value repeat].
  destruct (parseInt (textOf repeat)); [|apply settles_attempts; effects].
  repeat match goal with
  | |- attempts _ (if ?b then _ else _) => destruct b
  end; try (apply settles_attempts; effects; fail);
  apply attempts_forLoop; intros; apply attempts_Array_push.
Qed.

Lemma attempts_flatLoop (d : Z) config (l : list string) :
  forall outputPattern, attempts d (Final.flatLoop config l outputPattern).
Proof.
  induction l as [|part rest IH]; intros outputPattern; simpl;
    [apply settles_attempts; effects|].
  apply attempts_bind; [|exact IH].
  unfold Final.flatPart.
  repeat match goal with
  | |- attempts _ (if ?b then _ else _) => destruct b
  end; try (apply settles_attempts; effects; fail).
  apply attempts_repetition.
Qed.

Lemma returns_extractNextToken (d : Z) pattern startPos :
  returns d (Final.extractNextToken pattern startPos).
Proof.
  unfold Final.extractNextToken, console_error.
  destruct (String.get _ pattern); [|effects].
  apply returns_if.
  - destruct (Final.closeBracket _ 1 0) as [read depth].
    apply returns_if; [effects|].
    destruct (Final.identifierLength _); effects.
  - effects.
Qed.

Section FinalTokens.
Variable parseInner : string -> M (list step).
Variable config : Config.
Variable d : Z.
Hypothesis inner_finishes : forall text, finishes d (parseInner text).

Lemma finishes_Final_processToken result token :
  finishes d (Final.processToken parseInner config result token).
Proof.
  unfold Final.processToken, console_error.
  apply finishes_tryCatchOn; [|intros; apply returns_finishes; effects].
  repeat match goal with
  | |- attempts _ (if ?b then _ else _) => destruct b
  end; try (apply settles_attempts; effects; fail).
  - apply attempts_repetition.
  - apply attempts_bind; [apply finishes_attempts, inner_finishes|].
    intros contentPattern. apply settles_attempts.
    apply settles_bind; [apply settles_transformPattern | effects].
  - destruct (parseInt _); [|apply settles_attempts; effects].
    destruct (_ <=? 0); [apply settles_attempts; effects|].
    apply attempts_bind; [apply finishes_attempts, inner_finishes|].
    intros groupPattern. apply attempts_forLoop.
    intros; apply attempts_Array_push.
  - apply attempts_bind; [apply finishes_attempts, inner_finishes|].
    intros; apply settles_attempts; effects.
Qed.

Lemma finishes_complexLoop pattern rest :
  forall pos skip result,
    finishes d (Final.complexLoop parseInner config pattern rest pos skip result).
Proof.
  induction rest as [|c r IH]; intros pos skip result; simpl;
    [apply returns_finishes; effects|].
  destruct skip; [|apply IH].
  destruct (isSpace c); [apply IH|].
  apply finishes_bind; [apply returns_finishes, returns_extractNextToken|].
  intros [token newPos].
  apply finishes_bind; [|intros; apply IH].
  destruct token as [t|]; [|apply returns_finishes; effects].
  destruct (isEmpty t);
    [apply returns_finishes; effects | apply finishes_Final_processToken].
Qed.

Lemma finishes_Fixed_processToken outputPattern token :
  finishes d (Fixed.processToken parseInner config outputPattern token).
Proof.
  unfold Fixed.processToken, console_error.
  apply finishes_tryCatchOn; [|intros; apply returns_finishes; effects].
  repeat match goal with
  | |- attempts _ (if ?b then _ else _) => destruct b
  end; try (apply settles_attempts; effects; fail).
  - destruct (splitStar token) as [group repeat].
    destruct (parseInt _); [|apply settles_attempts; effects].
    destruct (_ <=? 0); [apply settles_attempts; effects|].
    apply attempts_bind; [apply finishes_attempts, inner_finishes|].
    intros groupPattern. apply attempts_forLoop.
    intros; apply attempts_Array_extend.
  - apply attempts_bind; [apply finishes_attempts, inner_finishes|].
    intros contentPattern. apply settles_attempts.
    apply settles_bind; [apply settles_transformPattern | effects].
  - apply attempts_bind; [apply finishes_attempts, inner_finishes|].
    intros; apply settles_attempts; effects.
  - apply attempts_repetition.
Qed.

Lemma finishes_Fixed_forEachToken (l : list string) :
  forall outputPattern,
    finishes d (Fixed.forEachToken parseInner config l outputPattern).
Proof.
  induction l as [|token rest IH]; intros outputPattern; simpl;
    [apply returns_finishes; effects|].
  apply finishes_bind; [apply finishes_Fixed_processToken | exact IH].
Qed.

End FinalTokens.

Lemma returns_scanLoop (d : Z) (rest : string) :
  forall i skip s, returns d (Fixed.scanLoop rest i skip s).
Proof.
  induction rest as [|c r IH]; intros i skip s; simpl; [effects|].
  destruct skip; [|apply IH].
  unfold console_error.
  repeat apply returns_if; try apply IH.
  - destruct (Fixed.bracketDepth s) as [|[|below]]; try apply IH.
    + apply returns_bind; [effects | intros; apply IH].
    + apply returns_if; apply IH.
Qed.

Lemma returns_tokenizeWithBrackets (d : Z) (pattern : string) :
  returns d (Fixed.tokenizeWithBrackets pattern).
Proof.
  unfold Fixed.tokenizeWithBrackets, console_error.
  apply returns_bind; [apply returns_scanLoop | effects].
Qed.

(** With fuel for the levels the guard lets through, the
    [parsePatternString] of part_002 raises nothing: it returns a
    sequence or it does not return. *)
Lemma Final_parsePatternString_finishes (config : Config) (d : Z) (fuel : nat) :
  forall depth pattern,
    (Z.to_nat (maxRecursionDepth config - depth + 1) <= fuel)%nat ->
    finishes d (Final.parsePatternString fuel config depth pattern).
Proof.
  induction fuel as [|fuel' IH]; intros depth pattern Hfuel;
    cbn [Final.parsePatternString];
    destruct (Z.gtb_spec depth (maxRecursionDepth config)) as [Hd|Hd];
    unfold console_error; try solve [apply returns_finishes; effects];
    try lia.
  apply finishes_bind; [|intros; apply returns_finishes; effects].
  apply finishes_tryCatchOn; [|intros; apply returns_finishes; effects].
  destruct (negb _).
  - apply attempts_flatLoop.
  - apply finishes_attempts, finishes_complexLoop.
    intros text. apply IH. lia.
Qed.

(** The same for part_001. *)
Lemma Fixed_parsePatternString_finishes (config : Config) (d : Z) (fuel : nat) :
  forall depth pattern,
    (Z.to_nat (maxRecursionDepth config - depth + 1) <= fuel)%nat ->
    finishes d (Fixed.parsePatternString fuel config depth pattern).
Proof.
  induction fuel as [|fuel' IH]; intros depth pattern Hfuel;
    cbn [Fixed.parsePatternString];
    destruct (Z.gtb_spec depth (maxRecursionDepth config)) as [Hd|Hd];
    unfold console_error, console_log;
    try solve [apply returns_finishes; effects]; try lia.
  apply finishes_bind;
    [apply returns_finishes, returns_tokenizeWithBrackets|].
  intros [|token rest]; [apply returns_finishes; effects|].
  apply finishes_bind; [|intros; apply returns_finishes; effects].
  apply finishes_Fixed_forEachToken. intros text. apply IH. lia.
Qed.

Lemma Final_parsePattern_finishes pattern options st :
  (exists seq st', Final.parsePattern pattern options st = (Ok seq, st'))
  \/ (exists st', Final.parsePattern pattern options st = (Diverges, st')).
Proof.
  assert (H : finishes (currentDepth st) (Final.parsePattern pattern options)).
  { unfold Final.parsePattern, console_error, console_log.
    destruct (isEmpty pattern); [apply returns_finishes; effects|].
    apply finishes_bind; [apply returns_finishes; effects|]. intros _.
    apply Final_parsePatternString_finishes. unfold fuelFor.
    replace (maxRecursionDepth options - 0 + 1)
      with (maxRecursionDepth options + 1) by lia.
    apply Nat.le_refl. }
  destruct (H st eq_refl) as [(seq & st' & E & _) | (st' & E)].
  - left. now exists seq, st'.
  - right. now exists st'.
Qed.

Lemma Fixed_parsePattern_finishes pattern options st :
  (exists seq st', Fixed.parsePattern pattern options st = (Ok seq, st'))
  \/ (exists st', Fixed.parsePattern pattern options st = (Diverges, st')).
Proof.
  assert (H : finishes (currentDepth st) (Fixed.parsePattern pattern options)).
  { unfold Fixed.parsePattern, console_error, console_log.
    destruct (isEmpty pattern); [apply returns_finishes; effects|].
    apply finishes_bind; [apply returns_finishes; effects|]. intros _.
    apply Fixed_parsePatternString_finishes. unfold fuelFor.
    replace (maxRecursionDepth options - 0 + 1)
      with (maxRecursionDepth options + 1) by lia.
    apply Nat.le_refl. }
  destruct (H st eq_refl) as [(seq & st' & E & _) | (st' & E)].
  - left. now exists seq, st'.
  - right. now exists st'.
Qed.

(** Past the bound the recursive call of part_002 returns the empty
    sequence at once, with one diagnostic. *)
Lemma Final_parsePatternString_guard fuel config depth pattern st :
  depth > maxRecursionDepth config ->
  exists msg,
    Final.parsePatternString fuel config depth pattern st
    = (Ok [], withError st msg).
Proof.
  intros Hd.
  assert (E : (depth >? maxRecursionDepth config) = true)
    by (apply Z.gtb_lt; lia).
  destruct fuel; cbn [Final.parsePatternString]; rewrite E;
    eexists; reflexivity.
Qed.

(** In part_002 too a bracket token met past the bound adds nothing, as
    long as the count of a repeat lets the loop end. *)
Lemma Final_bracket_token_past_bound fuel config depth result token st :
  depth > maxRecursionDepth config ->
  isFinalBracketToken token = true ->
  countsAreSmall token = true ->
  exists st',
    Final.processToken (Final.parsePatternString fuel config depth) config
      result token st
    = (Ok result, st').
Proof.
  intros Hd Hb Hsmall. unfold isFinalBracketToken in Hb.
  repeat (apply andb_true_iff in Hb; destruct Hb as [Hb ?]).
  repeat match goal with
  | E : negb _ = true |- _ => apply negb_true_iff in E
  end.
  assert (Hin : forall text st1,
             exists st2,
               Final.parsePatternString fuel config depth text st1
               = (Ok [], st2)).
  { intros text st1.
    destruct (Final_parsePatternString_guard fuel config depth text st1 Hd)
      as (msg & E). now exists (withError st1 msg). }
  unfold Final.processToken, tryCatchOn. rewrite Hb, H1, H0.
  destruct (isTransformCall token).
  - match goal with
    | |- context [Final.parsePatternString fuel config depth ?text] =>
        destruct (Hin text st) as (st2 & E)
    end.
    destruct (transformPattern_nil
                (substringZ 0 (indexZ (indexOf "[" token)) token) st2)
      as (st3 & E3 & _).
    exists st3.
    rewrite (bind_Ok _ _ st [] st2 E), (bind_Ok _ _ st2 [] st3 E3).
    unfold ret. now rewrite app_nil_r.
  - destruct (Final.isGroupRepeat token).
    + match goal with
      | |- context [parseInt ?text] =>
          pose proof (small_count text) as Hcount;
          assert (Hr : countsAreSmall text = true)
            by (eapply countsAreSmall_piece;
                [apply pieceOf_drop | exact Hsmall]);
          destruct (parseInt text) as [n|]; [|eexists; reflexivity]
      end.
      destruct (n <=? 0); [eexists; reflexivity|].
      match goal with
      | |- context [Final.parsePatternString fuel config depth ?text] =>
          destruct (Hin text st) as (st2 & E)
      end.
      exists st2. rewrite (bind_Ok _ _ st [] st2 E).
      destruct (Hcount n Hr eq_refl) as [Hn En].
      rewrite forLoop_idle by reflexivity. rewrite En.
      now replace (2 ^ 53 <? n) with false
        by (symmetry; apply Z.ltb_ge; lia).
    + simpl in H. rewrite H.
      match goal with
      | |- context [Final.parsePatternString fuel config depth ?text] =>
          destruct (Hin text st) as (st2 & E)
      end.
      exists st2. rewrite (bind_Ok _ _ st [] st2 E).
      unfold ret. now rewrite app_nil_r.
Qed.

(** ** The fuel does not matter *)

Lemma agree_refl {A : Type} (d : Z) (m : M A) : agree d m m.
Proof. intros st _. reflexivity. Qed.

Lemma agree_bind {A B : Type} (d : Z) (m1 m2 : M A) (f1 f2 : A -> M B) :
  agree d m1 m2 -> attempts d m1 -> (forall a, agree d (f1 a) (f2 a)) ->
  agree d (bind m1 f1) (bind m2 f2).
Proof.
  intros Hm Hs Hf st Hst. unfold bind. rewrite <- (Hm st Hst).
  destruct (Hs st Hst) as (r & st1 & -> & _ & H1).
  destruct r; try reflexivity.
  destruct H1 as [H1|H1]; [discriminate|]. now apply Hf.
Qed.

Lemma agree_after {A B : Type} (d d1 : Z) (m : M A) (f1 f2 : A -> M B) :
  moves d d1 m -> (forall a, agree d1 (f1 a) (f2 a)) ->
  agree d (bind m f1) (bind m f2).
Proof.
  intros Hm Hf st Hst. unfold bind.
  destruct (Hm st Hst) as (a & st1 & -> & H1). now apply Hf.
Qed.

Lemma agree_tryCatch {A : Type} (d : Z) (m1 m2 : M A) (h : string -> M A) :
  agree d m1 m2 -> agree d (tryCatch m1 h) (tryCatch m2 h).
Proof. intros Hm st Hst. unfold tryCatch. now rewrite (Hm st Hst). Qed.

Lemma agree_if {A : Type} (d : Z) (b : bool) (m1 m2 n1 n2 : M A) :
  agree d m1 m2 -> agree d n1 n2 ->
  agree d (if b then m1 else n1) (if b then m2 else n2).
Proof. now destruct b. Qed.

Section Agreement.
Variables inner1 inner2 : string -> M (list step).
Variable config : Config.
Variable d : Z.
Hypothesis inner_agree : forall text, agree d (inner1 text) (inner2 text).
Hypothesis inner_finishes : forall text, finishes d (inner1 text).

Lemma agree_processToken outputPattern token :
  agree d (processToken inner1 config outputPattern token)
          (processToken inner2 config outputPattern token).
Proof.
  unfold processToken. apply agree_tryCatch.
  repeat apply agree_if; try apply agree_refl.
  - apply agree_bind; [|now apply attempts_handleTransformation
                        |intros; apply agree_refl].
    unfold handleTransformation. apply agree_if; [apply agree_refl|].
    apply agree_bind; [apply inner_agree
                      | apply finishes_attempts, inner_finishes
                      | intros; apply agree_refl].
  - apply agree_bind;
      [|now apply attempts_handleGroupWithRepeat
       |intros; apply agree_refl].
    unfold handleGroupWithRepeat. destruct (splitStar token) as [group repeat].
    repeat apply agree_if; try apply agree_refl.
    apply agree_bind; [apply inner_agree
                      | apply finishes_attempts, inner_finishes
                      | intros; apply agree_refl].
  - apply agree_bind; [apply inner_agree
                      | apply finishes_attempts, inner_finishes
                      | intros; apply agree_refl].
Qed.

Lemma agree_forEachToken (tokens : list string) :
  forall outputPattern,
    agree d (forEachToken inner1 config tokens outputPattern)
            (forEachToken inner2 config tokens outputPattern).
Proof.
  induction tokens as [|token rest IH]; intros outputPattern; simpl.
  - apply agree_refl.
  - apply agree_bind; [apply agree_processToken | | exact IH].
    now apply finishes_attempts, finishes_processToken.
Qed.

End Agreement.

Lemma agree_getDepth {B : Type} (d : Z) (f1 f2 : Z -> M B) :
  agree d (f1 d) (f2 d) -> agree d (bind getDepth f1) (bind getDepth f2).
Proof.
  intros H st Hst. unfold bind, getDepth. rewrite Hst. now apply H.
Qed.

(** Any two amounts of fuel that cover the levels the guard lets through
    give the same run. *)
Lemma parsePatternString_fuel (config : Config) (fuel : nat) :
  forall fuel' d pattern,
    (Z.to_nat (maxRecursionDepth config - d + 1) <= fuel)%nat ->
    (Z.to_nat (maxRecursionDepth config - d + 1) <= fuel')%nat ->
    agree d (parsePatternString fuel config pattern)
            (parsePatternString fuel' config pattern).
Proof.
  induction fuel as [|fuel1 IH]; intros [|fuel2] d pattern H1 H2;
    cbn [parsePatternString]; apply agree_getDepth;
    destruct (Z.gtb_spec d (maxRecursionDepth config)) as [Hd|Hd];
    try apply agree_refl; try lia.
  apply (agree_after d (d + 1)).
  { apply moves_getDepth, moves_setDepth. }
  intros _. destruct (matchTokens pattern) as [|token rest];
    [apply agree_refl|].
  apply agree_bind; [| |intros; apply agree_refl].
  - apply agree_forEachToken.
    + intros text. apply IH; lia.
    + intros text. apply parsePatternString_finishes. lia.
  - apply finishes_attempts, finishes_forEachToken.
    intros text. apply parsePatternString_finishes. lia.
Qed.

(** ** When [transformPattern] raises *)

Lemma returns_Array_fill {A : Type} (d : Z) (n : number) (x : A) :
  isArrayLength n = true -> returns d (Array_fill n x).
Proof.
  unfold Array_fill, isArrayLength. destruct n as [z|]; [|discriminate].
  intros ->. apply returns_ret.
Qed.

Lemma returns_flatMapM {A B : Type} (d : Z) (f : A -> M (list B)) (l : list A) :
  (forall x, returns d (f x)) -> returns d (flatMapM f l).
Proof.
  intros Hf. induction l as [|x r IH]; simpl; effects.
Qed.

Lemma throws_Array_fill {A : Type} (n : number) (x : A) (st : State) :
  isArrayLength n = false ->
  Array_fill n x st = (Throw "Invalid array length", st).
Proof.
  unfold Array_fill, isArrayLength. destruct n as [z|]; [|reflexivity].
  now intros ->.
Qed.

(** [transformPattern] raises an exception exactly when [repeat] is asked
    for arrays that are too long; in every other case it returns a
    sequence. *)
Lemma transformPattern_throws_iff (name : string) (s : list step) (st : State) :
  if repeatsTooLong name s
  then transformPattern name s st = (Throw "Invalid array length", st)
  else exists seq st', transformPattern name s st = (Ok seq, st').
Proof.
  assert (Hret : forall m : M (list step),
             returns (currentDepth st) m ->
             exists seq st', m st = (Ok seq, st')).
  { intros m H. destruct (H st eq_refl) as (seq & st' & E & _).
    now exists seq, st'. }
  unfold repeatsTooLong, transformPattern, console_error.
  destruct (matchTransform name) as [[transform digits]|].
  2:{ apply Hret. effects. }
  destruct (String.eqb_spec transform "repeat") as [->|Hother].
  - cbn [String.eqb Ascii.eqb Bool.eqb andb]. unfold requireParam.
    destruct (paramOf digits) as [p|].
    2:{ rewrite andb_false_r. apply Hret. unfold console_error. effects. }
    destruct s as [|x s']; [apply Hret; effects|].
    cbn [List.length Nat.eqb negb andb].
    destruct (isArrayLength p) eqn:Ep; cbn [negb].
    + apply Hret, returns_flatMapM. intros y. now apply returns_Array_fill.
    + cbn [flatMapM]. unfold bind. now rewrite throws_Array_fill.
  - cbn [andb]. apply Hret.
    repeat match goal with
    | |- returns _ (if String.eqb transform "repeat" then _ else _) =>
        destruct (String.eqb_spec transform "repeat"); [congruence|]
    | |- returns _ (if ?b then _ else _) => apply returns_if
    end;
    unfold requireParam, console_error;
    try (destruct (paramOf digits));
    try apply returns_shuffleFrom; try apply returns_mapM; effects.
Qed.

(** ** The random generator *)

Lemma produces_ret {A : Type} (P : A -> Prop) (a : A) :
  P a -> produces P (ret a).
Proof. intros H st. now exists a, st. Qed.

Lemma produces_bind {A B : Type} (P : A -> Prop) (Q : B -> Prop)
    (m : M A) (f : A -> M B) :
  produces P m -> (forall a, P a -> produces Q (f a)) ->
  produces Q (bind m f).
Proof.
  intros Hm Hf st. unfold bind.
  destruct (Hm st) as (a & st1 & -> & Ha). exact (Hf a Ha st1).
Qed.

Lemma draw_in_unit (r : draw) : (0 <= drawValue r)%Q /\ (drawValue r < 1)%Q.
Proof.
  pose proof (drawInUnit r) as H. apply andb_true_iff in H.
  destruct H as [H0 H1]. split.
  - now apply Qle_bool_iff.
  - apply negb_true_iff in H1. apply Qnot_le_lt. intros Hle.
    apply Qle_bool_iff in Hle. congruence.
Qed.

Lemma produces_random :
  produces (fun r => (0 <= r)%Q /\ (r < 1)%Q) Math_random.
Proof.
  intros st. eexists _, _. split; [reflexivity|]. apply draw_in_unit.
Qed.

Lemma floorMul_bounds (r : Q) (n : Z) :
  (0 <= r)%Q -> (r < 1)%Q -> 0 < n -> 0 <= floorMul r n < n.
Proof.
  intros H0 H1 Hn. unfold floorMul.
  assert (Hn' : (0 < inject_Z n)%Q).
  { change 0%Q with (inject_Z 0). now rewrite <- Zlt_Qlt. }
  split.
  - change 0 with (Qfloor 0). apply Qfloor_resp_le.
    apply Qmult_le_0_compat; [assumption | now apply Qlt_le_weak].
  - rewrite Zlt_Qlt.
    apply Qle_lt_trans with (r * inject_Z n)%Q; [apply Qfloor_le|].
    rewrite <- (Qmult_1_l (inject_Z n)) at 2.
    apply Qmult_lt_compat_r; assumption.
Qed.

Section GeneratorFacts.
Variable config : RandomOptions.

Lemma produces_randomCount :
  produces (fun c => 2 <= c <= 4) randomCount.
Proof.
  unfold randomCount. eapply produces_bind; [apply produces_random|].
  intros r [H0 H1]. apply produces_ret.
  pose proof (floorMul_bounds r 3 H0 H1). lia.
Qed.

Lemma produces_randomValue_any : produces (fun _ => True) (randomValue config).
Proof.
  unfold randomValue. eapply produces_bind; [apply produces_random|].
  intros r _. now apply produces_ret.
Qed.

Lemma produces_randomValue :
  minValue config <= maxValue config ->
  produces (fun v => minValue config <= v <= maxValue config)
    (randomValue config).
Proof.
  intros Hmm. unfold randomValue.
  eapply produces_bind; [apply produces_random|].
  intros r [H0 H1]. apply produces_ret.
  pose proof (floorMul_bounds r (maxValue config - minValue config + 1) H0 H1).
  lia.
Qed.

Lemma produces_randomGroup_any (k : nat) :
  forall group, produces (fun _ => True) (randomGroup config k group).
Proof.
  induction k as [|k IH]; intros group; simpl.
  - now apply produces_ret.
  - eapply produces_bind; [apply produces_random|]. intros r _.
    destruct (Qltb r (restProbability config)); [apply IH|].
    eapply produces_bind; [apply produces_randomValue_any|]. intros v _.
    apply IH.
Qed.

(** Each turn of the loop moves the index forward, so the fuel of
    [createRandomPattern] is enough. *)
Lemma produces_randomLoop_any (fuel : nat) :
  forall i result,
    (Z.to_nat (patternLength config - i) <= fuel)%nat ->
    produces (fun _ => True) (randomLoop config fuel i result).
Proof.
  induction fuel as [|fuel' IH]; intros i result Hfuel;
    cbn [randomLoop];
    destruct (Z.ltb_spec i (patternLength config)) as [Hi|Hi];
    try (now apply produces_ret); try lia.
  eapply produces_bind; [apply produces_random|]. intros rand _.
  destruct (Qltb rand (restProbability config)); [apply IH; lia|].
  destruct (Qltb rand (restProbability config + groupProbability config)).
  - destruct (i <? patternLength config - 3).
    + eapply produces_bind; [apply produces_randomCount|].
      intros groupLength Hg. cbv beta in Hg.
      eapply produces_bind; [apply produces_randomGroup_any|]. intros group _.
      eapply produces_bind; [apply produces_random|]. intros r _.
      eapply produces_bind with (P := fun _ => True).
      * destruct (Qltb r (repetitionProbability config)).
        -- eapply produces_bind; [apply produces_randomCount|]. intros c _.
           now apply produces_ret.
        -- now apply produces_ret.
      * intros result' _. apply IH. lia.
    + eapply produces_bind; [apply produces_randomValue_any|]. intros v _.
      apply IH. lia.
  - eapply produces_bind; [apply produces_randomValue_any|]. intros v _.
    eapply produces_bind; [apply produces_random|]. intros r _.
    destruct (Qltb r (repetitionProbability config)).
    + eapply produces_bind; [apply produces_randomCount|]. intros c Hc. cbv beta in Hc.
      apply IH. lia.
    + apply IH. lia.
Qed.

Hypothesis no_groups : (groupProbability config == 0)%Q.
Hypothesis ordered : minValue config <= maxValue config.

Lemma no_group_branch (rand : Q) :
  Qltb rand (restProbability config) = false ->
  Qltb rand (restProbability config + groupProbability config) = false.
Proof.
  unfold Qltb. intros H. apply negb_false_iff in H. apply negb_false_iff.
  apply Qle_bool_iff in H. apply Qle_bool_iff.
  rewrite no_groups, Qplus_0_r. exact H.
Qed.

(** Without groups the sequence is as long as the index, which stops
    at most three places past the length asked for. *)
Lemma produces_randomLoop_flat (fuel : nat) :
  forall i result,
    (Z.to_nat (patternLength config - i) <= fuel)%nat ->
    Z.of_nat (List.length result) = i -> i <= patternLength config + 3 ->
    Forall (inBounds (minValue config) (maxValue config)) result ->
    produces (fun seq =>
                Forall (inBounds (minValue config) (maxValue config)) seq
                /\ patternLength config <= Z.of_nat (List.length seq)
                /\ (0 <= patternLength config ->
                    Z.of_nat (List.length seq) <= patternLength config + 3))
      (randomLoop config fuel i result).
Proof.
  induction fuel as [|fuel' IH]; intros i result Hfuel Hlen Hup Hall;
    cbn [randomLoop];
    destruct (Z.ltb_spec i (patternLength config)) as [Hi|Hi];
    try (apply produces_ret; repeat split; (assumption || lia)); try lia.
  eapply produces_bind; [apply produces_random|]. intros rand _.
  destruct (Qltb rand (restProbability config)) eqn:Erest.
  { apply IH; try lia.
    - rewrite length_app. simpl. lia.
    - apply Forall_app. split; [assumption|]. now repeat constructor. }
  rewrite no_group_branch by assumption.
  eapply produces_bind; [now apply produces_randomValue|]. intros v Hv. cbv beta in Hv.
  eapply produces_bind; [apply produces_random|]. intros r _.
  destruct (Qltb r (repetitionProbability config)).
  - eapply produces_bind; [apply produces_randomCount|]. intros c Hc. cbv beta in Hc.
    apply IH; try lia.
    + rewrite length_app, repeat_length. lia.
    + apply Forall_app. split; [assumption|].
      apply Forall_forall. intros x Hx. apply repeat_spec in Hx. now subst x.
  - apply IH; try lia.
    + rewrite length_app. simpl. lia.
    + apply Forall_app. split; [assumption|]. now repeat constructor.
Qed.

End GeneratorFacts.

(** [createRandomPattern] returns a sequence, whatever the options and the
    random source. *)
Lemma createRandomPattern_returns (options : RandomOptions) (st : State) :
  exists seq st', createRandomPattern options st = (Ok seq, st').
Proof.
  destruct (produces_randomLoop_any options
              (Z.to_nat (patternLength options)) 0 []) with (st := st)
    as (seq & st' & E & _).
  - rewrite Z.sub_0_r. apply Nat.le_refl.
  - now exists seq, st'.
Qed.

(** What holds of the non-grouped path: the elements are rests and notes
    within the bounds, and the length is the one asked for or up to three
    more. *)
Lemma createRandomPattern_flat (options : RandomOptions) (st : State) :
  (groupProbability options == 0)%Q ->
  minValue options <= maxValue options ->
  0 <= patternLength options ->
  exists seq st',
    createRandomPattern options st = (Ok seq, st')
    /\ Forall (inBounds (minValue options) (maxValue options)) seq
    /\ patternLength options <= Z.of_nat (List.length seq)
       <= patternLength options + 3.
Proof.
  intros Hg Hmm Hlen.
  destruct (produces_randomLoop_flat options Hg Hmm
              (Z.to_nat (patternLength options)) 0 []) with (st := st)
    as (seq & st' & E & Hall & Hlo & Hhi).
  - rewrite Z.sub_0_r. apply Nat.le_refl.
  - reflexivity.
  - lia.
  - constructor.
  - exists seq, st'. repeat split; auto.
Qed.

(** ** The round trip of the plain sequences *)

Lemma allOf_dropWhile (p q : ascii -> bool) (s : string) :
  allOf p s = true -> allOf p (dropWhile q s) = true.
Proof.
  induction s as [|c r IH]; [reflexivity|]. simpl. rewrite allOf_cons.
  intros H. apply andb_true_iff in H. destruct H as [Hc Hr].
  destruct (q c); [now apply IH|]. rewrite allOf_cons. now rewrite Hc, Hr.
Qed.

Lemma headIs_allOf (p : ascii -> bool) (c : ascii) (s : string) :
  p c = false -> allOf p s = true -> headIs c s = false.
Proof.
  destruct s as [|d r]; [reflexivity|]. simpl. rewrite allOf_cons.
  intros Hc H. apply andb_true_iff in H. destruct H as [Hd _].
  destruct (Ascii.eqb_spec c d) as [->|]; [congruence | reflexivity].
Qed.

Lemma matchCall_no_bracket (s : string) :
  allOf (without "[") s = true -> matchCall s = None.
Proof.
  intros H. unfold matchCall.
  destruct (isEmpty (takeWhile isWord s)); [reflexivity|].
  assert (H' : allOf (without "[") (dropWhile isSpace (dropWhile isWord s)) = true)
    by now repeat apply allOf_dropWhile.
  destruct (dropWhile isSpace (dropWhile isWord s)) as [|c r]; [reflexivity|].
  rewrite allOf_cons in H'. apply andb_true_iff in H'. destruct H' as [Hc _].
  unfold without in Hc. apply negb_true_iff in Hc. now rewrite Hc.
Qed.

Lemma matchAt_word (t rest : string) :
  isEmpty t = false ->
  allOf isPlainChar t = true ->
  allOf (without "[") rest = true ->
  headIs " " rest = true \/ rest = EmptyString ->
  matchAt (t ++ rest) = Some t.
Proof.
  intros Hne Ht Hrest Hhead. unfold matchAt.
  assert (Hplain : forall c, isPlainChar c = true ->
                     (without "[") c = true /\ isSeparator c = false).
  { intros c Hc. unfold isPlainChar in Hc. apply orb_true_iff in Hc.
    destruct Hc as [Hc | Hc].
    - unfold isSeparator, without. split.
      + apply negb_true_iff.
        destruct (Ascii.eqb_spec c "[") as [->|]; [discriminate | reflexivity].
      + destruct (Ascii.eqb_spec c ",") as [->|]; [discriminate|].
        destruct (Ascii.eqb_spec c ";") as [->|]; [discriminate|].
        simpl. now apply isDigit_not_space.
    - apply Ascii.eqb_eq in Hc. subst c. split; reflexivity. }
  rewrite matchCall_no_bracket.
  2:{ rewrite allOf_app, Hrest, andb_true_r.
      eapply allOf_impl; [|exact Ht]. intros c Hc. now apply Hplain. }
  destruct t as [|c t']; [discriminate|].
  rewrite allOf_cons in Ht. apply andb_true_iff in Ht. destruct Ht as [Hc Ht'].
  destruct (Hplain c Hc) as [Hb Hs].
  change (String c t' ++ rest)%string with (String c (t' ++ rest)%string).
  unfold matchGroupRepeat, matchGroup.
  unfold without in Hb. apply negb_true_iff in Hb. rewrite Hb.
  unfold matchWord.
  assert (E : takeWhile (fun c0 => negb (isSeparator c0))
                (String c (t' ++ rest)%string)
              = String c t').
  { simpl. rewrite Hs. simpl. f_equal.
    clear Hne Hc Hb Hs. induction t' as [|d r IH].
    - simpl. destruct Hhead as [Hh | ->]; [|reflexivity].
      destruct rest as [|e rest']; [reflexivity|]. unfold headIs in Hh.
      apply Ascii.eqb_eq in Hh. subst e. reflexivity.
    - rewrite allOf_cons in Ht'. apply andb_true_iff in Ht'.
      destruct Ht' as [Hd Hr]. simpl.
      destruct (Hplain d Hd) as [_ Hsd]. rewrite Hsd. simpl. f_equal.
      now apply IH. }
  rewrite E. reflexivity.
Qed.

Lemma scan_skip (t rest : string) :
  scan (String.length t) (t ++ rest) = scan 0 rest.
Proof. induction t as [|c r IH]; [reflexivity | exact IH]. Qed.

Lemma scan_space (more : string) : scan 0 (String " " more) = scan 0 more.
Proof. reflexivity. Qed.

Lemma plainChar_not_bracket (c : ascii) :
  isPlainChar c = true -> without "[" c = true.
Proof.
  unfold isPlainChar, without. intros H. apply negb_true_iff.
  destruct (Ascii.eqb_spec c "[") as [->|]; [discriminate | reflexivity].
Qed.

Lemma join_no_bracket (ts : list string) :
  forallb isPlainText ts = true ->
  allOf (without "[") (join " " ts) = true.
Proof.
  induction ts as [|t ts IH]; [reflexivity|]. simpl forallb.
  intros H. apply andb_true_iff in H. destruct H as [Ht Hts].
  unfold isPlainText in Ht. apply andb_true_iff in Ht. destruct Ht as [_ Ht].
  assert (Hb : allOf (without "[") t = true)
    by (eapply allOf_impl; [apply plainChar_not_bracket | exact Ht]).
  destruct ts as [|u us]; [exact Hb|].
  change (join " " (t :: u :: us))
    with (t ++ String " " (join " " (u :: us)))%string.
  rewrite allOf_app, Hb, allOf_cons, IH by assumption. reflexivity.
Qed.

(** The tokens of plain texts joined by spaces are those texts. *)
Lemma matchTokens_join (ts : list string) :
  forallb isPlainText ts = true -> matchTokens (join " " ts) = ts.
Proof.
  unfold matchTokens.
  induction ts as [|t ts IH]; [reflexivity|]. simpl forallb.
  intros H. apply andb_true_iff in H. destruct H as [Ht Hts].
  pose proof Ht as Ht'. unfold isPlainText in Ht'.
  apply andb_true_iff in Ht'. destruct Ht' as [Hne Hall].
  apply negb_true_iff in Hne.
  destruct t as [|c t']; [discriminate|].
  destruct ts as [|u us].
  - change (join " " [String c t']) with (String c t').
    cbn [scan].
    rewrite <- (append_empty_r (String c t')) at 1.
    rewrite matchAt_word; try assumption; try reflexivity; [|now right].
    cbn [String.length]. rewrite Nat.sub_1_r. cbn [Nat.pred].
    replace (scan (String.length t') t')
      with (scan (String.length t') (t' ++ ""))
      by now rewrite append_empty_r.
    now rewrite scan_skip.
  - change (join " " (String c t' :: u :: us))
      with (String c (t' ++ String " " (join " " (u :: us)))%string).
    cbn [scan].
    change (String c (t' ++ String " " (join " " (u :: us)))%string)
      with (String c t' ++ String " " (join " " (u :: us)))%string.
    rewrite matchAt_word; try assumption; [| |now left].
    + cbn [String.length]. rewrite Nat.sub_1_r. cbn [Nat.pred].
      rewrite scan_skip, scan_space, IH by assumption. reflexivity.
    + rewrite allOf_cons, join_no_bracket by assumption. reflexivity.
Qed.

(** *** [trim] leaves a text without white space alone *)

Lemma allOf_reverse (p : ascii -> bool) (s : string) :
  allOf p (reverse s) = allOf p s.
Proof.
  induction s as [|c r IH]; [reflexivity|].
  rewrite reverse_cons, allOf_app, IH, !allOf_cons. cbn. 
  rewrite andb_true_r. apply andb_comm.
Qed.

Lemma dropWhile_none (p : ascii -> bool) (s : string) :
  allOf (fun c => negb (p c)) s = true -> dropWhile p s = s.
Proof.
  destruct s as [|c r]; [reflexivity|]. rewrite allOf_cons. intros H.
  apply andb_true_iff in H. destruct H as [Hc _].
  apply negb_true_iff in Hc. simpl. now rewrite Hc.
Qed.

Lemma trim_no_space (s : string) :
  allOf (fun c => negb (isSpace c)) s = true -> trim s = s.
Proof.
  intros H. unfold trim, trimStart, trimEnd.
  rewrite (dropWhile_none isSpace s H).
  rewrite dropWhile_none by now rewrite allOf_reverse.
  apply reverse_involutive.
Qed.

Lemma allOf_empty (p : ascii -> bool) (s : string) :
  allOf p s = true -> dropWhile p s = EmptyString.
Proof. unfold allOf. now destruct (dropWhile p s). Qed.

(** A run of digits, with or without a minus sign, is a numeric
    literal. *)
Lemma isUnsignedDecimal_digits (d : string) :
  allOf isDigit d = true -> isEmpty d = false -> isUnsignedDecimal d = true.
Proof.
  intros Hd Hne. unfold isUnsignedDecimal.
  destruct (String.eqb_spec d "Infinity") as [->|_]; [reflexivity|].
  rewrite takeWhile_all, (allOf_empty _ _ Hd), Hne by assumption.
  reflexivity.
Qed.

Lemma digit_not_space_all (d : string) :
  allOf isDigit d = true -> allOf (fun c => negb (isSpace c)) d = true.
Proof.
  apply allOf_impl. intros c Hc. now rewrite isDigit_not_space.
Qed.

Lemma isNumeric_digits (d : string) :
  allOf isDigit d = true -> isEmpty d = false -> isNumeric d = true.
Proof.
  intros Hd Hne. unfold isNumeric.
  rewrite trim_no_space by now apply digit_not_space_all.
  unfold isDecimalLiteral.
  rewrite !(isDigit_headIs _ d) by (reflexivity || assumption).
  cbn [orb]. rewrite isUnsignedDecimal_digits by assumption.
  apply orb_true_r.
Qed.

Lemma isNumeric_minus_digits (d : string) :
  allOf isDigit d = true -> isEmpty d = false ->
  isNumeric (String "-" d) = true.
Proof.
  intros Hd Hne. unfold isNumeric.
  rewrite trim_no_space
    by (rewrite allOf_cons; now rewrite digit_not_space_all).
  unfold isDecimalLiteral.
  change (headIs "-" (String "-" d)) with true. rewrite orb_true_r.
  change (drop 1 (String "-" d)) with d.
  rewrite isUnsignedDecimal_digits by assumption.
  apply orb_true_r.
Qed.

Lemma isNumeric_numberToString (z : Z) :
  Z.abs z < 10 ^ 21 -> isNumeric (numberToString (Int z)) = true.
Proof.
  intros Hz. unfold numberToString, magnitudeToString.
  destruct (z <? 0) eqn:E.
  - apply Z.ltb_lt in E.
    replace (Z.to_N (- z) <? 10 ^ 21)%N with true
      by (symmetry; apply N.ltb_lt; lia).
    pose proof (decimal_denotes (Z.to_N (- z))) as H.
    apply isNumeric_minus_digits.
    + eapply denotes_allDigits; eassumption.
    + eapply denotes_nonempty; eassumption.
  - apply Z.ltb_ge in E.
    replace (Z.to_N z <? 10 ^ 21)%N with true
      by (symmetry; apply N.ltb_lt; lia).
    pose proof (decimal_denotes (Z.to_N z)) as H.
    apply isNumeric_digits.
    + eapply denotes_allDigits; eassumption.
    + eapply denotes_nonempty; eassumption.
Qed.

Lemma plainText_stepText (x : step) :
  isPlain x = true -> isPlainText (stepText x) = true.
Proof.
  destruct x as [|[z|]]; [reflexivity| |discriminate].
  simpl isPlain. intros Hz. apply Z.ltb_lt in Hz.
  unfold stepText, isPlainText.
  change (joinText (toValue (Note (Int z)))) with (numberToString (Int z)).
  unfold numberToString, magnitudeToString.
  assert (Hdig : forall n, isEmpty (decimal n) = false
                           /\ allOf isPlainChar (decimal n) = true).
  { intros n. pose proof (decimal_denotes n) as H. split.
    - eapply denotes_nonempty; eassumption.
    - eapply allOf_impl; [|eapply denotes_allDigits; eassumption].
      intros c Hc. unfold isPlainChar. now rewrite Hc. }
  destruct (z <? 0) eqn:E.
  - apply Z.ltb_lt in E.
    replace (Z.to_N (- z) <? 10 ^ 21)%N with true
      by (symmetry; apply N.ltb_lt; lia).
    destruct (Hdig (Z.to_N (- z))) as [_ Hd].
    rewrite allOf_cons, Hd. reflexivity.
  - apply Z.ltb_ge in E.
    replace (Z.to_N z <? 10 ^ 21)%N with true
      by (symmetry; apply N.ltb_lt; lia).
    destruct (Hdig (Z.to_N z)) as [Hn Hd]. now rewrite Hn, Hd.
Qed.

Section RoundTrip.
Variable parseInner : string -> M (list step).

Lemma processToken_plain (x : step) (outputPattern : list step) (st : State) :
  isPlain x = true ->
  processToken parseInner defaults outputPattern (stepText x) st
  = (Ok (outputPattern ++ [x]), st).
Proof.
  destruct x as [|[z|]]; [reflexivity| |discriminate].
  simpl isPlain. intros Hz. apply Z.ltb_lt in Hz.
  unfold stepText.
  change (joinText (toValue (Note (Int z)))) with (numberToString (Int z)).
  unfold processToken, tryCatch.
  rewrite isNumeric_numberToString, parseInt_numberToString by assumption.
  reflexivity.
Qed.

Lemma forEachToken_plain (s : list step) :
  forall outputPattern st,
    forallb isPlain s = true ->
    forEachToken parseInner defaults (map stepText s) outputPattern st
    = (Ok (outputPattern ++ s), st).
Proof.
  induction s as [|x s IH]; intros outputPattern st H.
  - simpl. now rewrite app_nil_r.
  - simpl forallb in H. apply andb_true_iff in H. destruct H as [Hx Hs].
    cbn [map forEachToken]. unfold bind.
    rewrite processToken_plain by assumption.
    rewrite IH by assumption. now rewrite <- app_assoc.
Qed.

End RoundTrip.

(** Printing a sequence of rests and integer notes below 10^21 in
    magnitude and compiling the text gives the sequence back. *)
Lemma round_trip_plain (s : list step) (st : State) :
  s <> [] -> forallb isPlain s = true ->
  parsePattern (patternToString s) defaults st
  = (Ok s, mkState 0 (random st) (drawn st) (console st)).
Proof.
  intros Hne Hs.
  assert (Htexts : forallb isPlainText (map stepText s) = true).
  { rewrite forallb_forall in *. intros t Ht. apply in_map_iff in Ht.
    destruct Ht as (x & <- & Hx). now apply plainText_stepText, Hs. }
  assert (Hjoin : patternToString s = join " " (map stepText s)).
  { unfold patternToString, patternToStringLoose. now rewrite map_map. }
  rewrite Hjoin. unfold parsePattern.
  assert (Hfull : isEmpty (join " " (map stepText s)) = false).
  { destruct s as [|x s']; [congruence|]. cbn [map forallb] in *.
    apply andb_true_iff in Htexts. destruct Htexts as [Hx _].
    unfold isPlainText in Hx. apply andb_true_iff in Hx.
    destruct Hx as [Hx _]. apply negb_true_iff in Hx.
    destruct (stepText x); [discriminate|].
    destruct (map stepText s'); reflexivity. }
  rewrite Hfull.
  change (fuelFor defaults) with 11%nat.
  cbn [parsePatternString]. unfold bind, getDepth, setDepth, incrementDepth,
    decrementDepth, bind, getDepth, setDepth, ret. cbn [debug defaults].
  cbn [currentDepth maxRecursionDepth defaults Z.gtb Z.compare].
  rewrite matchTokens_join by assumption.
  destruct (map stepText s) as [|t ts] eqn:E.
  { destruct s; [congruence | discriminate]. }
  rewrite <- E, forEachToken_plain by assumption.
  reflexivity.
Qed.

(** From 10^21 on a note is printed in the exponential form, which the
    compiler reads as its first digit. *)
Example large_note_is_not_read_back :
  fst (parsePattern "1000000000000000000000" defaults initialState)
  = Ok [Note (Int (10 ^ 21))]
  /\ patternToString [Note (Int (10 ^ 21))] = "1e+21"
  /\ fst (parsePattern "1e+21" defaults initialState) = Ok [Note (Int 1)].
Proof. split; [|split]; reflexivity. Qed.

(** ** More on texts and tokens *)

Import Shapes.

Lemma allOf_split (p q : ascii -> bool) (s : string) :
  allOf p (takeWhile q s) = true -> allOf p (dropWhile q s) = true ->
  allOf p s = true.
Proof.
  intros H1 H2. rewrite <- (takeWhile_dropWhile q s), allOf_app.
  now rewrite H1, H2.
Qed.

Lemma allOf_trim (p : ascii -> bool) (s : string) :
  (forall c, isSpace c = true -> p c = true) ->
  allOf p (trim s) = true -> allOf p s = true.
Proof.
  intros Hsp H. unfold trim, trimEnd, trimStart in H.
  rewrite allOf_reverse in H.
  apply (allOf_split p isSpace).
  - eapply allOf_impl; [exact Hsp | apply allOf_takeWhile].
  - rewrite <- allOf_reverse. apply (allOf_split p isSpace); [|exact H].
    eapply allOf_impl; [exact Hsp | apply allOf_takeWhile].
Qed.

Lemma radixDigit_isWord (radix : Z) (c : ascii) :
  isRadixDigit radix c = true -> isWord c = true.
Proof.
  unfold isRadixDigit, digitValue, isWord, isLower, isUpper.
  destruct (isDigit c); [intros _; now rewrite !orb_true_r|].
  unfold inRange.
  destruct ((97 <=? code c)%N && (code c <=? 102)%N) eqn:E1.
  - intros _. apply andb_true_iff in E1. destruct E1 as [H1 H2].
    apply N.leb_le in H2.
    rewrite H1. replace (code c <=? 122)%N with true; [reflexivity|].
    symmetry. apply N.leb_le. lia.
  - destruct ((65 <=? code c)%N && (code c <=? 70)%N) eqn:E2; [|discriminate].
    intros _. apply andb_true_iff in E2. destruct E2 as [H1 H2].
    apply N.leb_le in H2.
    rewrite H1. replace (code c <=? 90)%N with true;
      [now rewrite orb_true_r|].
    symmetry. apply N.leb_le. lia.
Qed.

Lemma isDigit_isWord (c : ascii) : isDigit c = true -> isWord c = true.
Proof. unfold isWord. intros ->. now rewrite !orb_true_r. Qed.

Lemma word_isLiteralChar (c : ascii) :
  isWord c = true -> isLiteralChar c = true.
Proof. unfold isLiteralChar. now intros ->. Qed.

Lemma headIs_cons (c : ascii) (s : string) :
  headIs c s = true -> s = String c (drop 1 s).
Proof.
  destruct s as [|d r]; [discriminate|]. simpl. intros H.
  apply Ascii.eqb_eq in H. now subst d.
Qed.

Lemma allOf_literal_head (c : ascii) (s : string) :
  isLiteralChar c = true -> headIs c s = true ->
  allOf isLiteralChar (drop 1 s) = true -> allOf isLiteralChar s = true.
Proof.
  intros Hc Hh Hr. rewrite (headIs_cons c s Hh), allOf_cons. now rewrite Hc.
Qed.

Lemma prefixedLiteral_chars (t : string) :
  isPrefixedLiteral t = true -> allOf isLiteralChar t = true.
Proof.
  unfold isPrefixedLiteral. intros H.
  apply andb_true_iff in H. destruct H as [H0 H].
  assert (Hbody : forall radix,
             negb (isEmpty (drop 2 t))
             && allOf (isRadixDigit radix) (drop 2 t) = true ->
             allOf isLiteralChar (drop 2 t) = true).
  { intros radix Hb. apply andb_true_iff in Hb. destruct Hb as [_ Hb].
    eapply allOf_impl; [|exact Hb].
    intros c Hc. eapply word_isLiteralChar, radixDigit_isWord, Hc. }
  apply (allOf_literal_head "0"); [reflexivity | assumption |].
  assert (Hx : forall c, isLiteralChar c = true ->
                         headIs c (drop 1 t) = true ->
                         allOf isLiteralChar (drop 2 t) = true ->
                         allOf isLiteralChar (drop 1 t) = true).
  { intros c Hc Hh Hr. apply (allOf_literal_head c); try assumption.
    destruct t as [|a [|b r]]; try discriminate. exact Hr. }
  destruct (headIs "x" (drop 1 t)) eqn:Ex;
    [apply (Hx "x"%char); [reflexivity | assumption | eapply Hbody, H]|].
  destruct (headIs "X" (drop 1 t)) eqn:EX;
    [apply (Hx "X"%char); [reflexivity | assumption | eapply Hbody, H]|].
  cbn [orb] in H.
  destruct (headIs "o" (drop 1 t)) eqn:Eo;
    [apply (Hx "o"%char); [reflexivity | assumption | eapply Hbody, H]|].
  destruct (headIs "O" (drop 1 t)) eqn:EO;
    [apply (Hx "O"%char); [reflexivity | assumption | eapply Hbody, H]|].
  cbn [orb] in H.
  destruct (headIs "b" (drop 1 t)) eqn:Eb;
    [apply (Hx "b"%char); [reflexivity | assumption | eapply Hbody, H]|].
  destruct (headIs "B" (drop 1 t)) eqn:EB;
    [apply (Hx "B"%char); [reflexivity | assumption | eapply Hbody, H]|].
  discriminate.
Qed.

Lemma digits_literal (s : string) :
  allOf isDigit s = true -> allOf isLiteralChar s = true.
Proof.
  apply allOf_impl. intros c Hc. now apply word_isLiteralChar, isDigit_isWord.
Qed.

Lemma exponentOpt_chars (s : string) :
  isExponentOpt s = true -> allOf isLiteralChar s = true.
Proof.
  unfold isExponentOpt. intros H. apply orb_true_iff in H.
  destruct H as [H | H]; [now destruct s|].
  apply andb_true_iff in H. destruct H as [He H].
  apply andb_true_iff in H. destruct H as [_ Hd].
  assert (Hrest : allOf isLiteralChar (drop 1 s) = true).
  { destruct (headIs "+" (drop 1 s)) eqn:Ep.
    - apply (allOf_literal_head "+"); [reflexivity | assumption |].
      now apply digits_literal.
    - destruct (headIs "-" (drop 1 s)) eqn:Em.
      + apply (allOf_literal_head "-"); [reflexivity | assumption |].
        now apply digits_literal.
      + now apply digits_literal. }
  apply orb_true_iff in He. destruct He as [He | He].
  - now apply (allOf_literal_head "e").
  - now apply (allOf_literal_head "E").
Qed.

Lemma unsignedDecimal_chars (s : string) :
  isUnsignedDecimal s = true -> allOf isLiteralChar s = true.
Proof.
  unfold isUnsignedDecimal.
  destruct (String.eqb_spec s "Infinity") as [->|_]; [reflexivity|].
  intros H. apply (allOf_split _ isDigit).
  { apply digits_literal, allOf_takeWhile. }
  destruct (headIs "." (dropWhile isDigit s)) eqn:Edot.
  - apply andb_true_iff in H. destruct H as [_ H].
    apply (allOf_literal_head "."); [reflexivity | assumption |].
    apply (allOf_split _ isDigit).
    + apply digits_literal, allOf_takeWhile.
    + now apply exponentOpt_chars.
  - apply andb_true_iff in H. destruct H as [_ H].
    now apply exponentOpt_chars.
Qed.

Lemma decimalLiteral_chars (t : string) :
  isDecimalLiteral t = true -> allOf isLiteralChar t = true.
Proof.
  unfold isDecimalLiteral. intros H.
  destruct (headIs "+" t) eqn:Ep.
  - apply (allOf_literal_head "+"); [reflexivity | assumption |].
    now apply unsignedDecimal_chars.
  - destruct (headIs "-" t) eqn:Em.
    + apply (allOf_literal_head "-"); [reflexivity | assumption |].
      now apply unsignedDecimal_chars.
    + now apply unsignedDecimal_chars.
Qed.

(** A text that [Number] reads as a number holds only characters of
    numeric literals. *)
Lemma isNumeric_chars (s : string) :
  isNumeric s = true -> allOf isLiteralChar s = true.
Proof.
  unfold isNumeric. intros H.
  apply allOf_trim.
  { intros c Hc. unfold isLiteralChar. rewrite Hc. now rewrite !orb_true_r. }
  apply orb_true_iff in H. destruct H as [H | H].
  - apply orb_true_iff in H. destruct H as [H | H].
    + now destruct (trim s).
    + now apply prefixedLiteral_chars.
  - now apply decimalLiteral_chars.
Qed.

Lemma allOf_false_app (p : ascii -> bool) (a : string) (c : ascii) (b : string) :
  p c = false -> allOf p (a ++ String c b) = false.
Proof.
  intros Hc. rewrite allOf_app, allOf_cons, Hc. apply andb_false_r.
Qed.

Lemma not_numeric_with (c : ascii) (a b : string) :
  isLiteralChar c = false -> isNumeric (a ++ String c b) = false.
Proof.
  intros Hc. apply not_true_is_false. intros H.
  apply isNumeric_chars in H. now rewrite allOf_false_app in H.
Qed.

(** The first piece of [split]: a text without the separator is one
    piece. *)
Lemma split_none (c : ascii) (s : string) :
  allOf (without c) s = true -> split c s = [s].
Proof.
  induction s as [|d r IH]; [reflexivity|]. rewrite allOf_cons.
  intros H. apply andb_true_iff in H. destruct H as [Hd Hr].
  unfold without in Hd. apply negb_true_iff in Hd.
  cbn [split]. rewrite Ascii.eqb_sym, Hd, (IH Hr). reflexivity.
Qed.

Lemma split_once (c : ascii) (a b : string) :
  allOf (without c) a = true -> allOf (without c) b = true ->
  split c (a ++ String c b) = [a; b].
Proof.
  intros Ha Hb. induction a as [|d r IH].
  - cbn [append split]. rewrite Ascii.eqb_refl. now rewrite split_none.
  - rewrite allOf_cons in Ha. apply andb_true_iff in Ha.
    destruct Ha as [Hd Hr]. unfold without in Hd. apply negb_true_iff in Hd.
    cbn [append split]. rewrite Ascii.eqb_sym, Hd, (IH Hr). reflexivity.
Qed.

Lemma prefix_app (p b : string) : String.prefix p (p ++ b) = true.
Proof.
  induction p as [|c p IH]; [now destruct b|]. simpl.
  destruct (ascii_dec c c); [exact IH | congruence].
Qed.

Lemma includes_here (p s : string) :
  String.prefix p s = true -> includes p s = true.
Proof. destruct s; simpl; now intros ->. Qed.

Lemma includes_app (p a b : string) : includes p (a ++ p ++ b) = true.
Proof.
  induction a as [|c r IH].
  - change ("" ++ p ++ b)%string with (p ++ b)%string.
    apply includes_here, prefix_app.
  - cbn [append includes]. rewrite IH. apply orb_true_r.
Qed.

Lemma includes_absent (c : ascii) (p s : string) :
  allOf (without c) s = true -> includes (String c p) s = false.
Proof.
  induction s as [|d r IH]; [reflexivity|]. rewrite allOf_cons.
  intros H. apply andb_true_iff in H. destruct H as [Hd Hr].
  unfold without in Hd. apply negb_true_iff in Hd.
  cbn [includes String.prefix].
  destruct (ascii_dec c d) as [->|Hn]; [now rewrite Ascii.eqb_refl in Hd|].
  rewrite (IH Hr). reflexivity.
Qed.

Lemma isTransformCall_no_bracket (s : string) :
  allOf (without "[") s = true -> isTransformCall s = false.
Proof.
  intros H. unfold isTransformCall.
  destruct (dropWhile isWord s) as [|c r] eqn:E; [apply andb_false_r|].
  assert (Hc : allOf (without "[") (String c r) = true)
    by (rewrite <- E; now apply allOf_dropWhile).
  rewrite allOf_cons in Hc. apply andb_true_iff in Hc. destruct Hc as [Hc _].
  unfold without in Hc. apply negb_true_iff in Hc. rewrite Hc.
  apply andb_false_r.
Qed.

Lemma startsWith_absent (c : ascii) (s : string) :
  allOf (without c) s = true -> startsWith (String c "") s = false.
Proof.
  destruct s as [|d r]; [reflexivity|]. rewrite allOf_cons. intros H.
  apply andb_true_iff in H. destruct H as [Hd _].
  unfold without in Hd. apply negb_true_iff in Hd.
  unfold startsWith. simpl.
  destruct (ascii_dec c d) as [->|]; [now rewrite Ascii.eqb_refl in Hd|].
  reflexivity.
Qed.




(** ** The claims *)

(** C1.  [rotate] by the length of the sequence gives the sequence back,
    for every sequence.  A parameter 0 does not: [param || 1] reads 0 as
    no parameter, so [rotate0] moves the sequence by one place, exactly
    as [rotate1] does, where the claim asks for the identity. *)
Theorem rotate_zero_rotates_by_one (st : State) :
  transformPattern "rotate0" [Note (Int 1); Note (Int 2); Note (Int 3)] st
  = (Ok [Note (Int 2); Note (Int 3); Note (Int 1)], st)
  /\ (forall s,
        transformPattern "rotate0" s st = transformPattern "rotate1" s st)
  /\ (forall s,
        transformPattern ("rotate" ++ decimal (N.of_nat (List.length s))) s st
        = (Ok s, st)).
Proof.
  split; [reflexivity|]. split; [reflexivity|].
  intros s. apply rotate_by_length.
Qed.

(** C2, the claim as stated, refuted: a value that is not numeric-looking
    is returned as it is, not as a rest. *)
Lemma normalizePattern_keeps_text :
  normalizePattern [VStr "abc"] = [VStr "abc"]
  /\ normalize_spec [VStr "abc"] = [VStr "-"]
  /\ normalizePattern [VStr "abc"] <> normalize_spec [VStr "abc"].
Proof. split; [reflexivity|]. split; [reflexivity | discriminate]. Qed.

(** C2, amended.  [normalizePattern] maps the rest symbol, [undefined] and
    [null] to the rest symbol, a value in which [parseInt] reads an integer
    to that integer (up to 2^53; beyond it to the nearest double), and
    leaves every other value as it is.  A second pass changes nothing
    when every number read is printed in plain decimal, that is below
    10^21. *)
Theorem normalizePattern_amended (pattern : list value) :
  Forall2 normalized pattern (normalizePattern pattern)
  /\ (forallb plainItem pattern = true ->
      normalizePattern (normalizePattern pattern) = normalizePattern pattern).
Proof.
  split.
  - unfold normalizePattern.
    induction pattern as [|item rest IH]; constructor; [|exact IH].
    unfold normalized, normalizeItem.
    destruct (isRestOrAbsent item); [reflexivity|].
    destruct (parseInt (valueToString item)) as [z|]; [|reflexivity].
    destruct (Z.leb_spec (Z.abs z) (2 ^ 53)) as [Hz | Hz].
    + now rewrite toDouble_exact.
    + destruct (Z.abs (toDouble z) <? 2 ^ 1024); [reflexivity|].
      now exists (Int (toDouble z)).
  - intros Hsafe. unfold normalizePattern. rewrite map_map.
    apply map_ext_in. intros item Hin. apply normalizeItem_idempotent.
    rewrite forallb_forall in Hsafe. now apply Hsafe.
Qed.

Lemma normalizePattern_amended_witness :
  normalizePattern
    (normalizePattern
       [VStr "-"; VNull; VStr "12"; VStr "abc"; VNum (Int 5);
        VStr "9007199254740993"])
  = normalizePattern
      [VStr "-"; VNull; VStr "12"; VStr "abc"; VNum (Int 5);
       VStr "9007199254740993"].
Proof.
  apply (proj2 (normalizePattern_amended
                  [VStr "-"; VNull; VStr "12"; VStr "abc"; VNum (Int 5);
                   VStr "9007199254740993"])).
  reflexivity.
Defined.

(** C3.  The round trip fails on a flat pattern: the token [Infinity]
    passes the test [!isNaN(token)] and [parseInt] turns it into [NaN];
    the sequence is printed as the text NaN, which compiles to the empty
    sequence.  The flat path of src/unnamed/part_002 does the same.  On
    sequences of rests and integer notes the round trip holds
    ([round_trip_plain]). *)
Theorem infinity_breaks_round_trip (st : State) :
  fst (parsePattern "Infinity" defaults st) = Ok [Note NaN]
  /\ patternToString [Note NaN] = "NaN"
  /\ fst (parsePattern (patternToString [Note NaN]) defaults st) = Ok []
  /\ fst (Final.parsePattern "Infinity" defaults st) = Ok [Note NaN]
  /\ fst (Final.parsePattern (patternToString [Note NaN]) defaults st)
     = Ok [].
Proof. split; [|split; [|split; [|split]]]; reflexivity. Qed.

(** C4.  With group probability 0 and a random source that repeats every
    note three times, the turn that starts at index 15 adds three notes:
    the sequence asked for with length 16 has 18 elements.  What holds
    of the non-grouped path is in [createRandomPattern_flat]: elements
    within the bounds, and a length from 16 to 19. *)
Theorem repetition_overshoots_length :
  exists seq st',
    createRandomPattern nonGrouped (mkState 0 tripletSource 0 [])
    = (Ok seq, st')
    /\ seq = List.repeat (Note (Int 50)) 18
    /\ List.length seq = 18%nat.
Proof. eexists _, _. split; [|split]; vm_compute; reflexivity. Qed.

(** C5.  A compilation does not always return.  The counter of the loop
    that repeats a group is a double: from 2^53 on [i++] leaves it where
    it is, so with a count above 2^53 and a group that compiles to the
    empty sequence the loop never ends, in src/lib/parser2.js and in
    src/unnamed/part_002, and also past the depth bound, where every
    group compiles to the empty sequence.  What holds: a compilation
    raises nothing, it returns a sequence or does not return; it returns
    for every pattern whose numbers are small, no run of hexadecimal
    digits being longer than 13 characters; and past [maxRecursionDepth]
    a transformation, a group with such a count or a group adds nothing to
    the output. *)
Theorem huge_repeat_count_never_returns (st : State) :
  fst (parsePattern "[]*99999999999999999999" defaults st) = Diverges
  /\ fst (Final.parsePattern "[x]*99999999999999999999" defaults st)
     = Diverges
  /\ fst (processToken (parsePatternString 0 defaults) defaults []
            "[1 2]*99999999999999999999"
            (mkState 11 (random st) (drawn st) (console st)))
     = Diverges
  /\ (forall pattern options,
        (exists seq st', parsePattern pattern options st = (Ok seq, st'))
        \/ (exists st', parsePattern pattern options st = (Diverges, st')))
  /\ (forall pattern options,
        (exists seq st', Final.parsePattern pattern options st = (Ok seq, st'))
        \/ (exists st',
              Final.parsePattern pattern options st = (Diverges, st')))
  /\ (forall pattern options,
        countsAreSmall pattern = true ->
        exists seq st', parsePattern pattern options st = (Ok seq, st'))
  /\ (forall fuel config outputPattern token,
        currentDepth st > maxRecursionDepth config ->
        isBracketToken token = true ->
        countsAreSmall token = true ->
        exists st',
          processToken (parsePatternString fuel config) config
            outputPattern token st
          = (Ok outputPattern, st')
          /\ currentDepth st' = currentDepth st)
  /\ (forall fuel config depth result token,
        depth > maxRecursionDepth config ->
        isFinalBracketToken token = true ->
        countsAreSmall token = true ->
        exists st',
          Final.processToken (Final.parsePatternString fuel config depth)
            config result token st
          = (Ok result, st')).
Proof.
  refine (conj _ (conj _ (conj _ (conj _ (conj _ (conj _ (conj _ _))))))).
  - unfold parsePattern. cbv -[forLoop].
    rewrite forLoop_idle by reflexivity. reflexivity.
  - unfold Final.parsePattern. cbv -[forLoop].
    rewrite forLoop_idle by reflexivity. reflexivity.
  - cbv -[forLoop]. rewrite forLoop_idle by reflexivity. reflexivity.
  - intros pattern options. apply parsePattern_finishes.
  - intros pattern options. apply Final_parsePattern_finishes.
  - intros pattern options. apply parsePattern_returns.
  - intros fuel config outputPattern token. apply bracket_token_past_bound.
  - intros fuel config depth result token.
    apply Final_bracket_token_past_bound.
Qed.

Lemma huge_repeat_count_never_returns_witness :
  (exists seq st',
     parsePattern "[1 [2 3]*4] 0x1F" defaults initialState = (Ok seq, st'))
  /\ (exists st',
        processToken (parsePatternString 0 defaults) defaults [Note (Int 7)]
          "[1 2]*3" (mkState 11 (fun _ => half) 0 [])
        = (Ok [Note (Int 7)], st')
        /\ currentDepth st' = 11)
  /\ (exists st',
        Final.processToken (Final.parsePatternString 0 defaults 11) defaults
          [Note (Int 7)] "[1 [2]]" initialState
        = (Ok [Note (Int 7)], st')).
Proof.
  split; [|split].
  - apply (huge_repeat_count_never_returns initialState). reflexivity.
  - apply (huge_repeat_count_never_returns (mkState 11 (fun _ => half) 0 []));
      reflexivity.
  - apply (huge_repeat_count_never_returns initialState); reflexivity.
Defined.

(** Twelve brackets deep, in part_002: the eleventh level is past the
    default bound and the note is lost, the rest of the input is kept;
    ten brackets deep the note is kept. *)
Example nesting_is_truncated :
  Final.parsePattern "[[[[[[[[[[[[1]]]]]]]]]]]] 2" defaults initialState
  = (Ok [Note (Int 2)],
     withError initialState
       "Maximum recursion depth (10) exceeded. Pattern may have circular references.")
  /\ Final.parsePattern "[[[[[[[[[[1]]]]]]]]]] 2" defaults initialState
     = (Ok [Note (Int 1); Note (Int 2)], initialState).
Proof. split; reflexivity. Qed.

(** With [maxRecursionDepth] 0 in src/lib/parser2.js the group is past
    the bound and adds nothing. *)
Example group_past_bound :
  fst (parsePattern "[1 2] 3" (mkConfig false 0 false Rest false)
         initialState)
  = Ok [Note (Int 3)].
Proof. reflexivity. Qed.




(** C7.  In src/lib/parser2.js [scale2[1 2 3]] compiles to the notes 2,
    4, 6, with no diagnostic. *)
Theorem compile_scale2 (st : State) :
  parsePattern "scale2[1 2 3]" defaults st
  = (Ok [Note (Int 2); Note (Int 4); Note (Int 6)],
     mkState 0 (random st) (drawn st) (console st)).
Proof. reflexivity. Qed.

(** The rewrite of part_002 reads the name of a transformation one
    character at a time before it meets the bracket, so the digit of
    [scale2] is a note of its own. *)
Remark final_scale2 (st : State) :
  Final.parsePattern "scale2[1 2 3]" defaults st
  = (Ok [Note (Int 2); Note (Int 2); Note (Int 4); Note (Int 6)], st).
Proof. reflexivity. Qed.

(** C8.  [[1 2]*3] compiles to the notes 1, 2, 1, 2, 1, 2, with no
    diagnostic, in src/lib/parser2.js and in the rewrites of part_001 and
    part_002. *)
Theorem compile_group_repeat (st : State) :
  parsePattern "[1 2]*3" defaults st
  = (Ok [Note (Int 1); Note (Int 2); Note (Int 1); Note (Int 2);
         Note (Int 1); Note (Int 2)],
     mkState 0 (random st) (drawn st) (console st))
  /\ Fixed.parsePattern "[1 2]*3" defaults st
     = (Ok [Note (Int 1); Note (Int 2); Note (Int 1); Note (Int 2);
            Note (Int 1); Note (Int 2)], st)
  /\ Final.parsePattern "[1 2]*3" defaults st
     = (Ok [Note (Int 1); Note (Int 2); Note (Int 1); Note (Int 2);
            Note (Int 1); Note (Int 2)], st).
Proof. split; [|split]; reflexivity. Qed.

(** C9, the claim as stated, refuted: the leading letters of [Xscale2],
    [Xscale], are no registry entry, and the sequence is scaled all the
    same, since the expression finds [scale] after the first letter. *)
Lemma uppercase_prefix_is_scaled :
  inRegistry (lettersPrefix "Xscale2") = false
  /\ transformPattern "Xscale2" [Note (Int 1); Note (Int 2)] initialState
     = (Ok [Note (Int 2); Note (Int 4)], initialState).
Proof. split; reflexivity. Qed.

(** C9, amended.  When the first run of lower-case letters of the name,
    wherever it starts, is no registry entry, or the name has no
    lower-case letter, [transformPattern] returns the sequence unchanged
    and the state changes by one diagnostic only. *)
Theorem unselected_transform_is_identity
    (name : string) (s : list step) (st : State) :
  selectsRegistered name = false ->
  exists msg, transformPattern name s st = (Ok s, withError st msg).
Proof.
  unfold selectsRegistered, selected, transformPattern. intros H.
  destruct (matchTransform name) as [[transform digits]|];
    [|eexists; reflexivity].
  simpl in H. unfold inRegistry, registry in H. cbn [existsb] in H.
  repeat (apply orb_false_iff in H; destruct H as [E H]; rewrite E; clear E).
  eexists; reflexivity.
Qed.

Lemma unselected_transform_is_identity_witness :
  exists msg,
    transformPattern "bogus3" [Note (Int 1); Rest] initialState
    = (Ok [Note (Int 1); Rest], withError initialState msg).
Proof.
  apply unselected_transform_is_identity. reflexivity.
Defined.

(** C10.  [transformPattern] raises an exception to its caller: with a
    parameter of 2^32, [repeat] asks for an array longer than an array can
    be.  Inside a compilation the [catch] of the token loop turns the
    exception into a diagnostic and the token adds nothing.  This is the
    only case in which [transformPattern] does not return
    ([transformPattern_throws_iff]). *)
Theorem repeat_huge_parameter_throws (st : State) :
  transformPattern "repeat4294967296" [Note (Int 1)] st
  = (Throw "Invalid array length", st)
  /\ fst (parsePattern "repeat4294967296[1] 2" defaults st)
     = Ok [Note (Int 2)].
Proof. split; reflexivity. Qed.

(** * Further properties *)

Import Generator.

(** ** The transformation engine *)

Lemma takeWhile_app_all (p : ascii -> bool) (s t : string) :
  allOf p s = true -> takeWhile p (s ++ t) = (s ++ takeWhile p t)%string.
Proof.
  induction s as [|c r IH]; [reflexivity|]. rewrite allOf_cons. intros H.
  apply andb_true_iff in H. destruct H as [Hc Hr]. simpl. now rewrite Hc, IH.
Qed.

Lemma dropWhile_app_all (p : ascii -> bool) (s t : string) :
  allOf p s = true -> dropWhile p (s ++ t) = dropWhile p t.
Proof.
  induction s as [|c r IH]; [reflexivity|]. rewrite allOf_cons. intros H.
  apply andb_true_iff in H. destruct H as [Hc Hr]. simpl. now rewrite Hc, IH.
Qed.

Lemma matchTransform_named (name digits : string) :
  allOf isLower name = true -> isEmpty name = false ->
  allOf isDigit digits = true ->
  matchTransform (name ++ digits) = Some (name, digits).
Proof.
  intros Hn Hne Hd. unfold matchTransform.
  destruct name as [|c r]; [discriminate|].
  pose proof Hn as Hn'. rewrite allOf_cons in Hn'.
  apply andb_true_iff in Hn'. destruct Hn' as [Hc _].
  assert (E : dropWhile (fun c0 => negb (isLower c0)) (String c r ++ digits)
              = (String c r ++ digits)%string).
  { simpl. now rewrite Hc. }
  rewrite E. cbn [isEmpty append].
  change (String c (r ++ digits)) with (String c r ++ digits)%string.
  rewrite takeWhile_app_all, dropWhile_app_all by assumption.
  rewrite takeWhile_lower_digits, dropWhile_lower_digits, takeWhile_all
    by assumption.
  now rewrite append_empty_r.
Qed.

Lemma matchTransform_decimal (name : string) (p : N) :
  allOf isLower name = true -> isEmpty name = false ->
  matchTransform (name ++ decimal p) = Some (name, decimal p).
Proof.
  intros. apply matchTransform_named; try assumption.
  eapply denotes_allDigits, decimal_denotes.
Qed.

Lemma paramOf_decimal (p : N) : paramOf (decimal p) = Some (Int (Z.of_N p)).
Proof.
  unfold paramOf.
  rewrite (denotes_nonempty _ _ (decimal_denotes p)), parseInt_decimal.
  reflexivity.
Qed.

Lemma transformPattern_invert (p : N) (s : list step) :
  transformPattern ("invert" ++ decimal p) s
  = ret (mapNotes (fun note => sub (mul (Int (Z.of_N p)) (Int 2)) note) s).
Proof.
  unfold transformPattern.
  rewrite matchTransform_decimal by reflexivity.
  rewrite paramOf_decimal. reflexivity.
Qed.

Lemma transformPattern_scale (p : N) (s : list step) :
  transformPattern ("scale" ++ decimal p) s
  = ret (mapNotes (fun note => mul note (Int (Z.of_N p))) s).
Proof.
  unfold transformPattern.
  rewrite matchTransform_decimal by reflexivity.
  rewrite paramOf_decimal. reflexivity.
Qed.

Lemma transformPattern_offset (p : N) (s : list step) :
  transformPattern ("offset" ++ decimal p) s
  = ret (mapNotes (fun note => add note (Int (Z.of_N p))) s).
Proof.
  unfold transformPattern.
  rewrite matchTransform_decimal by reflexivity.
  rewrite paramOf_decimal. reflexivity.
Qed.

Lemma transformPattern_quantize (p : N) (s : list step) :
  transformPattern ("quantize" ++ decimal p) s
  = ret (mapNotes (fun note => roundToMultiple note (Int (Z.of_N p))) s).
Proof.
  unfold transformPattern.
  rewrite matchTransform_decimal by reflexivity.
  rewrite paramOf_decimal. reflexivity.
Qed.

Lemma transformPattern_repeat (p : N) (s : list step) :
  transformPattern ("repeat" ++ decimal p) s
  = flatMapM (fun note => Array_fill (Int (Z.of_N p)) note) s.
Proof.
  unfold transformPattern.
  rewrite matchTransform_decimal by reflexivity.
  rewrite paramOf_decimal. reflexivity.
Qed.

Lemma transformPattern_sparse (p : N) (s : list step) :
  transformPattern ("sparse" ++ decimal p) s
  = mapM (fun note =>
            r <- Math_random ;;
            ret (if Qltb r (sparseProbability (Some (Int (Z.of_N p))))
                 then Rest else note)) s.
Proof.
  unfold transformPattern.
  rewrite matchTransform_decimal by reflexivity.
  rewrite paramOf_decimal. reflexivity.
Qed.

(** X1.  [reverse] applied twice gives the sequence back, and leaves the
    state alone. *)
Theorem reverse_twice (s : list step) (st : State) :
  (r <- transformPattern "reverse" s ;; transformPattern "reverse" r) st
  = (Ok s, st).
Proof.
  change (transformPattern "reverse" s) with (ret (rev s)).
  unfold bind, ret.
  change (transformPattern "reverse" (rev s) st) with (Ok (rev (rev s)), st).
  now rewrite rev_involutive.
Qed.

Lemma mirror_is_palindrome (s : list step) :
  rev (s ++ rev (removelast s)) = s ++ rev (removelast s).
Proof.
  destruct s as [|x s'] using rev_ind; [reflexivity|].
  rewrite removelast_last, rev_app_distr, rev_involutive, rev_app_distr.
  simpl. now rewrite <- app_assoc.
Qed.

(** X2.  [mirror] gives a palindrome that starts with the sequence; a
    sequence of n steps, n at least 1, gives 2n - 1 steps and the empty
    sequence gives the empty sequence. *)
Theorem mirror_reads_both_ways (s : list step) (st : State) :
  exists r,
    transformPattern "mirror" s st = (Ok r, st)
    /\ rev r = r
    /\ firstn (List.length s) r = s
    /\ List.length r = (2 * List.length s - 1)%nat.
Proof.
  exists (s ++ rev (removelast s)). split; [reflexivity|].
  split; [apply mirror_is_palindrome|]. split.
  - rewrite firstn_app, Nat.sub_diag, firstn_all. simpl. apply app_nil_r.
  - rewrite length_app, length_rev.
    destruct s as [|x s'] using rev_ind; [reflexivity|].
    rewrite removelast_last, length_app. simpl. lia.
Qed.

(** X3.  [interleave] doubles the length: the steps of the sequence stand
    at the even places, in their order, and a rest at every odd place. *)
Theorem interleave_alternates (s : list step) (st : State) :
  exists r,
    transformPattern "interleave" s st = (Ok r, st)
    /\ List.length r = (2 * List.length s)%nat
    /\ forall i, (i < List.length s)%nat ->
         nth_error r (2 * i) = nth_error s i
         /\ nth_error r (2 * i + 1) = Some Rest.
Proof.
  exists (flat_map (fun note => [note; Rest]) s). split; [reflexivity|].
  induction s as [|x s' IH]; [split; [reflexivity | intros i Hi; inversion Hi]|].
  destruct IH as [Hlen Hnth]. split.
  - cbn [flat_map List.length app]. rewrite Hlen. lia.
  - intros [|i] Hi; [split; reflexivity|].
    cbn [List.length] in Hi. apply Nat.succ_lt_mono in Hi.
    destruct (Hnth i Hi) as [H1 H2].
    replace (2 * S i)%nat with (S (S (2 * i))) by lia.
    replace (S (S (2 * i)) + 1)%nat with (S (S (2 * i + 1))) by lia.
    split; assumption.
Qed.

Lemma mapNotes_mapNotes (f g : number -> number) (s : list step) :
  mapNotes f (mapNotes g s) = mapNotes (fun n => f (g n)) s.
Proof.
  unfold mapNotes. rewrite map_map. apply map_ext. now intros [|n].
Qed.

Lemma mapNotes_id (f : number -> number) (s : list step) :
  (forall x, In (Note x) s -> f x = x) -> mapNotes f s = s.
Proof.
  intros H. unfold mapNotes. rewrite <- (map_id s) at 2.
  apply map_ext_in. intros [|n] Hin; [reflexivity|]. now rewrite H.
Qed.

(** X4.  Inverting twice around the same pivot gives the sequence back.
    The bounds keep the arithmetic within the integers a double holds
    exactly. *)
Theorem invert_twice (p : N) (s : list step) (st : State) :
  Z.of_N p < 2 ^ 51 -> forallb (exactStep (2 ^ 51)) s = true ->
  (r <- transformPattern ("invert" ++ decimal p) s ;;
   transformPattern ("invert" ++ decimal p) r) st
  = (Ok s, st).
Proof.
  intros _ _. rewrite transformPattern_invert. unfold bind, ret.
  rewrite transformPattern_invert. unfold ret.
  rewrite mapNotes_mapNotes, mapNotes_id; [reflexivity|].
  intros [z|] _; [|reflexivity]. simpl. f_equal. lia.
Qed.

Lemma invert_twice_witness :
  (r <- transformPattern ("invert" ++ decimal 5) [Note (Int 3); Rest; Note (Int 12)] ;;
   transformPattern ("invert" ++ decimal 5) r) initialState
  = (Ok [Note (Int 3); Rest; Note (Int 12)], initialState).
Proof. apply invert_twice; reflexivity. Defined.

(** X5.  Two offsets in a row are the offset by the sum of their
    parameters. *)
Theorem offset_then_offset (a b : N) (s : list step) (st : State) :
  Z.of_N a < 2 ^ 51 -> Z.of_N b < 2 ^ 51 ->
  forallb (exactStep (2 ^ 51)) s = true ->
  (r <- transformPattern ("offset" ++ decimal a) s ;;
   transformPattern ("offset" ++ decimal b) r) st
  = transformPattern ("offset" ++ decimal (a + b)) s st.
Proof.
  intros _ _ _. rewrite !transformPattern_offset. unfold bind, ret.
  rewrite transformPattern_offset. unfold ret.
  rewrite mapNotes_mapNotes. do 2 f_equal.
  unfold mapNotes. apply map_ext. intros [|[z|]]; try reflexivity.
  simpl. do 2 f_equal. lia.
Qed.

Lemma offset_then_offset_witness :
  (r <- transformPattern ("offset" ++ decimal 3) [Note (Int 1); Rest] ;;
   transformPattern ("offset" ++ decimal 4) r) initialState
  = transformPattern ("offset" ++ decimal (3 + 4)) [Note (Int 1); Rest]
      initialState.
Proof. apply offset_then_offset; reflexivity. Defined.

Lemma roundToMultiple_nearest (a p : Z) :
  0 < p ->
  exists b, roundToMultiple (Int a) (Int p) = Int b
            /\ (p | b) /\ 2 * Z.abs (b - a) <= p.
Proof.
  intros Hp. unfold roundToMultiple.
  replace (p =? 0) with false by (symmetry; apply Z.eqb_neq; lia).
  replace (0 <? p) with true by (symmetry; apply Z.ltb_lt; lia).
  eexists. split; [reflexivity|]. split.
  - apply Z.divide_factor_r.
  - pose proof (Z.div_mod (2 * a + p) (2 * p) ltac:(lia)) as E.
    pose proof (Z.mod_pos_bound (2 * a + p) (2 * p) ltac:(lia)) as B.
    nia.
Qed.

Lemma roundToMultiple_fixed (k p : Z) :
  0 < p -> roundToMultiple (Int (k * p)) (Int p) = Int (k * p).
Proof.
  intros Hp. unfold roundToMultiple.
  replace (p =? 0) with false by (symmetry; apply Z.eqb_neq; lia).
  replace (0 <? p) with true by (symmetry; apply Z.ltb_lt; lia).
  do 2 f_equal.
  symmetry. apply (Z.div_unique_pos _ _ _ p); lia.
Qed.

(** X6.  With a parameter p above 0 and below 2^50, and integer notes
    below 2^50 in magnitude, where the arithmetic of a double is exact,
    [quantize] moves every note to a multiple of p at most p / 2 away,
    keeps the rests, and changes nothing when applied again. *)
Theorem quantize_nearest_multiple (p : N) (s : list step) (st : State) :
  0 < Z.of_N p < 2 ^ 50 -> forallb (exactStep (2 ^ 50)) s = true ->
  exists r,
    transformPattern ("quantize" ++ decimal p) s st = (Ok r, st)
    /\ Forall2 (quantized (Z.of_N p)) s r
    /\ transformPattern ("quantize" ++ decimal p) r st = (Ok r, st).
Proof.
  intros [Hp _] _. rewrite transformPattern_quantize.
  eexists. split; [reflexivity|]. split.
  - induction s as [|x s' IH]; [constructor|]. cbn [mapNotes map].
    constructor; [|exact IH].
    destruct x as [|[a|]]; try exact I.
    destruct (roundToMultiple_nearest a (Z.of_N p) Hp) as (b & E & H).
    unfold quantized. now rewrite E.
  - rewrite transformPattern_quantize. unfold ret. do 2 f_equal.
    rewrite mapNotes_mapNotes. unfold mapNotes. apply map_ext.
    intros [|[a|]]; try reflexivity.
    destruct (roundToMultiple_nearest a (Z.of_N p) Hp) as (b & E & [k ->] & _).
    rewrite E. now rewrite roundToMultiple_fixed.
Qed.

Lemma quantize_nearest_multiple_witness :
  exists r,
    transformPattern ("quantize" ++ decimal 5) [Note (Int 12); Rest; Note (Int 13)]
      initialState = (Ok r, initialState)
    /\ Forall2 (quantized 5) [Note (Int 12); Rest; Note (Int 13)] r
    /\ transformPattern ("quantize" ++ decimal 5) r initialState
       = (Ok r, initialState).
Proof. apply (quantize_nearest_multiple 5); [lia | reflexivity]. Defined.

(** X7.  With the parameter 0, [quantize] divides by zero: every note
    becomes [NaN], and the rests stay. *)
Theorem quantize_by_zero (s : list step) (st : State) :
  transformPattern "quantize0" s st
  = (Ok (mapNotes (fun _ => NaN) s), st).
Proof.
  change (transformPattern "quantize0" s)
    with (ret (mapNotes (fun note => roundToMultiple note (Int 0)) s)).
  unfold ret. do 2 f_equal. unfold mapNotes. apply map_ext.
  intros [|[z|]]; reflexivity.
Qed.


Lemma flatMapM_fill (n : Z) (s : list step) (st : State) :
  0 <= n <= 4294967295 ->
  flatMapM (fun note => Array_fill (Int n) note) s st
  = (Ok (flat_map (fun note => List.repeat note (Z.to_nat n)) s), st).
Proof.
  intros Hn. induction s as [|x s' IH]; [reflexivity|].
  cbn [flatMapM flat_map]. unfold bind at 1. unfold Array_fill at 1.
  replace ((0 <=? n) && (n <=? 4294967295)) with true
    by (symmetry; apply andb_true_iff; split; apply Z.leb_le; lia).
  unfold ret at 1. unfold bind. rewrite IH. reflexivity.
Qed.

(** X8.  As long as the result fits an array (2^32 - 1 elements),
    [repeat] with parameter p puts p copies of every step in place of the
    step: the result has p times the length, and [repeat0] gives the
    empty sequence. *)
Theorem repeat_copies_each_step (p : N) (s : list step) (st : State) :
  (p <= 4294967295)%N -> (p * N.of_nat (List.length s) <= 4294967295)%N ->
  exists r,
    transformPattern ("repeat" ++ decimal p) s st = (Ok r, st)
    /\ r = flat_map (fun note => List.repeat note (N.to_nat p)) s
    /\ List.length r = (N.to_nat p * List.length s)%nat.
Proof.
  intros Hp _. rewrite transformPattern_repeat, flatMapM_fill by lia.
  replace (Z.to_nat (Z.of_N p)) with (N.to_nat p) by lia. eexists. split; [reflexivity|]. split; [reflexivity|].
  induction s as [|x s' IH]; [simpl; lia|].
  cbn [flat_map List.length]. rewrite length_app, repeat_length, IH. lia.
Qed.

Lemma repeat_copies_each_step_witness :
  exists r,
    transformPattern ("repeat" ++ decimal 2) [Note (Int 1); Rest] initialState
    = (Ok r, initialState)
    /\ r = flat_map (fun note => List.repeat note (N.to_nat 2))
             [Note (Int 1); Rest]
    /\ List.length r = (N.to_nat 2 * List.length [Note (Int 1); Rest])%nat.
Proof.
  apply repeat_copies_each_step; vm_compute; discriminate.
Defined.

(** X9.  The arithmetic transformations [invert], [scale], [offset] and
    [quantize] keep the length and the places of the rests, for every
    parameter, and leave the state alone. *)
Theorem arithmetic_keeps_rests (name : string) (p : N) (s : list step)
    (st : State) :
  In name arithmetic ->
  exists r,
    transformPattern (name ++ decimal p) s st = (Ok r, st)
    /\ Forall2 sameKind s r.
Proof.
  assert (H : forall f, Forall2 sameKind s (mapNotes f s)).
  { intros f. induction s as [|x s' IH]; [constructor|].
    constructor; [now destruct x | exact IH]. }
  intros Hin. simpl in Hin.
  destruct Hin as [<- | [<- | [<- | [<- | []]]]].
  - rewrite transformPattern_invert. eexists. split; [reflexivity | apply H].
  - rewrite transformPattern_scale. eexists. split; [reflexivity | apply H].
  - rewrite transformPattern_offset. eexists. split; [reflexivity | apply H].
  - rewrite transformPattern_quantize. eexists. split; [reflexivity | apply H].
Qed.

Lemma arithmetic_keeps_rests_witness :
  exists r,
    transformPattern ("scale" ++ decimal 2) [Note (Int 1); Rest] initialState
    = (Ok r, initialState)
    /\ Forall2 sameKind [Note (Int 1); Rest] r.
Proof. apply arithmetic_keeps_rests. right; left; reflexivity. Defined.

Lemma length_setAt (i : nat) (x : step) (a : list step) :
  List.length (setAt i x a) = List.length a.
Proof.
  revert i. induction a as [|y r IH]; intros [|k]; simpl; auto.
Qed.

Lemma Permutation_set_head (x d : step) (r : list step) (j : nat) :
  (j < List.length r)%nat ->
  Permutation (x :: r) (nth j r d :: setAt j x r).
Proof.
  revert j. induction r as [|z r' IH]; intros j Hj; [inversion Hj|].
  destruct j as [|k].
  - simpl. apply perm_swap.
  - simpl in Hj. apply Nat.succ_lt_mono in Hj. simpl.
    eapply perm_trans; [apply perm_swap|].
    eapply perm_trans; [apply perm_skip, (IH k Hj)|].
    apply perm_swap.
Qed.

Lemma Permutation_swap (i j : nat) (a : list step) :
  (i < List.length a)%nat -> (j < List.length a)%nat ->
  Permutation a (swap i j a).
Proof.
  unfold swap, getAt. revert i j.
  induction a as [|x r IH]; intros i j Hi Hj; [inversion Hi|].
  destruct i as [|i'], j as [|j']; simpl in Hi, Hj |- *.
  - apply Permutation_refl.
  - apply Permutation_set_head. lia.
  - apply Permutation_set_head. lia.
  - apply perm_skip, IH; lia.
Qed.

Lemma length_swap (i j : nat) (a : list step) :
  List.length (swap i j a) = List.length a.
Proof. unfold swap. now rewrite !length_setAt. Qed.

Lemma shuffleFrom_permutes (i : nat) :
  forall array st, (i < List.length array)%nat ->
  exists r,
    shuffleFrom i array st
    = (Ok r, mkState (currentDepth st) (random st) (drawn st + i) (console st))
    /\ Permutation array r.
Proof.
  induction i as [|k IH]; intros array st Hi.
  - exists array. split; [|apply Permutation_refl].
    simpl. unfold ret. rewrite Nat.add_0_r. now destruct st.
  - cbn [shuffleFrom]. unfold bind, Math_random.
    set (j := Z.to_nat (floorMul (drawValue (random st (drawn st)))
                          (Z.of_nat (S k) + 1))).
    assert (Hj : (j <= S k)%nat).
    { destruct (draw_in_unit (random st (drawn st))) as [H0 H1].
      pose proof (floorMul_bounds _ (Z.of_nat (S k) + 1) H0 H1 ltac:(lia)).
      unfold j. lia. }
    destruct (IH (swap (S k) j array)
                (mkState (currentDepth st) (random st) (S (drawn st))
                   (console st))) as (r & E & Hperm).
    { rewrite length_swap. lia. }
    exists r. split.
    + rewrite E. cbn [currentDepth random drawn console].
      do 2 f_equal. lia.
    + eapply perm_trans; [|exact Hperm]. apply Permutation_swap; lia.
Qed.

(** X10.  [scramble] returns a permutation of the sequence; it reads one
    random number for each step but the first and writes nothing to the
    console. *)
Theorem scramble_permutes (s : list step) (st : State) :
  exists r,
    transformPattern "scramble" s st
    = (Ok r, mkState (currentDepth st) (random st)
               (drawn st + (List.length s - 1)) (console st))
    /\ Permutation s r.
Proof.
  change (transformPattern "scramble" s) with (shuffleArray s).
  unfold shuffleArray. destruct s as [|x s'].
  - exists []. split; [|constructor]. simpl. unfold ret.
    rewrite Nat.add_0_r. now destruct st.
  - apply shuffleFrom_permutes. simpl. lia.
Qed.

Lemma mapM_sparse (q : Q) (s : list step) :
  forall st,
  exists r,
    mapM (fun note =>
            r <- Math_random ;;
            ret (if Qltb r q then Rest else note)) s st
    = (Ok r, mkState (currentDepth st) (random st)
               (drawn st + List.length s) (console st))
    /\ Forall2 thinned s r
    /\ ((1 <= q)%Q -> r = map (fun _ => Rest) s).
Proof.
  induction s as [|x s' IH]; intros st.
  - exists []. split; [|split; [constructor | reflexivity]].
    simpl. unfold ret. rewrite Nat.add_0_r. now destruct st.
  - cbn [mapM].
    destruct (IH (mkState (currentDepth st) (random st) (S (drawn st))
                    (console st))) as (r & E & Hthin & Hall).
    erewrite bind_Ok by (unfold bind, Math_random, ret; reflexivity).
    erewrite bind_Ok by exact E.
    cbn [currentDepth random drawn console].
    eexists. split; [|split].
    + unfold ret. do 2 f_equal. cbn [List.length]. lia.
    + constructor; [|exact Hthin].
      destruct (Qltb _ q); [now left | now right].
    + intros Hq. rewrite (Hall Hq). cbn [map]. f_equal.
      unfold Qltb.
      destruct (draw_in_unit (random st (drawn st))) as [_ H1].
      replace (Qle_bool q (drawValue (random st (drawn st)))) with false;
        [reflexivity|].
      symmetry. apply not_true_is_false. intros Hle.
      apply Qle_bool_iff in Hle.
      apply (Qlt_irrefl 1). eapply Qle_lt_trans; [exact Hq|].
      eapply Qle_lt_trans; [exact Hle | exact H1].
Qed.

(** X11.  [sparse] keeps the length: every step is kept or replaced by a
    rest, one random number is read for each step, and from the parameter
    100 on every step becomes a rest. *)
Theorem sparse_thins (p : N) (s : list step) (st : State) :
  exists r,
    transformPattern ("sparse" ++ decimal p) s st
    = (Ok r, mkState (currentDepth st) (random st)
               (drawn st + List.length s) (console st))
    /\ Forall2 thinned s r
    /\ ((100 <= p)%N -> r = map (fun _ => Rest) s).
Proof.
  rewrite transformPattern_sparse.
  destruct (mapM_sparse (sparseProbability (Some (Int (Z.of_N p)))) s st)
    as (r & E & Hthin & Hall).
  exists r. split; [exact E|]. split; [exact Hthin|].
  intros Hp. apply Hall. unfold sparseProbability.
  replace (Z.of_N p =? 0) with false by (symmetry; apply Z.eqb_neq; lia).
  unfold Qle, Qdiv, Qmult, Qinv, inject_Z. simpl. lia.
Qed.

Lemma firstn_plus (k j : nat) (s : list step) :
  firstn (k + j) s = firstn k s ++ firstn j (skipn k s).
Proof.
  rewrite firstn_skipn_comm.
  rewrite <- (firstn_skipn k (firstn (k + j) s)) at 1.
  f_equal. rewrite firstn_firstn. f_equal. lia.
Qed.

Lemma rotation_rotation (j k : nat) (s : list step) :
  (j < List.length s)%nat -> (k < List.length s)%nat ->
  rotation j (rotation k s)
  = rotation ((k + j) mod List.length s) s.
Proof.
  intros Hj Hk. unfold rotation.
  destruct (Nat.lt_ge_cases (k + j) (List.length s)) as [Hlt | Hge].
  - rewrite Nat.mod_small by assumption.
    rewrite skipn_app, firstn_app, length_skipn.
    replace (j - (List.length s - k))%nat with 0%nat by lia.
    simpl. rewrite app_nil_r, skipn_skipn, <- app_assoc.
    rewrite (Nat.add_comm j k). f_equal.
    rewrite firstn_plus. reflexivity.
  - assert (E : ((k + j) mod List.length s = k + j - List.length s)%nat).
    { replace (k + j)%nat
        with (k + j - List.length s + 1 * List.length s)%nat at 1 by lia.
      rewrite Nat.Div0.mod_add. apply Nat.mod_small. lia. }
    rewrite E. set (m := (k + j - List.length s)%nat).
    rewrite skipn_app, firstn_app, length_skipn.
    replace (j - (List.length s - k))%nat with m by (unfold m; lia).
    rewrite (skipn_all2 (skipn k s)) by (rewrite length_skipn; lia).
    rewrite (firstn_all2 (skipn k s)) by (rewrite length_skipn; lia).
    simpl. rewrite firstn_firstn.
    replace (Nat.min m k) with m by (unfold m; lia).
    rewrite app_assoc. f_equal.
    rewrite <- (firstn_skipn k s) at 3.
    rewrite skipn_app, length_firstn.
    replace (m - Nat.min k (List.length s))%nat with 0%nat by (unfold m; lia).
    reflexivity.
Qed.

Lemma length_rotation (k : nat) (s : list step) :
  List.length (rotation k s) = List.length s.
Proof.
  unfold rotation. rewrite length_app, Nat.add_comm, <- length_app.
  now rewrite firstn_skipn.
Qed.

Lemma normalizedSteps_mod (p : Z) (n : nat) :
  0 <= p -> (0 < n)%nat ->
  Z.to_nat (Z.rem (Z.rem p (Z.of_nat n) + Z.of_nat n) (Z.of_nat n))
  = (Z.to_nat p mod n)%nat.
Proof.
  intros Hp Hn.
  assert (E1 : Z.rem p (Z.of_nat n) = p mod Z.of_nat n)
    by (apply Z.rem_mod_nonneg; lia).
  rewrite E1.
  pose proof (Z.mod_pos_bound p (Z.of_nat n) ltac:(lia)) as B.
  rewrite Z.rem_mod_nonneg by lia.
  rewrite <- (Z.mul_1_l (Z.of_nat n)) at 2.
  rewrite Z.mod_add, Z.mod_mod by lia.
  rewrite <- (Z2Nat.id p) at 1 by assumption.
  rewrite <- Nat2Z.inj_mod. apply Nat2Z.id.
Qed.

Lemma transformPattern_rotate_by (p : N) (s : list step) (st : State) :
  (0 < p)%N ->
  transformPattern ("rotate" ++ decimal p) s st
  = (Ok (rotation (N.to_nat p mod List.length s) s), st).
Proof.
  intros Hp.
  rewrite (transformPattern_rotate _ (decimal p))
    by (apply matchTransform_rotate; eapply denotes_allDigits, decimal_denotes).
  rewrite paramOf_decimal. cbv zeta. unfold orOne.
  replace (Z.of_N p =? 0) with false by (symmetry; apply Z.eqb_neq; lia).
  destruct (Z.leb_spec (Z.of_nat (List.length s)) 1) as [Hle | Hgt].
  - unfold ret, rotation. do 2 f_equal.
    destruct s as [|x [|y s']]; [| | simpl in Hle; lia].
    + now rewrite skipn_nil, firstn_nil.
    + simpl List.length. now rewrite Nat.mod_1_r.
  - unfold ret, rotation. rewrite normalizedSteps_mod by lia.
    now replace (Z.to_nat (Z.of_N p)) with (N.to_nat p) by lia.
Qed.

(** X12.  Two rotations in a row, each by a parameter of at least 1, are
    the rotation by the sum of the parameters, for a sum below 2^53. *)
Theorem rotate_then_rotate (a b : N) (s : list step) (st : State) :
  (0 < a)%N -> (0 < b)%N -> Z.of_N (a + b) < 2 ^ 53 ->
  (r <- transformPattern ("rotate" ++ decimal a) s ;;
   transformPattern ("rotate" ++ decimal b) r) st
  = transformPattern ("rotate" ++ decimal (a + b)) s st.
Proof.
  intros Ha Hb _. unfold bind.
  rewrite !transformPattern_rotate_by by lia.
  rewrite length_rotation. do 2 f_equal.
  destruct s as [|x s'].
  { assert (E : forall k, rotation k [] = [])
      by (intros k; unfold rotation; now rewrite skipn_nil, firstn_nil).
    now rewrite !E. }
  set (n := List.length (x :: s')).
  assert (Hn : (0 < n)%nat) by (unfold n; simpl; lia).
  rewrite rotation_rotation by (apply Nat.mod_upper_bound; lia).
  fold n. f_equal.
  rewrite <- Nat.Div0.add_mod. f_equal. lia.
Qed.

Lemma rotate_then_rotate_witness :
  (r <- transformPattern ("rotate" ++ decimal 2)
          [Note (Int 1); Note (Int 2); Note (Int 3)] ;;
   transformPattern ("rotate" ++ decimal 2) r) initialState
  = transformPattern ("rotate" ++ decimal (2 + 2))
      [Note (Int 1); Note (Int 2); Note (Int 3)] initialState.
Proof. apply rotate_then_rotate; reflexivity. Defined.

(** X13.  [transformPattern] either returns a sequence or raises the
    RangeError of [Array]; it raises only when the name selects [repeat],
    the parameter is no array length and the sequence is not empty, and
    then the state is untouched. *)
Theorem transformPattern_raises_only_for_long_repeat
    (name : string) (s : list step) (st : State) :
  (exists seq st', transformPattern name s st = (Ok seq, st'))
  \/ (transformPattern name s st = (Throw "Invalid array length", st)
      /\ exists digits p,
           matchTransform name = Some ("repeat", digits)
           /\ paramOf digits = Some p
           /\ isArrayLength p = false /\ s <> []).
Proof.
  pose proof (transformPattern_throws_iff name s st) as H.
  unfold repeatsTooLong in *.
  destruct (matchTransform name) as [[transform digits]|] eqn:Em; [|now left].
  destruct (String.eqb_spec transform "repeat") as [->|]; [|now left].
  destruct s as [|x s']; [rewrite andb_false_r in H; now left|].
  destruct (paramOf digits) as [p|] eqn:Ep; [|now left].
  destruct (isArrayLength p) eqn:E; [now left|].
  right. split; [exact H|]. exists digits, p.
  split; [reflexivity|]. split; [exact Ep|]. split; [exact E | discriminate].
Qed.

(** ** Tokens and single-token patterns of src/lib/parser2.js *)

(** *** The text of a plain sequence *)

Lemma content_chars (ts : list string) :
  forallb isPlainText ts = true ->
  allOf isContentChar (join " " ts) = true.
Proof.
  induction ts as [|t ts IH]; [reflexivity|]. simpl forallb.
  intros H. apply andb_true_iff in H. destruct H as [Ht Hts].
  unfold isPlainText in Ht. apply andb_true_iff in Ht. destruct Ht as [_ Ht].
  assert (Hb : allOf isContentChar t = true).
  { eapply allOf_impl; [|exact Ht]. intros c Hc. unfold isContentChar.
    now rewrite Hc. }
  destruct ts as [|u us]; [exact Hb|].
  change (join " " (t :: u :: us))
    with (t ++ String " " (join " " (u :: us)))%string.
  rewrite allOf_app, Hb, allOf_cons, IH by assumption. reflexivity.
Qed.

Lemma plainTexts (s : list step) :
  forallb isPlain s = true -> forallb isPlainText (map stepText s) = true.
Proof.
  intros Hs. rewrite forallb_forall in *. intros t Ht.
  apply in_map_iff in Ht. destruct Ht as (x & <- & Hx).
  now apply plainText_stepText, Hs.
Qed.

Lemma patternToString_join (s : list step) :
  patternToString s = join " " (map stepText s).
Proof. unfold patternToString, patternToStringLoose. now rewrite map_map. Qed.

Lemma patternToString_chars (s : list step) :
  forallb isPlain s = true -> allOf isContentChar (patternToString s) = true.
Proof.
  intros Hs. rewrite patternToString_join. now apply content_chars, plainTexts.
Qed.

Lemma dropWhile_head (p : ascii -> bool) (s : string) :
  dropWhile p s = s ->
  forall t, isEmpty s = false -> dropWhile p (s ++ t) = (s ++ t)%string.
Proof.
  destruct s as [|c r]; [discriminate|]. simpl.
  destruct (p c) eqn:E; [|reflexivity].
  intros H. exfalso.
  assert (L : (String.length (dropWhile p r) <= String.length r)%nat).
  { clear. induction r as [|d r IH]; simpl; [lia|].
    destruct (p d); simpl; lia. }
  rewrite H in L. simpl in L. lia.
Qed.

Lemma isEmpty_reverse (s : string) : isEmpty (reverse s) = isEmpty s.
Proof.
  destruct s as [|c r]; [reflexivity|]. rewrite reverse_cons.
  now destruct (reverse r).
Qed.

Lemma reverse_injective (a b : string) : reverse a = reverse b -> a = b.
Proof.
  intros H. rewrite <- (reverse_involutive a), <- (reverse_involutive b).
  now rewrite H.
Qed.

(** [trimEnd] leaves a text alone when it leaves its end alone. *)
Lemma trimEnd_app (a b : string) :
  isEmpty b = false -> trimEnd b = b -> trimEnd (a ++ b) = (a ++ b)%string.
Proof.
  unfold trimEnd. intros Hne Hb.
  assert (Hd : dropWhile isSpace (reverse b) = reverse b).
  { apply reverse_injective. now rewrite Hb, reverse_involutive. }
  rewrite reverse_app, (dropWhile_head _ _ Hd)
    by now rewrite isEmpty_reverse.
  now rewrite <- reverse_app, reverse_involutive.
Qed.

Lemma plainText_trim (t : string) : isPlainText t = true -> trim t = t.
Proof.
  unfold isPlainText. intros H. apply andb_true_iff in H.
  destruct H as [_ H]. apply trim_no_space.
  eapply allOf_impl; [|exact H]. intros c Hc.
  unfold isPlainChar in Hc. apply orb_true_iff in Hc.
  destruct Hc as [Hc | Hc]; [now rewrite isDigit_not_space|].
  apply Ascii.eqb_eq in Hc. now subst c.
Qed.

Lemma plainText_trimEnd (t : string) : isPlainText t = true -> trimEnd t = t.
Proof.
  intros H. pose proof (plainText_trim t H) as E. unfold trim in E.
  assert (Hs : trimStart t = t).
  { unfold trimStart. apply dropWhile_none.
    unfold isPlainText in H. apply andb_true_iff in H. destruct H as [_ H].
    eapply allOf_impl; [|exact H]. intros c Hc.
    unfold isPlainChar in Hc. apply orb_true_iff in Hc.
    destruct Hc as [Hc | Hc]; [now rewrite isDigit_not_space|].
    apply Ascii.eqb_eq in Hc. now subst c. }
  now rewrite Hs in E.
Qed.

Lemma plainText_nonempty (t : string) : isPlainText t = true -> isEmpty t = false.
Proof.
  unfold isPlainText. intros H. apply andb_true_iff in H.
  destruct H as [H _]. now apply negb_true_iff in H.
Qed.

Lemma join_nonempty (ts : list string) :
  ts <> [] -> forallb isPlainText ts = true -> isEmpty (join " " ts) = false.
Proof.
  destruct ts as [|t ts]; [congruence|]. intros _ H. simpl forallb in H.
  apply andb_true_iff in H. destruct H as [Ht _].
  apply plainText_nonempty in Ht. destruct t; [discriminate|].
  destruct ts; reflexivity.
Qed.

Lemma join_trimEnd (ts : list string) :
  ts <> [] -> forallb isPlainText ts = true ->
  trimEnd (join " " ts) = join " " ts.
Proof.
  induction ts as [|t ts IH]; [congruence|]. intros _ H. simpl forallb in H.
  apply andb_true_iff in H. destruct H as [Ht Hts].
  destruct ts as [|u us]; [now apply plainText_trimEnd|].
  change (join " " (t :: u :: us))
    with (t ++ (String " " (join " " (u :: us))))%string.
  apply trimEnd_app; [reflexivity|].
  change (String " " (join " " (u :: us)))
    with (" " ++ join " " (u :: us))%string.
  apply trimEnd_app.
  - apply join_nonempty; [discriminate | assumption].
  - apply IH; [discriminate | assumption].
Qed.

Lemma join_trim (ts : list string) :
  ts <> [] -> forallb isPlainText ts = true ->
  trim (join " " ts) = join " " ts.
Proof.
  intros Hne H. unfold trim.
  assert (Hs : trimStart (join " " ts) = join " " ts).
  { unfold trimStart. destruct ts as [|t ts]; [congruence|].
    simpl forallb in H. apply andb_true_iff in H. destruct H as [Ht _].
    pose proof (plainText_nonempty t Ht) as Hn.
    pose proof (plainText_trim t Ht) as Et. unfold isPlainText in Ht.
    apply andb_true_iff in Ht. destruct Ht as [_ Ht].
    destruct t as [|c r]; [discriminate|].
    rewrite allOf_cons in Ht. apply andb_true_iff in Ht. destruct Ht as [Hc _].
    assert (Hsp : isSpace c = false).
    { unfold isPlainChar in Hc. apply orb_true_iff in Hc.
      destruct Hc as [Hc | Hc]; [now apply isDigit_not_space|].
      apply Ascii.eqb_eq in Hc. now subst c. }
    destruct ts as [|u us]; simpl; now rewrite Hsp. }
  rewrite Hs. now apply join_trimEnd.
Qed.

Lemma patternToString_trim (s : list step) :
  s <> [] -> forallb isPlain s = true ->
  trim (patternToString s) = patternToString s.
Proof.
  intros Hne Hs. rewrite patternToString_join. apply join_trim.
  - destruct s; [congruence | discriminate].
  - now apply plainTexts.
Qed.

(** Compiling the text of a plain sequence at any level within the bound
    gives the sequence and leaves the state as it was. *)
Lemma parsePatternString_plain (fuel : nat) (s : list step) (st : State) :
  s <> [] -> forallb isPlain s = true ->
  currentDepth st <= maxRecursionDepth defaults ->
  parsePatternString (S fuel) defaults (patternToString s) st = (Ok s, st).
Proof.
  intros Hne Hs Hd. rewrite patternToString_join.
  cbn [parsePatternString]. unfold bind at 1, getDepth at 1.
  replace (currentDepth st >? maxRecursionDepth defaults) with false
    by (symmetry; rewrite Z.gtb_ltb; apply Z.ltb_ge; exact Hd).
  unfold bind at 1. unfold incrementDepth, bind at 1, getDepth, setDepth.
  rewrite matchTokens_join by now apply plainTexts.
  destruct (map stepText s) as [|t ts] eqn:E.
  { destruct s; [congruence | discriminate]. }
  rewrite <- E. unfold bind at 1.
  rewrite forEachToken_plain by assumption.
  cbn [normalizePitches defaults app]. unfold decrementDepth, bind, getDepth,
    setDepth, ret. cbn [currentDepth random drawn console].
  replace (currentDepth st + 1 - 1) with (currentDepth st) by lia.
  now destruct st.
Qed.

(** *** One token *)

Lemma scan_single (t : string) :
  isEmpty t = false -> matchAt t = Some t -> matchTokens t = [t].
Proof.
  unfold matchTokens. destruct t as [|c r]; [discriminate|]. intros _ H.
  cbn [scan]. rewrite H. cbn [String.length]. rewrite Nat.sub_1_r.
  cbn [Nat.pred]. f_equal.
  replace (scan (String.length r) r) with (scan (String.length r) (r ++ ""))
    by now rewrite append_empty_r.
  now rewrite scan_skip.
Qed.

Lemma parsePatternString_step (fuel : nat) (config : Config) (pattern : string) :
  parsePatternString (S fuel) config pattern
  = (d <- getDepth ;;
     if d >? maxRecursionDepth config then
       console_error ("Maximum recursion depth ("
                      ++ numberToString (Int (maxRecursionDepth config))
                      ++ ") exceeded. Pattern may have circular references.") ;;;
       ret []
     else
       incrementDepth ;;;
       match matchTokens pattern with
       | [] =>
           (if debug config
            then console_error "No valid tokens found in pattern"
            else ret tt) ;;;
           decrementDepth ;;;
           ret []
       | tokens =>
           outputPattern <-
             forEachToken (parsePatternString fuel config) config tokens [] ;;
           let outputPattern' :=
             if normalizePitches config
             then normalizeSteps outputPattern
             else outputPattern in
           decrementDepth ;;;
           ret outputPattern'
       end).
Proof. reflexivity. Qed.

Lemma parsePattern_single (token : string) (st st1 : State) (r : list step) :
  isEmpty token = false -> matchTokens token = [token] ->
  processToken (parsePatternString 10 defaults) defaults [] token
    (mkState 1 (random st) (drawn st) (console st)) = (Ok r, st1) ->
  currentDepth st1 = 1 ->
  parsePattern token defaults st
  = (Ok r, mkState 0 (random st1) (drawn st1) (console st1)).
Proof.
  intros Hne Htok Hrun Hd. unfold parsePattern. rewrite Hne.
  cbn [debug defaults]. change (fuelFor defaults) with 11%nat.
  rewrite parsePatternString_step, Htok. cbn [forEachToken].
  unfold bind, ret, setDepth, getDepth, incrementDepth, decrementDepth,
    bind, getDepth, setDepth.
  cbn [currentDepth random drawn console maxRecursionDepth defaults
       Z.gtb Z.compare Z.add Pos.add].
  rewrite Hrun. cbn [normalizePitches defaults]. rewrite Hd. reflexivity.
Qed.

Lemma lazyToClose_inner (content rest : string) :
  allOf isInnerChar content = true ->
  lazyToClose (content ++ String "]" rest) = Some (content ++ "]")%string.
Proof.
  induction content as [|c r IH]; [reflexivity|].
  rewrite allOf_cons. intros H. apply andb_true_iff in H.
  destruct H as [Hc Hr]. unfold isInnerChar in Hc.
  apply andb_true_iff in Hc. destruct Hc as [H1 H2].
  apply negb_true_iff in H1. apply negb_true_iff in H2.
  cbn [append lazyToClose]. rewrite H1, H2, (IH Hr). reflexivity.
Qed.

Lemma startsCloseStarDigit_inner (c : ascii) (r : string) :
  Ascii.eqb c "]" = false -> startsCloseStarDigit (String c r) = false.
Proof.
  intros H. unfold startsCloseStarDigit.
  destruct r as [|c2 [|c3 r']]; try reflexivity. now rewrite H.
Qed.

Lemma lazyToCloseStar_inner (content digits : string) :
  allOf isInnerChar content = true ->
  isEmpty digits = false -> allOf isDigit digits = true ->
  lazyToCloseStar (content ++ "]*" ++ digits)
  = Some (content ++ "]*" ++ digits)%string.
Proof.
  intros Hc Hne Hd. induction content as [|c r IH].
  - destruct digits as [|d ds]; [discriminate|].
    pose proof Hd as Hd'. rewrite allOf_cons in Hd'.
    apply andb_true_iff in Hd'. destruct Hd' as [Hd0 _].
    cbn [append lazyToCloseStar startsCloseStarDigit].
    change (Ascii.eqb "]" "]") with true. change (Ascii.eqb "*" "*") with true.
    rewrite Hd0. cbn [andb drop]. now rewrite takeWhile_all.
  - rewrite allOf_cons in Hc. apply andb_true_iff in Hc.
    destruct Hc as [Hc Hr]. unfold isInnerChar in Hc.
    apply andb_true_iff in Hc. destruct Hc as [H1 H2].
    apply negb_true_iff in H1. apply negb_true_iff in H2.
    change ((String c r ++ "]*" ++ digits)%string)
      with (String c (r ++ "]*" ++ digits)%string).
    cbn [lazyToCloseStar]. rewrite startsCloseStarDigit_inner by assumption.
    rewrite H2, (IH Hr). reflexivity.
Qed.

Lemma contentChar_inner (c : ascii) :
  isContentChar c = true -> isInnerChar c = true.
Proof.
  unfold isContentChar, isPlainChar, isInnerChar. intros H.
  apply orb_true_iff in H. destruct H as [H | H].
  - apply orb_true_iff in H. destruct H as [H | H].
    + apply isDigit_code in H. unfold isLineTerminator.
      destruct (Ascii.eqb_spec c "]") as [->|_]; [change (code "]") with 93%N in H; lia|].
      destruct (N.eqb_spec (code c) 10); [lia|].
      destruct (N.eqb_spec (code c) 13); [lia|]. reflexivity.
    + apply Ascii.eqb_eq in H. now subst c.
  - apply Ascii.eqb_eq in H. now subst c.
Qed.

Lemma contentChar_not (c d : ascii) :
  isContentChar d = false -> isContentChar c = true -> Ascii.eqb d c = false.
Proof.
  intros Hd Hc. destruct (Ascii.eqb_spec d c) as [->|]; congruence.
Qed.

Lemma slice_inner (c e : ascii) (s : string) :
  slice_1_m1 (String c (s ++ String e "")) = s.
Proof.
  unfold slice_1_m1. cbn [String.length drop].
  rewrite length_append. cbn [String.length].
  replace (S (String.length s + 1) - 2)%nat with (String.length s) by lia.
  induction s as [|d r IH]; [reflexivity|]. simpl. now rewrite IH.
Qed.

(** *** A group with a repeat count *)

Lemma decimal_digits (n : N) :
  allOf isDigit (decimal n) = true /\ isEmpty (decimal n) = false.
Proof.
  pose proof (decimal_denotes n) as H. split.
  - eapply denotes_allDigits, H.
  - eapply denotes_nonempty, H.
Qed.

Lemma content_inner (s : list step) :
  forallb isPlain s = true -> allOf isInnerChar (patternToString s) = true.
Proof.
  intros Hs. eapply allOf_impl; [apply contentChar_inner|].
  now apply patternToString_chars.
Qed.

Lemma content_without (c : ascii) (s : list step) :
  isContentChar c = false -> forallb isPlain s = true ->
  allOf (without c) (patternToString s) = true.
Proof.
  intros Hc Hs. eapply allOf_impl; [|apply patternToString_chars, Hs].
  intros d Hd. unfold without. apply negb_true_iff.
  destruct (Ascii.eqb_spec d c) as [->|]; congruence.
Qed.

Lemma digits_without (c : ascii) (d : string) :
  isDigit c = false -> allOf isDigit d = true -> allOf (without c) d = true.
Proof.
  intros Hc. apply allOf_impl. intros e He. unfold without.
  apply negb_true_iff. destruct (Ascii.eqb_spec e c) as [->|]; congruence.
Qed.

Lemma matchTokens_group_repeat (content digits : string) :
  allOf isInnerChar content = true ->
  isEmpty digits = false -> allOf isDigit digits = true ->
  matchTokens (String "[" (content ++ "]*" ++ digits))
  = [String "[" (content ++ "]*" ++ digits)].
Proof.
  intros Hc Hne Hd. apply scan_single; [reflexivity|].
  unfold matchAt.
  change (matchCall (String "[" (content ++ "]*" ++ digits))) with (@None string).
  unfold matchGroupRepeat. change (Ascii.eqb "[" "[") with true. cbv iota.
  now rewrite lazyToCloseStar_inner.
Qed.

Lemma group_repeat_splits (content digits : string) :
  allOf (without "*") content = true -> allOf isDigit digits = true ->
  splitStar (String "[" (content ++ "]*" ++ digits))
  = (String "[" (content ++ "]"), Some digits).
Proof.
  intros Hc Hd. unfold splitStar.
  change (String "[" (content ++ "]*" ++ digits))
    with (String "[" (content ++ "]" ++ String "*" digits))%string.
  replace (String "[" (content ++ "]" ++ String "*" digits))%string
    with ((String "[" (content ++ "]")) ++ String "*" digits)%string
    by (cbn [append]; now rewrite append_assoc).
  rewrite split_once; [reflexivity | |].
  - rewrite allOf_cons, allOf_app, Hc. reflexivity.
  - now apply digits_without.
Qed.

Lemma parsePattern_group_repeat (s : list step) (n : N) (st : State) :
  s <> [] -> forallb isPlain s = true -> (0 < n)%N ->
  (n * N.of_nat (List.length s) <= 4294967295)%N ->
  parsePattern ("[" ++ patternToString s ++ "]*" ++ decimal n) defaults st
  = (Ok (List.concat (List.repeat s (N.to_nat n))),
     mkState 0 (random st) (drawn st) (console st)).
Proof.
  intros Hne Hs Hn Hfit.
  destruct (decimal_digits n) as [Hd Hdne].
  set (content := patternToString s).
  change ("[" ++ content ++ "]*" ++ decimal n)%string
    with (String "[" (content ++ "]*" ++ decimal n))%string.
  set (st1 := mkState 1 (random st) (drawn st) (console st)).
  apply (parsePattern_single _ st st1); [reflexivity | | | reflexivity].
  { apply matchTokens_group_repeat; try assumption. now apply content_inner. }
  unfold processToken, tryCatch.
  change (String "[" (content ++ "]*" ++ decimal n))
    with ("" ++ String "[" (content ++ "]*" ++ decimal n))%string at 1.
  rewrite not_numeric_with by reflexivity.
  change (isTransformCall (String "[" (content ++ "]*" ++ decimal n)))
    with false. cbv iota.
  replace (includes "]*" (String "[" (content ++ "]*" ++ decimal n)))
    with true.
  2:{ symmetry.
      change (String "[" (content ++ "]*" ++ decimal n))
        with (String "[" content ++ "]*" ++ decimal n)%string.
      apply includes_app. }
  unfold handleGroupWithRepeat.
  rewrite group_repeat_splits
    by (try assumption; now apply content_without).
  cbn [isEmpty isMissing orb textOf].
  rewrite Hdne, parseInt_decimal. cbn [badCount].
  replace (Z.of_N n <=? 0) with false by (symmetry; apply Z.leb_gt; lia).
  rewrite slice_inner. unfold content.
  rewrite patternToString_trim by assumption.
  erewrite bind_Ok.
  2:{ erewrite bind_Ok by (apply parsePatternString_plain;
                           [assumption | assumption | cbn; lia]).
      apply forLoop_concat; [assumption | lia | lia]. }
  unfold ret, concatResult. replace (Z.to_nat (Z.of_N n)) with (N.to_nat n) by lia.
  now destruct (List.concat (List.repeat s (N.to_nat n))).
Qed.






(** *** A repeated step *)

Lemma matchAt_run (t : string) :
  isEmpty t = false -> allOf isRunChar t = true -> matchAt t = Some t.
Proof.
  intros Hne Ht. unfold matchAt.
  assert (Hb : allOf (without "[") t = true).
  { eapply allOf_impl; [|exact Ht]. intros c Hc. unfold isRunChar in Hc.
    apply andb_true_iff in Hc. tauto. }
  assert (Hs : allOf (fun c => negb (isSeparator c)) t = true).
  { eapply allOf_impl; [|exact Ht]. intros c Hc. unfold isRunChar in Hc.
    apply andb_true_iff in Hc. tauto. }
  rewrite matchCall_no_bracket by assumption.
  destruct t as [|c r]; [discriminate|].
  pose proof Hb as Hb'. rewrite allOf_cons in Hb'.
  apply andb_true_iff in Hb'. destruct Hb' as [Hc _].
  unfold without in Hc. apply negb_true_iff in Hc.
  unfold matchGroupRepeat, matchGroup. rewrite Hc.
  unfold matchWord. now rewrite takeWhile_all.
Qed.

Lemma plainChar_run (c : ascii) : isPlainChar c = true -> isRunChar c = true.
Proof.
  intros Hc. unfold isRunChar. rewrite (plainChar_not_bracket c Hc).
  unfold isPlainChar in Hc. apply orb_true_iff in Hc. destruct Hc as [Hc | Hc].
  - unfold isSeparator. rewrite (isDigit_not_space c Hc).
    apply isDigit_code in Hc.
    destruct (Ascii.eqb_spec c ",") as [->|_];
      [change (code ",") with 44%N in Hc; lia|].
    destruct (Ascii.eqb_spec c ";") as [->|_];
      [change (code ";") with 59%N in Hc; lia|].
    reflexivity.
  - apply Ascii.eqb_eq in Hc. now subst c.
Qed.

Lemma plainChar_without (c d : ascii) :
  isPlainChar c = false -> isPlainChar d = true -> without c d = true.
Proof.
  intros Hc Hd. unfold without. apply negb_true_iff.
  destruct (Ascii.eqb_spec d c) as [->|]; congruence.
Qed.

Lemma numeric_not_minus (t : string) :
  isNumeric t = true -> String.eqb t "-" = false.
Proof.
  intros H. destruct (String.eqb_spec t "-") as [->|]; [|reflexivity].
  discriminate.
Qed.

Section DirectRepetition.
Variable x : step.
Variable n : N.
Hypothesis plain : isPlain x = true.


Lemma repetition_text :
  isEmpty (stepText x) = false /\ allOf isPlainChar (stepText x) = true.
Proof.
  pose proof (plainText_stepText x plain) as H. unfold isPlainText in H.
  apply andb_true_iff in H. destruct H as [H1 H2].
  apply negb_true_iff in H1. now split.
Qed.

Lemma repetition_token_without (c : ascii) :
  isPlainChar c = false -> Ascii.eqb c "*" = false ->
  allOf (without c) (stepText x ++ "*" ++ decimal n)%string = true.
Proof.
  intros Hc Hs. destruct repetition_text as [_ Ht].
  destruct (decimal_digits n) as [Hd _].
  rewrite allOf_app. apply andb_true_iff. split.
  - eapply allOf_impl; [|exact Ht]. intros e. now apply plainChar_without.
  - cbn [append]. rewrite allOf_cons. apply andb_true_iff. split.
    + unfold without. now rewrite Ascii.eqb_sym, Hs.
    + apply digits_without; [|exact Hd].
      unfold isPlainChar in Hc. apply orb_false_iff in Hc. tauto.
Qed.

Lemma repetition_token_run : allOf isRunChar (stepText x ++ "*" ++ decimal n)%string = true.
Proof.
  destruct repetition_text as [_ Ht].
  destruct (decimal_digits n) as [Hd _].
  rewrite allOf_app. apply andb_true_iff. split.
  - eapply allOf_impl; [apply plainChar_run | exact Ht].
  - cbn [append]. rewrite allOf_cons. apply andb_true_iff. split;
      [reflexivity|].
    eapply allOf_impl; [|exact Hd]. intros c Hc. apply plainChar_run.
    unfold isPlainChar. now rewrite Hc.
Qed.

Lemma repetition_token_nonempty : isEmpty (stepText x ++ "*" ++ decimal n)%string = false.
Proof.
  destruct repetition_text as [Hne _].
  now destruct (stepText x).
Qed.

Lemma repetition_splits : splitStar (stepText x ++ "*" ++ decimal n)%string = ((stepText x), Some (decimal n)).
Proof.
  destruct repetition_text as [_ Ht].
  destruct (decimal_digits n) as [Hd _].
  unfold splitStar. cbn [append].
  rewrite split_once; [reflexivity | |].
  - eapply allOf_impl; [|exact Ht]. intros e. now apply plainChar_without.
  - now apply digits_without.
Qed.

Lemma repetition_dispatch (parseInner : string -> M (list step))
    (st : State) :
  processToken parseInner defaults [] (stepText x ++ "*" ++ decimal n)%string st
  = tryCatch
      (result <- handleDirectRepetition defaults (stepText x ++ "*" ++ decimal n)%string ;;
       ret (concatResult [] result))
      (fun message =>
         console_error ("Error processing token " ++ quote ++ (stepText x ++ "*" ++ decimal n)%string ++ quote
                        ++ ": " ++ message) ;;;
         ret []) st.
Proof.
  unfold processToken.
  replace (isNumeric (stepText x ++ "*" ++ decimal n)%string) with false
    by (symmetry; apply not_numeric_with; reflexivity).
  rewrite isTransformCall_no_bracket
    by (apply repetition_token_without; reflexivity).
  rewrite includes_absent by (apply repetition_token_without; reflexivity).
  change "[" with (String "[" "") at 1.
  rewrite startsWith_absent by (apply repetition_token_without; reflexivity).
  cbn [andb].
  replace (includes "*" (stepText x ++ "*" ++ decimal n)%string) with true
    by (symmetry; apply (includes_app "*" (stepText x) (decimal n))).
  reflexivity.
Qed.

Lemma repetition_value (st : State) :
  handleDirectRepetition defaults (stepText x ++ "*" ++ decimal n)%string st
  = Array_fill (Int (Z.of_N n)) x st \/ (n = 0)%N.
Proof.
  destruct (N.eq_dec n 0) as [|Hn]; [now right|left].
  destruct repetition_text as [Hne Ht].
  destruct (decimal_digits n) as [Hd Hdne].
  unfold handleDirectRepetition. rewrite repetition_splits.
  rewrite Hne. cbn [isMissing orb textOf].
  rewrite Hdne, parseInt_decimal.
  cbn [badCount].
  replace (Z.of_N n <=? 0) with false by (symmetry; apply Z.leb_gt; lia).
  destruct x as [|[z|]]; [reflexivity| |discriminate].
  unfold stepText.
  change (joinText (toValue (Note (Int z)))) with (numberToString (Int z)).
  simpl in plain. apply Z.ltb_lt in plain.
  rewrite numeric_not_minus, isNumeric_numberToString,
    parseInt_numberToString by (try apply isNumeric_numberToString; assumption).
  reflexivity.
Qed.

End DirectRepetition.

Lemma parsePattern_repetition (x : step) (n : N) (st : State) :
  isPlain x = true -> (0 < n <= 4294967295)%N ->
  parsePattern (stepText x ++ "*" ++ decimal n) defaults st
  = (Ok (List.repeat x (N.to_nat n)),
     mkState 0 (random st) (drawn st) (console st)).
Proof.
  intros Hx Hn.
  set (st1 := mkState 1 (random st) (drawn st) (console st)).
  apply (parsePattern_single _ st st1); [| | | reflexivity].
  - now apply repetition_token_nonempty.
  - apply scan_single; [now apply repetition_token_nonempty|].
    apply matchAt_run;
      [now apply repetition_token_nonempty | now apply repetition_token_run].
  - rewrite repetition_dispatch by assumption. unfold tryCatch.
    erewrite bind_Ok.
    2:{ fold st1. destruct (repetition_value x n Hx st1) as [-> | ->]; [|lia].
        unfold Array_fill.
        replace ((0 <=? Z.of_N n) && (Z.of_N n <=? 4294967295)) with true
          by (symmetry; apply andb_true_iff; split; apply Z.leb_le; lia).
        reflexivity. }
    unfold ret, concatResult.
    replace (Z.to_nat (Z.of_N n)) with (N.to_nat n) by lia.
    now destruct (List.repeat x (N.to_nat n)).
Qed.



(** Past the longest array the token adds nothing and leaves a
    diagnostic. *)
Lemma direct_repetition_too_long (x : step) (n : N) (st : State) :
  isPlain x = true -> (4294967295 < n < 2 ^ 53)%N ->
  parsePattern (stepText x ++ "*" ++ decimal n) defaults st
  = (Ok [],
     mkState 0 (random st) (drawn st)
       (console st
        ++ [Error ("Error processing token " ++ quote
                   ++ (stepText x ++ "*" ++ decimal n) ++ quote
                   ++ ": Invalid array length")])).
Proof.
  intros Hx [Hn _].
  set (st1 := mkState 1 (random st) (drawn st) (console st)).
  apply (parsePattern_single _ st
           (mkState 1 (random st) (drawn st)
              (console st
               ++ [Error ("Error processing token " ++ quote
                          ++ (stepText x ++ "*" ++ decimal n) ++ quote
                          ++ ": Invalid array length")])));
    [| | | reflexivity].
  - now apply repetition_token_nonempty.
  - apply scan_single; [now apply repetition_token_nonempty|].
    apply matchAt_run;
      [now apply repetition_token_nonempty | now apply repetition_token_run].
  - rewrite repetition_dispatch by assumption. unfold tryCatch, bind.
    fold st1. destruct (repetition_value x n Hx st1) as [-> | ->]; [|lia].
    rewrite throws_Array_fill; [reflexivity|].
    unfold isArrayLength. apply andb_false_iff. right. apply Z.leb_gt. lia.
Qed.

(** X15.  A plain step with a count n of at least 1 compiles to n copies
    of the step; above the longest array, 2^32 - 1, the token adds nothing
    and the [catch] of the token loop leaves a diagnostic. *)
Theorem direct_repetition_copies (x : step) (n : N) (st : State) :
  isPlain x = true -> (0 < n < 2 ^ 53)%N ->
  parsePattern (stepText x ++ "*" ++ decimal n) defaults st
  = if (n <=? 4294967295)%N
    then (Ok (List.repeat x (N.to_nat n)), atDepth 0 st)
    else (Ok [],
          atDepth 0
            (withError st
               ("Error processing token " ++ quote
                ++ (stepText x ++ "*" ++ decimal n) ++ quote
                ++ ": Invalid array length"))).
Proof.
  intros Hx [Hn Hup]. destruct (N.leb_spec n 4294967295) as [Hle | Hgt].
  - now apply parsePattern_repetition.
  - now apply direct_repetition_too_long.
Qed.

Lemma direct_repetition_copies_witness :
  parsePattern (stepText (Note (Int 7)) ++ "*" ++ decimal 3) defaults
    initialState
  = if (3 <=? 4294967295)%N
    then (Ok (List.repeat (Note (Int 7)) (N.to_nat 3)), atDepth 0 initialState)
    else (Ok [],
          atDepth 0
            (withError initialState
               ("Error processing token " ++ quote
                ++ (stepText (Note (Int 7)) ++ "*" ++ decimal 3) ++ quote
                ++ ": Invalid array length"))).
Proof.
  apply direct_repetition_copies; [reflexivity | split; reflexivity].
Defined.



(** *** The counter does not matter to a transformation *)

Lemma ignoresDepth_ret {A : Type} (a : A) : ignoresDepth (ret a).
Proof. intros d st. reflexivity. Qed.

Lemma ignoresDepth_throw {A : Type} (e : string) : ignoresDepth (@throw A e).
Proof. intros d st. reflexivity. Qed.

Lemma ignoresDepth_emit (x : diagnostic) : ignoresDepth (emit x).
Proof. intros d st. reflexivity. Qed.

Lemma ignoresDepth_random : ignoresDepth Math_random.
Proof. intros d st. reflexivity. Qed.

Lemma ignoresDepth_bind {A B : Type} (m : M A) (f : A -> M B) :
  ignoresDepth m -> (forall a, ignoresDepth (f a)) -> ignoresDepth (bind m f).
Proof.
  intros Hm Hf d st. unfold bind. rewrite (Hm d st).
  destruct (m st) as [[a | e | array | |] st1]; cbn [fst snd];
    [apply Hf | reflexivity ..].
Qed.

Lemma ignoresDepth_if {A : Type} (b : bool) (m1 m2 : M A) :
  ignoresDepth m1 -> ignoresDepth m2 -> ignoresDepth (if b then m1 else m2).
Proof. now destruct b. Qed.

Lemma ignoresDepth_Array_fill {A : Type} (n : number) (x : A) :
  ignoresDepth (Array_fill n x).
Proof.
  unfold Array_fill. destruct n as [z|]; [|apply ignoresDepth_throw].
  destruct ((0 <=? z) && (z <=? 4294967295));
    [apply ignoresDepth_ret | apply ignoresDepth_throw].
Qed.

Lemma ignoresDepth_flatMapM {A B : Type} (f : A -> M (list B)) (l : list A) :
  (forall x, ignoresDepth (f x)) -> ignoresDepth (flatMapM f l).
Proof.
  intros Hf. induction l as [|x r IH]; [apply ignoresDepth_ret|].
  cbn [flatMapM]. apply ignoresDepth_bind; [apply Hf|]. intros ys.
  apply ignoresDepth_bind; [exact IH|]. intros zs. apply ignoresDepth_ret.
Qed.

Lemma ignoresDepth_mapM {A B : Type} (f : A -> M B) (l : list A) :
  (forall x, ignoresDepth (f x)) -> ignoresDepth (mapM f l).
Proof.
  intros Hf. induction l as [|x r IH]; [apply ignoresDepth_ret|].
  cbn [mapM]. apply ignoresDepth_bind; [apply Hf|]. intros y.
  apply ignoresDepth_bind; [exact IH|]. intros ys. apply ignoresDepth_ret.
Qed.

Lemma ignoresDepth_shuffleFrom (i : nat) :
  forall array, ignoresDepth (shuffleFrom i array).
Proof.
  induction i as [|k IH]; intros array; [apply ignoresDepth_ret|].
  cbn [shuffleFrom]. apply ignoresDepth_bind; [apply ignoresDepth_random|].
  intros r. apply IH.
Qed.

Lemma ignoresDepth_transformPattern (name : string) (s : list step) :
  ignoresDepth (transformPattern name s).
Proof.
  unfold transformPattern, console_error, requireParam.
  destruct (matchTransform name) as [[transform digits]|].
  2:{ apply ignoresDepth_bind; [apply ignoresDepth_emit|].
      intros _. apply ignoresDepth_ret. }
  repeat match goal with
  | |- ignoresDepth (if _ then _ else _) => apply ignoresDepth_if
  | |- ignoresDepth (match paramOf digits with _ => _ end) =>
      destruct (paramOf digits)
  | |- ignoresDepth (bind _ _) => apply ignoresDepth_bind
  | |- forall _, _ => intro
  | |- ignoresDepth (let _ := _ in _) => cbv zeta
  | |- _ => first [ apply ignoresDepth_ret | apply ignoresDepth_emit
                  | apply ignoresDepth_random | apply ignoresDepth_shuffleFrom
                  | apply ignoresDepth_mapM | apply ignoresDepth_flatMapM
                  | apply ignoresDepth_Array_fill ]
  end.
Qed.

(** *** A transformation applied to a group *)

Lemma take_app (a b : string) : take (String.length a) (a ++ b) = a.
Proof. induction a as [|c r IH]; [now destruct b|]. simpl. now rewrite IH. Qed.

Lemma drop_app (a b : string) : drop (String.length a) (a ++ b) = b.
Proof. induction a as [|c r IH]; [now destruct b|]. exact IH. Qed.

Lemma indexOf_first (c : ascii) (a b : string) :
  allOf (without c) a = true ->
  indexOf c (a ++ String c b) = Some (String.length a).
Proof.
  induction a as [|d r IH]; intros H.
  - cbn [append indexOf]. now rewrite Ascii.eqb_refl.
  - rewrite allOf_cons in H. apply andb_true_iff in H. destruct H as [Hd Hr].
    unfold without in Hd. apply negb_true_iff in Hd.
    cbn [append indexOf]. rewrite Ascii.eqb_sym, Hd, (IH Hr). reflexivity.
Qed.

Lemma lastIndexOf_last (c : ascii) (a : string) :
  lastIndexOf c (a ++ String c "") = Some (String.length a).
Proof.
  induction a as [|d r IH].
  - cbn [append lastIndexOf]. now rewrite Ascii.eqb_refl.
  - cbn [append lastIndexOf]. now rewrite IH.
Qed.

Lemma word_without_bracket (name : string) :
  allOf isWord name = true -> allOf (without "[") name = true.
Proof.
  apply allOf_impl. intros c Hc. unfold without. apply negb_true_iff.
  destruct (Ascii.eqb_spec c "[") as [->|]; [discriminate | reflexivity].
Qed.

Section Call.
Variable name content : string.
Hypothesis name_word : allOf isWord name = true.
Hypothesis name_nonempty : isEmpty name = false.
Hypothesis content_inner_chars : allOf isInnerChar content = true.
Hypothesis content_nonempty : isEmpty content = false.


Lemma call_nonempty : isEmpty (name ++ String "[" (content ++ String "]" ""))%string = false.
Proof. now destruct name. Qed.

Lemma call_is_one_token : matchTokens (name ++ String "[" (content ++ String "]" ""))%string = [(name ++ String "[" (content ++ String "]" ""))%string].
Proof.
  apply scan_single; [apply call_nonempty|].
  unfold matchAt, matchCall.
  rewrite takeWhile_app_all, dropWhile_app_all by assumption.
  change (takeWhile isWord (String "[" (content ++ String "]" "")))
    with EmptyString.
  change (dropWhile isWord (String "[" (content ++ String "]" "")))
    with (String "[" (content ++ String "]" "")).
  rewrite append_empty_r, name_nonempty.
  change (dropWhile isSpace (String "[" (content ++ String "]" "")))
    with (String "[" (content ++ String "]" "")).
  change (takeWhile isSpace (String "[" (content ++ String "]" "")))
    with EmptyString.
  cbv iota. change (Ascii.eqb "[" "[") with true. cbv iota.
  rewrite lazyToClose_inner by assumption. reflexivity.
Qed.

Lemma call_is_transform_call : isTransformCall (name ++ String "[" (content ++ String "]" ""))%string = true.
Proof.
  unfold isTransformCall.
  rewrite takeWhile_app_all, dropWhile_app_all by assumption.
  change (takeWhile isWord (String "[" (content ++ String "]" "")))
    with EmptyString.
  change (dropWhile isWord (String "[" (content ++ String "]" "")))
    with (String "[" (content ++ String "]" "")).
  rewrite append_empty_r, name_nonempty.
  change (Ascii.eqb "[" "[") with true. cbn [negb andb].
  apply andb_true_iff. split.
  - unfold endsWith. rewrite reverse_snoc.
    apply (prefix_app "]" (reverse content)).
  - rewrite allOf_app. apply andb_true_iff. split; [|reflexivity].
    eapply allOf_impl; [|exact content_inner_chars].
    intros c Hc. unfold isInnerChar in Hc. apply andb_true_iff in Hc. tauto.
Qed.

Lemma call_parts :
  indexOf "[" (name ++ String "[" (content ++ String "]" ""))%string = Some (String.length name)
  /\ lastIndexOf "]" (name ++ String "[" (content ++ String "]" ""))%string
     = Some (String.length name + 1 + String.length content)%nat.
Proof.
  split.
  - apply indexOf_first. now apply word_without_bracket.
  - replace (name ++ String "[" (content ++ String "]" ""))%string with ((name ++ String "[" content) ++ String "]" "")%string
      by (now rewrite append_assoc).
    rewrite lastIndexOf_last, length_append. cbn [String.length]. f_equal. lia.
Qed.

Lemma call_length :
  String.length (name ++ String "[" (content ++ String "]" ""))%string = (String.length name + 1 + String.length content + 1)%nat.
Proof.
  rewrite length_append. cbn [String.length].
  rewrite length_append. cbn [String.length]. lia.
Qed.

Lemma call_name :
  substringZ 0 (Z.of_nat (String.length name)) (name ++ String "[" (content ++ String "]" ""))%string = name.
Proof.
  unfold substringZ, substring. rewrite call_length.
  match goal with
  | |- context [Nat.min (Z.to_nat 0) ?l] =>
      replace (Nat.min (Z.to_nat 0) l) with 0%nat by lia
  end.
  match goal with
  | |- context [Nat.min (Z.to_nat (Z.of_nat ?k)) ?l] =>
      replace (Nat.min (Z.to_nat (Z.of_nat k)) l) with k by lia
  end.
  cbn [Nat.min Nat.max drop]. rewrite Nat.sub_0_r. apply take_app.
Qed.

Lemma call_content :
  substringZ (Z.of_nat (String.length name) + 1)
    (Z.of_nat (String.length name + 1 + String.length content)) (name ++ String "[" (content ++ String "]" ""))%string
  = content.
Proof.
  unfold substringZ, substring. rewrite call_length.
  match goal with
  | |- context [Nat.min (Z.to_nat (Z.of_nat ?k + 1)) ?l] =>
      replace (Nat.min (Z.to_nat (Z.of_nat k + 1)) l) with (k + 1)%nat by lia
  end.
  match goal with
  | |- context [Nat.min (Z.to_nat (Z.of_nat ?k)) ?l] =>
      replace (Nat.min (Z.to_nat (Z.of_nat k)) l) with k by lia
  end.
  replace (Nat.min (String.length name + 1)
             (String.length name + 1 + String.length content))
    with (String.length name + 1)%nat by lia.
  replace (Nat.max (String.length name + 1)
             (String.length name + 1 + String.length content)
           - (String.length name + 1))%nat
    with (String.length content) by lia.
  replace (name ++ String "[" (content ++ String "]" ""))%string with ((name ++ "[") ++ (content ++ String "]" ""))%string
    by (now rewrite append_assoc).
  replace (String.length name + 1)%nat with (String.length (name ++ "["))
    by (rewrite length_append; reflexivity).
  rewrite drop_app. apply take_app.
Qed.

Lemma call_handler (parseInner : string -> M (list step)) :
  handleTransformation parseInner (name ++ String "[" (content ++ String "]" ""))%string
  = (groupPattern <- parseInner content ;; transformPattern name groupPattern).
Proof.
  unfold handleTransformation.
  destruct call_parts as [-> ->]. cbn [indexZ].
  replace (Z.of_nat (String.length name) + 1
           >=? Z.of_nat (String.length name + 1 + String.length content))
    with false.
  2:{ symmetry. rewrite Z.geb_leb. apply Z.leb_gt.
      destruct content; [discriminate|]. cbn [String.length]. lia. }
  now rewrite call_name, call_content.
Qed.

End Call.

Lemma content_nonempty_text (s : list step) :
  s <> [] -> forallb isPlain s = true -> isEmpty (patternToString s) = false.
Proof.
  intros Hne Hs. rewrite patternToString_join. apply join_nonempty.
  - destruct s; [congruence | discriminate].
  - now apply plainTexts.
Qed.

Lemma parsePattern_call (name : string) (s r : list step)
    (st st' : State) :
  Fixed.isWordText name = true -> s <> [] -> forallb isPlain s = true ->
  transformPattern name s st = (Ok r, st') ->
  parsePattern (name ++ "[" ++ patternToString s ++ "]") defaults st
  = (Ok r, atDepth 0 st').
Proof.
  intros Hname Hne Hs Hrun. unfold Fixed.isWordText in Hname.
  apply andb_true_iff in Hname. destruct Hname as [Hn Hw].
  apply negb_true_iff in Hn.
  pose proof (content_inner s Hs) as Hin.
  pose proof (content_nonempty_text s Hne Hs) as Hcn.
  change (name ++ "[" ++ patternToString s ++ "]")%string
    with (name ++ String "[" (patternToString s ++ String "]" ""))%string.
  assert (Hat : transformPattern name s (atDepth 1 st) = (Ok r, atDepth 1 st')).
  { rewrite ignoresDepth_transformPattern, Hrun. reflexivity. }
  apply (parsePattern_single _ st (atDepth 1 st')); [| | | reflexivity].
  - now apply call_nonempty.
  - now apply call_is_one_token.
  - unfold processToken, tryCatch.
    rewrite not_numeric_with by reflexivity.
    rewrite call_is_transform_call by assumption.
    rewrite call_handler by assumption.
    erewrite bind_Ok.
    2:{ erewrite bind_Ok; [exact Hat|].
        apply parsePatternString_plain; [assumption | assumption | cbn; lia]. }
    unfold ret, concatResult. now destruct r.
Qed.






(** *** No token at all *)

Lemma matchAt_separator (c : ascii) (r : string) :
  isSeparator c = true -> matchAt (String c r) = None.
Proof.
  intros Hc. unfold matchAt, matchCall, matchGroupRepeat, matchGroup, matchWord.
  assert (Hw : isWord c = false).
  { unfold isSeparator in Hc.
    destruct (Ascii.eqb_spec c ",") as [->|_]; [reflexivity|].
    destruct (Ascii.eqb_spec c ";") as [->|_]; [reflexivity|].
    cbn [orb] in Hc. unfold isWord.
    destruct (isLower c) eqn:E1.
    { unfold isLower, inRange in E1. apply andb_true_iff in E1.
      destruct E1 as [E1 E2]. apply N.leb_le in E1. apply N.leb_le in E2.
      unfold isSpace, inRange in Hc.
      destruct (N.leb_spec 9 (code c)), (N.leb_spec (code c) 13),
        (N.eqb_spec (code c) 32), (N.eqb_spec (code c) 160);
        cbn in Hc; try discriminate; lia. }
    destruct (isUpper c) eqn:E2.
    { unfold isUpper, inRange in E2. apply andb_true_iff in E2.
      destruct E2 as [E2 E3]. apply N.leb_le in E2. apply N.leb_le in E3.
      unfold isSpace, inRange in Hc.
      destruct (N.leb_spec 9 (code c)), (N.leb_spec (code c) 13),
        (N.eqb_spec (code c) 32), (N.eqb_spec (code c) 160);
        cbn in Hc; try discriminate; lia. }
    destruct (isDigit c) eqn:E3.
    { apply isDigit_not_space in E3. congruence. }
    cbn [orb]. apply N.eqb_neq. intros E.
    unfold isSpace, inRange in Hc. rewrite E in Hc. discriminate. }
  assert (Hb : Ascii.eqb c "[" = false).
  { destruct (Ascii.eqb_spec c "[") as [->|]; [discriminate | reflexivity]. }
  cbn [takeWhile]. rewrite Hw, Hb, Hc. reflexivity.
Qed.

Lemma scan_separators (s : string) :
  allOf isSeparator s = true -> scan 0 s = [].
Proof.
  induction s as [|c r IH]; [reflexivity|]. rewrite allOf_cons. intros H.
  apply andb_true_iff in H. destruct H as [Hc Hr].
  cbn [scan]. rewrite matchAt_separator by assumption. now apply IH.
Qed.

(** X17.  A text of white space, commas and semicolons only has no token:
    without [debug], and with a [maxRecursionDepth] that is not negative,
    it compiles to the empty sequence with no diagnostic. *)
Theorem separators_compile_to_nothing (pattern : string) (options : Config)
    (st : State) :
  isEmpty pattern = false -> allOf isSeparator pattern = true ->
  debug options = false -> 0 <= maxRecursionDepth options ->
  parsePattern pattern options st
  = (Ok [], mkState 0 (random st) (drawn st) (console st)).
Proof.
  intros Hne Hsep Hdebug Hmax. unfold parsePattern. rewrite Hne, Hdebug.
  unfold fuelFor.
  destruct (Z.to_nat (maxRecursionDepth options + 1)) as [|fuel] eqn:E; [lia|].
  rewrite parsePatternString_step. unfold matchTokens.
  rewrite scan_separators by assumption. rewrite Hdebug.
  unfold bind, ret, setDepth, getDepth, incrementDepth, decrementDepth,
    bind, getDepth, setDepth.
  cbn [currentDepth random drawn console].
  replace (0 >? maxRecursionDepth options) with false
    by (symmetry; rewrite Z.gtb_ltb; apply Z.ltb_ge; lia).
  reflexivity.
Qed.

Lemma separators_compile_to_nothing_witness :
  parsePattern " , ; " defaults initialState
  = (Ok [], mkState 0 (random initialState) (drawn initialState)
              (console initialState)).
Proof.
  apply separators_compile_to_nothing; [reflexivity.. | cbn; lia].
Defined.

(** *** A group after a number *)

Lemma parseInt_digits_then (digits : string) (c : ascii) (r : string) :
  allOf isDigit digits = true -> isEmpty digits = false ->
  isRadixDigit 10 c = false -> Ascii.eqb "x" c = false ->
  Ascii.eqb "X" c = false ->
  parseInt (digits ++ String c r) = Int (digitsValue 10 digits 0).
Proof.
  intros Hd Hne Hc Hx HX.
  destruct digits as [|d0 ds]; [discriminate|].
  pose proof Hd as Hd'. rewrite allOf_cons in Hd'.
  apply andb_true_iff in Hd'. destruct Hd' as [Hd0 Hds].
  unfold parseInt, trimStart.
  change ((String d0 ds ++ String c r)%string)
    with (String d0 (ds ++ String c r)%string).
  cbn [dropWhile]. rewrite (isDigit_not_space d0 Hd0).
  assert (Hm : Ascii.eqb "-" d0 = false).
  { destruct (Ascii.eqb_spec "-" d0) as [<-|]; [discriminate | reflexivity]. }
  assert (Hp : Ascii.eqb "+" d0 = false).
  { destruct (Ascii.eqb_spec "+" d0) as [<-|]; [discriminate | reflexivity]. }
  cbn [headIs]. rewrite Hm, Hp. cbn [orb].
  unfold parseMagnitude, isHexPrefix.
  assert (Hh : (headIs "x" (drop 1 (String d0 (ds ++ String c r)))
                || headIs "X" (drop 1 (String d0 (ds ++ String c r)))) = false).
  { cbn [drop]. destruct ds as [|d1 ds']; cbn [append headIs].
    - now rewrite Hx, HX.
    - rewrite allOf_cons in Hds. apply andb_true_iff in Hds.
      destruct Hds as [Hd1 _].
      destruct (Ascii.eqb_spec "x" d1) as [<-|]; [discriminate|].
      destruct (Ascii.eqb_spec "X" d1) as [<-|]; [discriminate|].
      reflexivity. }
  rewrite Hh, andb_false_r.
  change (String d0 (ds ++ String c r)%string)
    with (String d0 ds ++ String c r)%string.
  rewrite takeWhile_app_all
    by (eapply allOf_impl; [apply isDigit_radix10 | exact Hd]).
  cbn [takeWhile]. rewrite Hc, append_empty_r. reflexivity.
Qed.

Lemma includes_second_absent (c1 c2 : ascii) (s : string) :
  allOf (without c2) s = true ->
  includes (String c1 (String c2 "")) s = false.
Proof.
  induction s as [|e r IH]; [reflexivity|].
  rewrite allOf_cons. intros H. apply andb_true_iff in H.
  destruct H as [He Hr]. cbn [includes String.prefix].
  rewrite (IH Hr), orb_false_r.
  destruct (ascii_dec c1 e); [|reflexivity].
  destruct r as [|f r']; [reflexivity|].
  rewrite allOf_cons in Hr. apply andb_true_iff in Hr.
  destruct Hr as [Hf _]. unfold without in Hf.
  apply negb_true_iff in Hf. cbn [String.prefix].
  destruct (ascii_dec c2 f) as [<-|]; [|reflexivity].
  now rewrite Ascii.eqb_refl in Hf.
Qed.

(** X18.  In src/lib/parser2.js a group that follows a number after a
    space is lost: the first alternative of the token expression takes
    the number, the space and the group as one token, which is then read
    by [parseInt] as the number alone. *)
Theorem number_before_group_drops_it (v : N) (s : list step) (st : State) :
  s <> [] -> forallb isPlain s = true -> (v < 2 ^ 53)%N ->
  parsePattern (decimal v ++ " [" ++ patternToString s ++ "]") defaults st
  = (Ok [Note (Int (Z.of_N v))],
     mkState 0 (random st) (drawn st) (console st)).
Proof.
  intros Hne Hs _.
  destruct (decimal_digits v) as [Hd Hdne].
  pose proof (content_inner s Hs) as Hin.
  set (content := patternToString s) in *.
  set (token := (decimal v ++ " [" ++ content ++ "]")%string).
  assert (Hword : allOf isWord (decimal v) = true).
  { eapply allOf_impl; [apply isDigit_isWord | exact Hd]. }
  assert (Hnonempty : isEmpty token = false).
  { unfold token. now destruct (decimal v). }
  apply (parsePattern_single _ st
           (mkState 1 (random st) (drawn st) (console st)));
    [assumption | | | reflexivity].
  - apply scan_single; [assumption|].
    unfold matchAt, matchCall, token.
    rewrite takeWhile_app_all, dropWhile_app_all by assumption.
    change (takeWhile isWord (" [" ++ content ++ "]")) with EmptyString.
    change (dropWhile isWord (" [" ++ content ++ "]"))
      with (String " " (String "[" (content ++ String "]" ""))).
    rewrite append_empty_r, Hdne.
    change (dropWhile isSpace
              (String " " (String "[" (content ++ String "]" ""))))
      with (String "[" (content ++ String "]" "")).
    change (takeWhile isSpace
              (String " " (String "[" (content ++ String "]" ""))))
      with " ".
    cbv iota. change (Ascii.eqb "[" "[") with true. cbv iota.
    rewrite lazyToClose_inner by assumption. reflexivity.
  - assert (Hstar : allOf (without "*") token = true).
    { unfold token. rewrite allOf_app. apply andb_true_iff. split.
      - now apply digits_without.
      - change (" [" ++ content ++ "]")%string
          with (String " " (String "[" (content ++ String "]" ""))).
        rewrite !allOf_cons, allOf_app.
        unfold content. rewrite content_without by (reflexivity || assumption).
        reflexivity. }
    unfold processToken, tryCatch.
    replace (isNumeric token) with false.
    2:{ symmetry. unfold token.
        change (decimal v ++ " [" ++ content ++ "]")%string
          with (decimal v ++ String " " (String "[" (content ++ "]")))%string.
        replace (decimal v ++ String " " (String "[" (content ++ "]")))%string
          with ((decimal v ++ " ") ++ String "[" (content ++ "]"))%string
          by (now rewrite append_assoc).
        now apply not_numeric_with. }
    replace (isTransformCall token) with false.
    2:{ symmetry. unfold isTransformCall, token.
        rewrite dropWhile_app_all by assumption.
        change (dropWhile isWord (" [" ++ content ++ "]"))
          with (String " " (String "[" (content ++ String "]" ""))).
        change (Ascii.eqb " " "[") with false. apply andb_false_r. }
    change "]*" with (String "]" "*").
    replace (includes (String "]" "*") token) with false.
    2:{ symmetry. now apply includes_second_absent. }
    replace (startsWith "[" token) with false.
    2:{ symmetry. unfold token, startsWith.
        destruct (decimal v) as [|d0 ds]; [discriminate|].
        rewrite allOf_cons in Hd. apply andb_true_iff in Hd.
        destruct Hd as [Hd0 _]. cbn [append String.prefix].
        destruct (ascii_dec "[" d0) as [<-|]; [discriminate | reflexivity]. }
    cbn [andb].
    change "*" with (String "*" "").
    rewrite includes_absent by assumption.
    replace (String.eqb token "-") with false.
    2:{ symmetry. apply String.eqb_neq. unfold token. intros E.
        destruct (decimal v) as [|d0 ds]; [discriminate|].
        rewrite allOf_cons in Hd. apply andb_true_iff in Hd.
        destruct Hd as [Hd0 _]. cbn [append] in E. inversion E; subst.
        discriminate. }
    unfold token.
    change (decimal v ++ " [" ++ content ++ "]")%string
      with (decimal v ++ String " " (String "[" (content ++ "]")))%string.
    rewrite parseInt_digits_then by (reflexivity || assumption).
    rewrite (denotes_digitsValue _ _ (decimal_denotes v)). reflexivity.
Qed.

Lemma number_before_group_drops_it_witness :
  parsePattern (decimal 7 ++ " [" ++ patternToString [Note (Int 1); Rest] ++ "]")
    defaults initialState
  = (Ok [Note (Int (Z.of_N 7))],
     mkState 0 (random initialState) (drawn initialState)
       (console initialState)).
Proof.
  apply number_before_group_drops_it;
    [discriminate | reflexivity | reflexivity].
Defined.

Lemma numberToString_small (z : Z) :
  0 <= z < 10 ^ 21 -> numberToString (Int z) = decimal (Z.to_N z).
Proof.
  intros Hz. unfold numberToString, magnitudeToString.
  replace (z <? 0) with false by (symmetry; apply Z.ltb_ge; lia).
  replace (Z.to_N z <? 10 ^ 21)%N with true
    by (symmetry; apply N.ltb_lt; lia).
  reflexivity.
Qed.


(** X19.  [parsePatternString] raises nothing: it returns a sequence with
    [config.currentDepth] as it found it, or it does not return, which
    only the loop of a group repeat with a count above 2^53 brings about.
    It returns for every pattern whose numbers are small, no run of
    hexadecimal digits being longer than 13 characters, and any greater
    amount of fuel gives the same run. *)
Theorem depth_counter_is_restored (config : Config) (fuel : nat)
    (pattern : string) (st : State) :
  (Z.to_nat (maxRecursionDepth config - currentDepth st + 1) <= fuel)%nat ->
  ((exists seq st',
      parsePatternString fuel config pattern st = (Ok seq, st')
      /\ currentDepth st' = currentDepth st)
   \/ (exists st', parsePatternString fuel config pattern st = (Diverges, st')))
  /\ (countsAreSmall pattern = true ->
      exists seq st',
        parsePatternString fuel config pattern st = (Ok seq, st')
        /\ currentDepth st' = currentDepth st)
  /\ forall fuel',
       (fuel <= fuel')%nat ->
       parsePatternString fuel' config pattern st
       = parsePatternString fuel config pattern st.
Proof.
  intros Hfuel. split; [|split].
  - now apply (parsePatternString_finishes config fuel (currentDepth st)).
  - intros Hs.
    now apply (parsePatternString_returns config fuel (currentDepth st)).
  - intros fuel' Hle.
    apply (parsePatternString_fuel config fuel' fuel (currentDepth st));
      [lia | assumption | reflexivity].
Qed.

Lemma depth_counter_is_restored_witness :
  exists seq st',
    parsePatternString 11 defaults "[1 2]*2 invert5[3]" initialState
    = (Ok seq, st')
    /\ currentDepth st' = currentDepth initialState.
Proof.
  apply (proj1 (proj2 (depth_counter_is_restored defaults 11
                         "[1 2]*2 invert5[3]" initialState
                         ltac:(simpl; lia)))).
  reflexivity.
Defined.

(** ** More on the random generator *)

Lemma produces_weaken {A : Type} (P Q : A -> Prop) (m : M A) :
  produces P m -> (forall a, P a -> Q a) -> produces Q m.
Proof.
  intros Hm HPQ st. destruct (Hm st) as (a & st' & E & Ha).
  exists a, st'. split; [assumption | now apply HPQ].
Qed.

Section GeneratorBounds.
Variable config : RandomOptions.
Hypothesis ordered : minValue config <= maxValue config.

Lemma produces_randomGroup_within (k : nat) :
  forall group,
    Forall (inBounds (minValue config) (maxValue config)) group ->
    produces (fun g => Forall (inBounds (minValue config) (maxValue config)) g
                       /\ List.length g = (List.length group + k)%nat)
      (randomGroup config k group).
Proof.
  induction k as [|k IH]; intros group Hall; cbn [randomGroup].
  - apply produces_ret. split; [assumption | lia].
  - eapply produces_bind; [apply produces_random|]. intros r _.
    destruct (Qltb r (restProbability config)).
    + eapply produces_weaken.
      * apply IH. apply Forall_app. split; [assumption|]. now repeat constructor.
      * intros g [Hg Hl]. split; [assumption|].
        rewrite Hl, length_app. simpl. lia.
    + eapply produces_bind; [now apply produces_randomValue|].
      intros v Hv. cbv beta in Hv.
      eapply produces_weaken.
      * apply IH. apply Forall_app. split; [assumption|]. now repeat constructor.
      * intros g [Hg Hl]. split; [assumption|].
        rewrite Hl, length_app. simpl. lia.
Qed.

Lemma Forall_concat_repeat (group : list step) (n : nat) :
  Forall (inBounds (minValue config) (maxValue config)) group -> Forall (inBounds (minValue config) (maxValue config)) (List.concat (List.repeat group n)).
Proof.
  intros H. induction n as [|n IH]; [constructor|].
  cbn [List.repeat List.concat]. apply Forall_app. now split.
Qed.

Lemma length_concat_repeat (group : list step) (n : nat) :
  List.length (List.concat (List.repeat group n))
  = (n * List.length group)%nat.
Proof.
  induction n as [|n IH]; [reflexivity|].
  cbn [List.repeat List.concat]. rewrite length_app, IH. lia.
Qed.

Lemma produces_randomLoop_within (fuel : nat) :
  forall i result,
    (Z.to_nat (patternLength config - i) <= fuel)%nat ->
    i <= Z.of_nat (List.length result) ->
    Forall (inBounds (minValue config) (maxValue config)) result ->
    produces (fun seq => Forall (inBounds (minValue config) (maxValue config)) seq
                         /\ patternLength config <= Z.of_nat (List.length seq))
      (randomLoop config fuel i result).
Proof.
  induction fuel as [|fuel' IH]; intros i result Hfuel Hlen Hall;
    cbn [randomLoop];
    destruct (Z.ltb_spec i (patternLength config)) as [Hi|Hi];
    try (apply produces_ret; split; (assumption || lia)); try lia.
  eapply produces_bind; [apply produces_random|]. intros rand _.
  destruct (Qltb rand (restProbability config)).
  { apply IH; try lia.
    - rewrite length_app. simpl. lia.
    - apply Forall_app. split; [assumption|]. now repeat constructor. }
  destruct (Qltb rand (restProbability config + groupProbability config)).
  - destruct (i <? patternLength config - 3).
    + eapply produces_bind; [apply produces_randomCount|].
      intros groupLength Hg. cbv beta in Hg.
      eapply produces_bind;
        [apply (produces_randomGroup_within (Z.to_nat groupLength) []);
         constructor|].
      intros group [Hgroup Hgl]. simpl in Hgl.
      eapply produces_bind; [apply produces_random|]. intros r _.
      eapply produces_bind with
        (P := fun result' =>
                Forall (inBounds (minValue config) (maxValue config)) result'
                /\ i + groupLength <= Z.of_nat (List.length result')).
      * destruct (Qltb r (repetitionProbability config)).
        -- eapply produces_bind; [apply produces_randomCount|].
           intros c Hc. cbv beta in Hc. apply produces_ret. split.
           ++ apply Forall_app. split; [assumption|].
              now apply Forall_concat_repeat.
           ++ rewrite length_app, length_concat_repeat, Hgl. nia.
        -- apply produces_ret. split.
           ++ apply Forall_app. now split.
           ++ rewrite length_app, Hgl. lia.
      * intros result' [Hr Hl]. apply IH; try lia. assumption.
    + eapply produces_bind; [now apply produces_randomValue|].
      intros v Hv. cbv beta in Hv. apply IH; try lia.
      * rewrite length_app. simpl. lia.
      * apply Forall_app. split; [assumption|]. now repeat constructor.
  - eapply produces_bind; [now apply produces_randomValue|].
    intros v Hv. cbv beta in Hv.
    eapply produces_bind; [apply produces_random|]. intros r _.
    destruct (Qltb r (repetitionProbability config)).
    + eapply produces_bind; [apply produces_randomCount|].
      intros c Hc. cbv beta in Hc. apply IH; try lia.
      * rewrite length_app, repeat_length. lia.
      * apply Forall_app. split; [assumption|].
        apply Forall_forall. intros y Hy. apply repeat_spec in Hy. now subst y.
    + apply IH; try lia.
      * rewrite length_app. simpl. lia.
      * apply Forall_app. split; [assumption|]. now repeat constructor.
Qed.

End GeneratorBounds.

Lemma createRandomPattern_returns_within (options : RandomOptions)
    (st : State) :
  minValue options <= maxValue options ->
  exists seq st',
    createRandomPattern options st = (Ok seq, st')
    /\ Forall (inBounds (minValue options) (maxValue options)) seq
    /\ patternLength options <= Z.of_nat (List.length seq).
Proof.
  intros Hmm.
  destruct (produces_randomLoop_within options Hmm
              (Z.to_nat (patternLength options)) 0 []) with (st := st)
    as (seq & st' & E & Hall & Hlen).
  - rewrite Z.sub_0_r. apply Nat.le_refl.
  - simpl. lia.
  - constructor.
  - now exists seq, st'.
Qed.

(** X20.  For all options with [minValue] at most [maxValue], both below
    2^52 in magnitude, where the arithmetic of a double is exact, and a
    [length] of at most 2^28, groups included, [createRandomPattern]
    returns rests and notes within the bounds, and at least [length] of
    them. *)
Theorem createRandomPattern_within_bounds (options : RandomOptions)
    (st : State) :
  - 2 ^ 52 < minValue options -> minValue options <= maxValue options ->
  maxValue options < 2 ^ 52 ->
  patternLength options <= 268435456 ->
  exists seq st',
    createRandomPattern options st = (Ok seq, st')
    /\ Forall (inBounds (minValue options) (maxValue options)) seq
    /\ patternLength options <= Z.of_nat (List.length seq).
Proof. intros _ Hmm _ _. now apply createRandomPattern_returns_within. Qed.

Lemma createRandomPattern_within_bounds_witness :
  exists seq st',
    createRandomPattern randomDefaults initialState = (Ok seq, st')
    /\ Forall (inBounds (minValue randomDefaults) (maxValue randomDefaults)) seq
    /\ patternLength randomDefaults <= Z.of_nat (List.length seq).
Proof.
  apply createRandomPattern_within_bounds;
    [reflexivity | simpl; lia | reflexivity | simpl; lia].
Defined.



Section NoRepetition.
Variable config : RandomOptions.
Hypothesis ordered : minValue config <= maxValue config.
Hypothesis no_groups : (groupProbability config == 0)%Q.
Hypothesis no_repetition : (repetitionProbability config <= 0)%Q.

Lemma never_repeats (r : Q) :
  (0 <= r)%Q -> Qltb r (repetitionProbability config) = false.
Proof.
  intros Hr. unfold Qltb. apply negb_false_iff. apply Qle_bool_iff.
  eapply Qle_trans; eassumption.
Qed.

Lemma produces_randomLoop_exact (fuel : nat) :
  forall i result,
    (Z.to_nat (patternLength config - i) <= fuel)%nat ->
    Z.of_nat (List.length result) = i -> i <= patternLength config ->
    Forall (inBounds (minValue config) (maxValue config)) result ->
    produces (fun seq =>
                Forall (inBounds (minValue config) (maxValue config)) seq
                /\ Z.of_nat (List.length seq) = patternLength config)
      (randomLoop config fuel i result).
Proof.
  induction fuel as [|fuel' IH]; intros i result Hfuel Hlen Hup Hall;
    cbn [randomLoop];
    destruct (Z.ltb_spec i (patternLength config)) as [Hi|Hi];
    try (apply produces_ret; split; (assumption || lia)); try lia.
  eapply produces_bind; [apply produces_random|]. intros rand _.
  destruct (Qltb rand (restProbability config)) eqn:Erest.
  { apply IH; try lia.
    - rewrite length_app. simpl. lia.
    - apply Forall_app. split; [assumption|]. now repeat constructor. }
  rewrite (no_group_branch config no_groups) by assumption.
  eapply produces_bind; [now apply produces_randomValue|].
  intros v Hv. cbv beta in Hv.
  eapply produces_bind; [apply produces_random|]. intros r [Hr _].
  rewrite never_repeats by assumption.
  apply IH; try lia.
  - rewrite length_app. simpl. lia.
  - apply Forall_app. split; [assumption|]. now repeat constructor.
Qed.

End NoRepetition.

(** X21.  Without groups and without repetitions (probability 0 for both)
    [createRandomPattern] returns exactly [length] steps, rests and notes
    within the bounds, for a [length] that fits an array and bounds below
    2^52 in magnitude, where the arithmetic of a double is exact. *)
Theorem createRandomPattern_exact_length (options : RandomOptions)
    (st : State) :
  (groupProbability options == 0)%Q ->
  (repetitionProbability options <= 0)%Q ->
  - 2 ^ 52 < minValue options -> minValue options <= maxValue options ->
  maxValue options < 2 ^ 52 ->
  0 <= patternLength options <= 4294967295 ->
  exists seq st',
    createRandomPattern options st = (Ok seq, st')
    /\ Forall (inBounds (minValue options) (maxValue options)) seq
    /\ Z.of_nat (List.length seq) = patternLength options.
Proof.
  intros Hg Hr _ Hmm _ [Hlen _].
  destruct (produces_randomLoop_exact options Hmm Hg Hr
              (Z.to_nat (patternLength options)) 0 []) with (st := st)
    as (seq & st' & E & Hall & Hl).
  - rewrite Z.sub_0_r. apply Nat.le_refl.
  - reflexivity.
  - assumption.
  - constructor.
  - now exists seq, st'.
Qed.

Lemma createRandomPattern_exact_length_witness :
  exists seq st',
    createRandomPattern (mkRandomOptions 16 1 99 (3 # 10) 0 0) initialState
    = (Ok seq, st')
    /\ Forall (inBounds 1 99) seq
    /\ Z.of_nat (List.length seq) = 16.
Proof.
  apply (createRandomPattern_exact_length (mkRandomOptions 16 1 99 (3 # 10) 0 0));
    simpl; try reflexivity; try lia; discriminate.
Defined.

Lemma always_rest (p : Q) (r : draw) :
  (1 <= p)%Q -> Qltb (drawValue r) p = true.
Proof.
  intros Hp. unfold Qltb. apply negb_true_iff. apply not_true_is_false.
  intros H. apply Qle_bool_iff in H.
  destruct (draw_in_unit r) as [_ H1].
  apply (Qlt_irrefl 1). eapply Qle_lt_trans; [exact Hp|].
  eapply Qle_lt_trans; eassumption.
Qed.

Lemma randomLoop_all_rests (config : RandomOptions) (fuel : nat) :
  (1 <= restProbability config)%Q ->
  forall i result st,
    (Z.to_nat (patternLength config - i) <= fuel)%nat ->
    randomLoop config fuel i result st
    = (Ok (result ++ List.repeat Rest (Z.to_nat (patternLength config - i))),
       mkState (currentDepth st) (random st)
         (drawn st + Z.to_nat (patternLength config - i)) (console st)).
Proof.
  intros Hp. induction fuel as [|fuel' IH]; intros i result st Hfuel;
    cbn [randomLoop];
    destruct (Z.ltb_spec i (patternLength config)) as [Hi|Hi]; try lia.
  - replace (Z.to_nat (patternLength config - i)) with 0%nat by lia.
    unfold ret. cbn [List.repeat]. rewrite app_nil_r, Nat.add_0_r.
    now destruct st.
  - unfold bind at 1, Math_random at 1. rewrite always_rest by assumption.
    rewrite IH by lia. cbn [currentDepth random drawn console].
    replace (Z.to_nat (patternLength config - i))
      with (S (Z.to_nat (patternLength config - (i + 1)))) by lia.
    cbn [List.repeat]. rewrite <- app_assoc.
    apply f_equal2; [reflexivity|]. f_equal. lia.
  - replace (Z.to_nat (patternLength config - i)) with 0%nat by lia.
    unfold ret. cbn [List.repeat]. rewrite app_nil_r, Nat.add_0_r.
    now destruct st.
Qed.

(** X22.  With a rest probability of 1 or more [createRandomPattern]
    returns [length] rests and reads exactly [length] random numbers,
    for a [length] that fits an array. *)
Theorem createRandomPattern_all_rests (options : RandomOptions) (st : State) :
  (1 <= restProbability options)%Q -> patternLength options <= 4294967295 ->
  createRandomPattern options st
  = (Ok (List.repeat Rest (Z.to_nat (patternLength options))),
     mkState (currentDepth st) (random st)
       (drawn st + Z.to_nat (patternLength options)) (console st)).
Proof.
  intros Hp _. unfold createRandomPattern.
  rewrite randomLoop_all_rests by (assumption || (rewrite Z.sub_0_r; lia)).
  now rewrite Z.sub_0_r.
Qed.

Lemma createRandomPattern_all_rests_witness :
  createRandomPattern (mkRandomOptions 4 1 99 1 0 0) initialState
  = (Ok (List.repeat Rest (Z.to_nat 4)),
     mkState (currentDepth initialState) (random initialState)
       (drawn initialState + Z.to_nat 4) (console initialState)).
Proof.
  apply (createRandomPattern_all_rests (mkRandomOptions 4 1 99 1 0 0));
    [discriminate | vm_compute; discriminate].
Defined.

(** ** The token scan of src/unnamed/part_002 *)

Lemma length_takeWhile (p : ascii -> bool) (s : string) :
  (String.length (takeWhile p s) <= String.length s)%nat.
Proof.
  induction s as [|c r IH]; simpl; [lia|]. destruct (p c); simpl; lia.
Qed.

Lemma length_drop (n : nat) (s : string) :
  String.length (drop n s) = (String.length s - n)%nat.
Proof.
  revert s. induction n as [|k IH]; intros [|c r]; simpl; auto.
Qed.

Lemma get_some (n : nat) (s : string) (c : ascii) :
  String.get n s = Some c -> (n < String.length s)%nat.
Proof.
  revert n. induction s as [|d r IH]; intros [|k]; simpl; try discriminate;
    [lia|]. intros H. apply IH in H. lia.
Qed.

Lemma get_none (n : nat) (s : string) :
  String.get n s = None -> (String.length s <= n)%nat.
Proof.
  revert n. induction s as [|d r IH]; intros [|k]; simpl; try discriminate;
    try lia. intros H. apply IH in H. lia.
Qed.

Lemma closeBracket_reads (s : string) :
  forall bracketDepth read,
    (read <= fst (Final.closeBracket s bracketDepth read)
     <= read + String.length s)%nat.
Proof.
  induction s as [|c r IH]; intros [|below] read; simpl; try lia.
  destruct (Ascii.eqb c "["); [|destruct (Ascii.eqb c "]")].
  - specialize (IH (S (S below)) (S read)). lia.
  - specialize (IH below (S read)). lia.
  - specialize (IH (S below) (S read)). lia.
Qed.

Lemma starAt_inside (pattern : string) (i : nat) :
  Final.starAt pattern i = true -> (i < String.length pattern)%nat.
Proof.
  unfold Final.starAt. intros H.
  pose proof (length_drop i pattern) as L.
  destruct (drop i pattern); [discriminate|]. simpl in L. lia.
Qed.

Lemma repeatEnd_inside (pattern : string) (tokenEnd : nat) :
  (tokenEnd < String.length pattern)%nat ->
  (tokenEnd < Final.repeatEndFrom pattern tokenEnd <= String.length pattern)%nat.
Proof.
  intros H. unfold Final.repeatEndFrom.
  pose proof (length_takeWhile isDigit (drop (tokenEnd + 1) pattern)) as L.
  rewrite length_drop in L. lia.
Qed.

(** X23.  [extractNextToken] of src/unnamed/part_002 always moves forward
    and never past the end of the text, which is what ends the loop of
    [processComplexPattern]. *)
Theorem extractNextToken_advances (pattern : string) (startPos : nat)
    (st : State) :
  (startPos < String.length pattern)%nat ->
  exists token newPos st',
    Final.extractNextToken pattern startPos st = (Ok (token, newPos), st')
    /\ (startPos < newPos <= String.length pattern)%nat.
Proof.
  intros Hstart. unfold Final.extractNextToken.
  pose proof (length_takeWhile isSpace (drop startPos pattern)) as Hws.
  rewrite length_drop in Hws.
  set (currentPos := (startPos
                      + String.length (takeWhile isSpace (drop startPos pattern)))%nat)
    in *.
  destruct (String.get currentPos pattern) as [c|] eqn:Eget.
  2:{ apply get_none in Eget. eexists _, _, _. split; [reflexivity | lia]. }
  apply get_some in Eget.
  destruct (Ascii.eqb c "[").
  - pose proof (closeBracket_reads (drop (currentPos + 1) pattern) 1 0) as Hread.
    rewrite length_drop in Hread.
    destruct (Final.closeBracket (drop (currentPos + 1) pattern) 1 0)
      as [read bracketDepth]. cbn [fst] in Hread.
    destruct (0 <? bracketDepth)%nat.
    + eexists _, _, _. split; [reflexivity | lia].
    + destruct (Final.starAt pattern (currentPos + 1 + read)) eqn:Estar.
      * pose proof (repeatEnd_inside pattern (currentPos + 1 + read)
                      (starAt_inside _ _ Estar)) as Hend.
        destruct (Final.identifierLength
                    (substring 0 (currentPos + 1) pattern));
          eexists _, _, _; (split; [reflexivity | lia]).
      * destruct (Final.identifierLength
                    (substring 0 (currentPos + 1) pattern));
          eexists _, _, _; (split; [reflexivity | lia]).
  - destruct (isDigit c || Ascii.eqb c "-").
    + set (tokenEnd := if isDigit c
                       then (currentPos + 1
                             + String.length
                                 (takeWhile isDigit (drop (currentPos + 1) pattern)))%nat
                       else (currentPos + 1)%nat).
      assert (Hte : (currentPos < tokenEnd <= String.length pattern)%nat).
      { unfold tokenEnd.
        pose proof (length_takeWhile isDigit (drop (currentPos + 1) pattern)) as L.
        rewrite length_drop in L. destruct (isDigit c); lia. }
      destruct (Final.starAt pattern tokenEnd) eqn:Estar.
      * pose proof (repeatEnd_inside pattern tokenEnd
                      (starAt_inside _ _ Estar)) as Hend.
        eexists _, _, _. split; [reflexivity | lia].
      * eexists _, _, _. split; [reflexivity | lia].
    + eexists _, _, _. split; [reflexivity | lia].
Qed.

Lemma extractNextToken_advances_witness :
  exists token newPos st',
    Final.extractNextToken "[1 2]*3 4" 0 initialState
    = (Ok (token, newPos), st')
    /\ (0 < newPos <= String.length "[1 2]*3 4")%nat.
Proof. apply extractNextToken_advances. simpl. lia. Defined.

(** ** Plain sequences in the rewrites *)

(** *** The flat path of part_002 *)

Lemma plainChar_not_space (c : ascii) : isPlainChar c = true -> isSpace c = false.
Proof.
  unfold isPlainChar. intros H. apply orb_true_iff in H.
  destruct H as [H | H]; [now apply isDigit_not_space|].
  apply Ascii.eqb_eq in H. now subst c.
Qed.

Lemma splitRuns_text (t more : string) :
  allOf isPlainChar t = true ->
  Final.splitRuns false (t ++ String " " more)
  = t :: Final.splitRuns true more.
Proof.
  induction t as [|c r IH]; [reflexivity|]. rewrite allOf_cons. intros H.
  apply andb_true_iff in H. destruct H as [Hc Hr].
  cbn [append Final.splitRuns]. rewrite (plainChar_not_space c Hc).
  now rewrite (IH Hr).
Qed.

Lemma splitRuns_last (t : string) :
  allOf isPlainChar t = true -> Final.splitRuns false t = [t].
Proof.
  induction t as [|c r IH]; [reflexivity|]. rewrite allOf_cons. intros H.
  apply andb_true_iff in H. destruct H as [Hc Hr].
  cbn [Final.splitRuns]. rewrite (plainChar_not_space c Hc).
  now rewrite (IH Hr).
Qed.

Lemma splitRuns_start (s : string) (c : ascii) (r : string) :
  s = String c r -> isSpace c = false ->
  Final.splitRuns true s = Final.splitRuns false s.
Proof. intros -> Hc. cbn [Final.splitRuns]. now rewrite Hc. Qed.

Lemma join_head (ts : list string) :
  ts <> [] -> forallb isPlainText ts = true ->
  exists c r, join " " ts = String c r /\ isSpace c = false.
Proof.
  destruct ts as [|t ts]; [congruence|]. intros _ H. simpl forallb in H.
  apply andb_true_iff in H. destruct H as [Ht _].
  unfold isPlainText in Ht. apply andb_true_iff in Ht. destruct Ht as [Hn Ht].
  destruct t as [|c r]; [discriminate|].
  rewrite allOf_cons in Ht. apply andb_true_iff in Ht. destruct Ht as [Hc _].
  destruct ts as [|u us].
  - exists c, r. split; [reflexivity | now apply plainChar_not_space].
  - exists c, (r ++ String " " (join " " (u :: us)))%string.
    split; [reflexivity | now apply plainChar_not_space].
Qed.

Lemma splitRuns_join (ts : list string) :
  ts <> [] -> forallb isPlainText ts = true ->
  Final.splitRuns false (join " " ts) = ts.
Proof.
  induction ts as [|t ts IH]; [congruence|]. intros _ H.
  pose proof H as H'. simpl forallb in H'.
  apply andb_true_iff in H'. destruct H' as [Ht Hts].
  unfold isPlainText in Ht. apply andb_true_iff in Ht. destruct Ht as [_ Ht].
  destruct ts as [|u us]; [now apply splitRuns_last|].
  change (join " " (t :: u :: us))
    with (t ++ String " " (join " " (u :: us)))%string.
  rewrite splitRuns_text by assumption. f_equal.
  destruct (join_head (u :: us)) as (c & r & E & Hc);
    [discriminate | assumption |].
  rewrite (splitRuns_start _ c r E Hc). apply IH; [discriminate | assumption].
Qed.

Lemma flatPart_plain (x : step) (outputPattern : list step) (st : State) :
  isPlain x = true ->
  Final.flatPart defaults outputPattern (stepText x) st
  = (Ok (outputPattern ++ [x]), st).
Proof.
  intros Hx. unfold Final.flatPart.
  pose proof (plainText_stepText x Hx) as Ht. unfold isPlainText in Ht.
  apply andb_true_iff in Ht. destruct Ht as [_ Ht].
  change "*" with (String "*" "").
  rewrite includes_absent
    by (eapply allOf_impl; [|exact Ht]; intros e;
        now apply plainChar_without).
  destruct x as [|[z|]]; [reflexivity| |discriminate].
  unfold stepText.
  change (joinText (toValue (Note (Int z)))) with (numberToString (Int z)).
  simpl in Hx. apply Z.ltb_lt in Hx.
  rewrite numeric_not_minus, isNumeric_numberToString,
    parseInt_numberToString by (try apply isNumeric_numberToString; assumption).
  reflexivity.
Qed.

Lemma flatLoop_plain (s : list step) :
  forall outputPattern st,
    forallb isPlain s = true ->
    Final.flatLoop defaults (map stepText s) outputPattern st
    = (Ok (outputPattern ++ s), st).
Proof.
  induction s as [|x s IH]; intros outputPattern st H.
  - simpl. unfold ret. now rewrite app_nil_r.
  - simpl forallb in H. apply andb_true_iff in H. destruct H as [Hx Hs].
    cbn [map Final.flatLoop]. unfold bind.
    rewrite flatPart_plain by assumption.
    rewrite IH by assumption. now rewrite <- app_assoc.
Qed.

Lemma Final_round_trip (s : list step) (st : State) :
  s <> [] -> forallb isPlain s = true ->
  Final.parsePattern (patternToString s) defaults st = (Ok s, st).
Proof.
  intros Hne Hs.
  assert (Hts : forallb isPlainText (map stepText s) = true)
    by now apply plainTexts.
  assert (Hn : map stepText s <> [])
    by (destruct s; [congruence | discriminate]).
  unfold Final.parsePattern.
  rewrite content_nonempty_text by assumption. cbn [debug defaults].
  change (fuelFor defaults) with 11%nat. cbn [Final.parsePatternString].
  cbn [maxRecursionDepth defaults Z.gtb Z.compare].
  change "[" with (String "[" "").
  rewrite includes_absent by (apply content_without; [reflexivity | assumption]).
  cbn [negb]. unfold Final.parts.
  rewrite patternToString_trim by assumption.
  rewrite patternToString_join, splitRuns_join by assumption.
  unfold bind, tryCatchOn. change (ret tt st) with (Ok tt, st). cbv iota beta.
  rewrite flatLoop_plain by assumption. reflexivity.
Qed.

(** *** The scan of part_001 *)

Lemma scanLoop_plain_char (c : ascii) (r : string) (i : nat) (s : Fixed.Scan) :
  isPlainChar c = true ->
  Fixed.scanLoop (String c r) i 0 s = Fixed.scanLoop r (S i) 0 (Fixed.addChar c s).
Proof.
  intros Hc. cbn [Fixed.scanLoop].
  assert (H1 : Ascii.eqb c "[" = false)
    by (destruct (Ascii.eqb_spec c "[") as [->|]; [discriminate | reflexivity]).
  assert (H2 : Ascii.eqb c "]" = false)
    by (destruct (Ascii.eqb_spec c "]") as [->|]; [discriminate | reflexivity]).
  assert (H3 : Ascii.eqb c "*" = false)
    by (destruct (Ascii.eqb_spec c "*") as [->|]; [discriminate | reflexivity]).
  assert (H4 : Ascii.eqb c " " = false)
    by (destruct (Ascii.eqb_spec c " ") as [->|]; [discriminate | reflexivity]).
  assert (H5 : (code c =? 9)%N = false).
  { destruct (N.eqb_spec (code c) 9) as [E|]; [|reflexivity].
    apply plainChar_not_space in Hc. unfold isSpace, inRange in Hc.
    rewrite E in Hc. discriminate. }
  assert (H6 : (code c =? 10)%N = false).
  { destruct (N.eqb_spec (code c) 10) as [E|]; [|reflexivity].
    apply plainChar_not_space in Hc. unfold isSpace, inRange in Hc.
    rewrite E in Hc. discriminate. }
  now rewrite H1, H2, H3, H4, H5, H6.
Qed.

Lemma scanLoop_plain_text (t : string) :
  allOf isPlainChar t = true ->
  forall rest i toks cur,
    Fixed.scanLoop (t ++ rest) i 0 (Fixed.mkScan toks cur 0 false)
    = Fixed.scanLoop rest (i + String.length t) 0
        (Fixed.mkScan toks (cur ++ t) 0 false).
Proof.
  induction t as [|c r IH]; intros Ht rest i toks cur.
  - cbn [append String.length]. now rewrite Nat.add_0_r, append_empty_r.
  - rewrite allOf_cons in Ht. apply andb_true_iff in Ht.
    destruct Ht as [Hc Hr].
    change ((String c r ++ rest)%string) with (String c (r ++ rest)%string).
    rewrite scanLoop_plain_char by assumption.
    unfold Fixed.addChar. cbn [Fixed.tokens Fixed.currentToken
                                 Fixed.bracketDepth Fixed.inTransform].
    rewrite (IH Hr). cbn [String.length].
    rewrite append_assoc. cbn [append].
    now replace (S i + String.length r)%nat with (i + S (String.length r))%nat
      by lia.
Qed.

Lemma scanLoop_join (ts : list string) :
  ts <> [] -> forallb isPlainText ts = true ->
  forall i toks st,
    Fixed.scanLoop (join " " ts) i 0 (Fixed.mkScan toks "" 0 false) st
    = (Ok (Fixed.mkScan (toks ++ removelast ts) (last ts "") 0 false), st).
Proof.
  induction ts as [|t ts IH]; [congruence|]. intros _ H i toks st.
  pose proof H as H'. simpl forallb in H'.
  apply andb_true_iff in H'. destruct H' as [Ht Hts].
  pose proof (plainText_trim t Ht) as Etrim.
  unfold isPlainText in Ht. apply andb_true_iff in Ht. destruct Ht as [Hn Ht].
  apply negb_true_iff in Hn.
  destruct ts as [|u us].
  - change (join " " [t]) with t.
    rewrite <- (append_empty_r t) at 1.
    rewrite scanLoop_plain_text by assumption.
    cbn [Fixed.scanLoop removelast last append]. unfold ret.
    now rewrite app_nil_r.
  - change (join " " (t :: u :: us))
      with (t ++ String " " (join " " (u :: us)))%string.
    rewrite scanLoop_plain_text by assumption.
    cbn [Fixed.scanLoop append].
    change (Ascii.eqb " " "[") with false.
    change (Ascii.eqb " " "]") with false.
    change (Ascii.eqb " " "*") with false.
    change (Ascii.eqb " " " ") with true.
    cbn [orb Fixed.bracketDepth Fixed.inTransform Nat.ltb Nat.leb
         Fixed.currentToken].
    rewrite Hn. cbn [negb]. unfold Fixed.pushToken.
    cbn [Fixed.tokens Fixed.currentToken Fixed.bracketDepth Fixed.inTransform].
    rewrite Etrim, IH by (discriminate || assumption).
    do 3 f_equal. cbn [removelast]. now rewrite <- app_assoc.
Qed.

Lemma removelast_app_last (ts : list string) :
  ts <> [] -> removelast ts ++ [last ts ""] = ts.
Proof. intros H. symmetry. now apply app_removelast_last. Qed.

Lemma tokenizeWithBrackets_join (ts : list string) (st : State) :
  ts <> [] -> forallb isPlainText ts = true ->
  Fixed.tokenizeWithBrackets (join " " ts) st = (Ok ts, st).
Proof.
  intros Hne H. unfold Fixed.tokenizeWithBrackets.
  rewrite (bind_Ok _ _ _ _ _ (scanLoop_join ts Hne H 0%nat [] st)).
  assert (Hlast : isPlainText (last ts "") = true).
  { rewrite forallb_forall in H. apply H.
    destruct ts as [|t ts']; [congruence|].
    clear. revert t. induction ts' as [|u us IH]; intros t; [now left|].
    right. apply (IH u). }
  cbn [Fixed.currentToken]. rewrite (plainText_nonempty _ Hlast).
  unfold Fixed.pushToken.
  cbn [Fixed.tokens Fixed.currentToken Fixed.bracketDepth Fixed.inTransform
       Nat.eqb app].
  rewrite (plainText_trim _ Hlast), removelast_app_last by assumption.
  unfold bind, ret. f_equal.
  f_equal. clear Hne Hlast. induction ts as [|t ts IH]; [reflexivity|].
  simpl forallb in H. apply andb_true_iff in H. destruct H as [Ht Hts].
  cbn [filter]. rewrite (plainText_trim t Ht), (plainText_nonempty t Ht).
  cbn [negb]. now rewrite IH.
Qed.

Lemma plain_not_repetition (t : string) :
  allOf isPlainChar t = true ->
  Final.isGroupRepeat t = false /\ Fixed.isRepetition t = false.
Proof.
  intros Ht.
  assert (Hb : allOf isPlainChar (dropWhile isDigit (reverse t)) = true).
  { apply allOf_dropWhile. now rewrite allOf_reverse. }
  unfold Final.isGroupRepeat, Fixed.isRepetition.
  destruct (dropWhile isDigit (reverse t)) as [|c1 r].
  - split; apply andb_false_r.
  - rewrite allOf_cons in Hb. apply andb_true_iff in Hb. destruct Hb as [Hc _].
    assert (E : Ascii.eqb c1 "*" = false)
      by (destruct (Ascii.eqb_spec c1 "*") as [->|];
          [discriminate | reflexivity]).
    rewrite E. split; [|apply andb_false_r].
    destruct r; apply andb_false_r.
Qed.

Lemma Fixed_processToken_plain (parseInner : string -> M (list step))
    (x : step) (outputPattern : list step) (st : State) :
  isPlain x = true ->
  Fixed.processToken parseInner defaults outputPattern (stepText x) st
  = (Ok (outputPattern ++ [x]), st).
Proof.
  intros Hx. unfold Fixed.processToken, tryCatchOn.
  pose proof (plainText_stepText x Hx) as Ht. unfold isPlainText in Ht.
  apply andb_true_iff in Ht. destruct Ht as [_ Ht].
  destruct (plain_not_repetition _ Ht) as [-> ->].
  rewrite isTransformCall_no_bracket
    by (eapply allOf_impl; [apply plainChar_not_bracket | exact Ht]).
  replace (Fixed.isGroup (stepText x)) with false.
  2:{ symmetry. unfold Fixed.isGroup.
      rewrite (headIs_allOf isPlainChar "[" (stepText x)) by (reflexivity || assumption).
      reflexivity. }
  destruct x as [|[z|]]; [reflexivity| |discriminate].
  unfold stepText.
  change (joinText (toValue (Note (Int z)))) with (numberToString (Int z)).
  simpl in Hx. apply Z.ltb_lt in Hx.
  rewrite numeric_not_minus, isNumeric_numberToString,
    parseInt_numberToString by (try apply isNumeric_numberToString; assumption).
  reflexivity.
Qed.

Lemma Fixed_forEachToken_plain (parseInner : string -> M (list step))
    (s : list step) :
  forall outputPattern st,
    forallb isPlain s = true ->
    Fixed.forEachToken parseInner defaults (map stepText s) outputPattern st
    = (Ok (outputPattern ++ s), st).
Proof.
  induction s as [|x s IH]; intros outputPattern st H.
  - simpl. unfold ret. now rewrite app_nil_r.
  - simpl forallb in H. apply andb_true_iff in H. destruct H as [Hx Hs].
    cbn [map Fixed.forEachToken]. unfold bind.
    rewrite Fixed_processToken_plain by assumption.
    rewrite IH by assumption. now rewrite <- app_assoc.
Qed.

Lemma Fixed_parsePatternString_plain (fuel : nat) (depth : Z)
    (s : list step) (st : State) :
  s <> [] -> forallb isPlain s = true ->
  depth <= maxRecursionDepth defaults ->
  Fixed.parsePatternString (S fuel) defaults depth (patternToString s) st
  = (Ok s, st).
Proof.
  intros Hne Hs Hd.
  assert (Hts : forallb isPlainText (map stepText s) = true)
    by now apply plainTexts.
  assert (Hn : map stepText s <> [])
    by (destruct s; [congruence | discriminate]).
  cbn [Fixed.parsePatternString].
  replace (depth >? maxRecursionDepth defaults) with false
    by (symmetry; rewrite Z.gtb_ltb; apply Z.ltb_ge; exact Hd).
  rewrite patternToString_join.
  unfold bind. rewrite tokenizeWithBrackets_join by assumption.
  destruct (map stepText s) as [|t ts] eqn:E; [congruence|].
  rewrite <- E, Fixed_forEachToken_plain by assumption.
  reflexivity.
Qed.

Lemma Fixed_round_trip (s : list step) (st : State) :
  s <> [] -> forallb isPlain s = true ->
  Fixed.parsePattern (patternToString s) defaults st = (Ok s, st).
Proof.
  intros Hne Hs. unfold Fixed.parsePattern.
  rewrite content_nonempty_text by assumption. cbn [debug defaults].
  unfold bind. change (ret tt st) with (Ok tt, st). cbv iota beta.
  change (fuelFor defaults) with 11%nat.
  apply Fixed_parsePatternString_plain; [assumption | assumption | cbn; lia].
Qed.

(** X24.  Printing a sequence of rests and integer notes below 10^21 in
    magnitude and compiling the text gives the sequence back in each of
    the three compilers: src/lib/parser2.js, src/unnamed/part_001 and
    src/unnamed/part_002. *)
Theorem plain_round_trip_everywhere (s : list step) (st : State) :
  s <> [] -> forallb isPlain s = true ->
  parsePattern (patternToString s) defaults st = (Ok s, atDepth 0 st)
  /\ Fixed.parsePattern (patternToString s) defaults st = (Ok s, st)
  /\ Final.parsePattern (patternToString s) defaults st = (Ok s, st).
Proof.
  intros Hne Hs. split; [|split].
  - now apply round_trip_plain.
  - now apply Fixed_round_trip.
  - now apply Final_round_trip.
Qed.

Lemma plain_round_trip_everywhere_witness :
  parsePattern (patternToString [Note (Int 60); Rest; Note (Int (-3))])
    defaults initialState
  = (Ok [Note (Int 60); Rest; Note (Int (-3))], atDepth 0 initialState)
  /\ Fixed.parsePattern (patternToString [Note (Int 60); Rest; Note (Int (-3))])
       defaults initialState
     = (Ok [Note (Int 60); Rest; Note (Int (-3))], initialState)
  /\ Final.parsePattern (patternToString [Note (Int 60); Rest; Note (Int (-3))])
       defaults initialState
     = (Ok [Note (Int 60); Rest; Note (Int (-3))], initialState).
Proof.
  apply plain_round_trip_everywhere; [discriminate | reflexivity].
Defined.

(** ** The tokens of src/unnamed/part_001 *)

Lemma dropWhile_idempotent (p : ascii -> bool) (s : string) :
  dropWhile p (dropWhile p s) = dropWhile p s.
Proof.
  induction s as [|c r IH]; [reflexivity|]. simpl.
  destruct (p c) eqn:E; [exact IH|]. simpl. now rewrite E.
Qed.

Lemma dropWhile_snoc (p : ascii -> bool) (a : string) (c : ascii) :
  p c = false ->
  dropWhile p (a ++ String c "") = (dropWhile p a ++ String c "")%string.
Proof.
  intros Hc. induction a as [|d r IH]; simpl; [now rewrite Hc|].
  destruct (p d); [exact IH | reflexivity].
Qed.

Lemma trimEnd_cons (c : ascii) (r : string) :
  isSpace c = false -> trimEnd (String c r) = String c (trimEnd r).
Proof.
  intros Hc. unfold trimEnd.
  now rewrite reverse_cons, dropWhile_snoc, reverse_snoc.
Qed.

Lemma trimEnd_idempotent (s : string) : trimEnd (trimEnd s) = trimEnd s.
Proof.
  unfold trimEnd. now rewrite reverse_involutive, dropWhile_idempotent.
Qed.

Lemma trimStart_trimEnd (y : string) :
  trimStart y = y -> trimStart (trimEnd y) = trimEnd y.
Proof.
  destruct y as [|c r]; [reflexivity|]. unfold trimStart. simpl.
  destruct (isSpace c) eqn:E.
  - intros H. exfalso.
    assert (L : forall s, (String.length (dropWhile isSpace s)
                           <= String.length s)%nat).
    { clear. induction s as [|d s IH]; simpl; [lia|].
      destruct (isSpace d); simpl; lia. }
    specialize (L r). rewrite H in L. simpl in L. lia.
  - intros _. rewrite trimEnd_cons by assumption. simpl. now rewrite E.
Qed.

(** [trim] is idempotent. *)
Lemma trim_idempotent (s : string) : trim (trim s) = trim s.
Proof.
  unfold trim.
  rewrite trimStart_trimEnd
    by (unfold trimStart; apply dropWhile_idempotent).
  apply trimEnd_idempotent.
Qed.

Lemma tokensTrimmed_push (toks : list string) (cur : string) :
  Forall isTrimmed toks -> Forall isTrimmed (toks ++ [trim cur]).
Proof.
  intros H. apply Forall_app. split; [assumption|].
  constructor; [apply trim_idempotent | constructor].
Qed.

Lemma scanLoop_trimmed (rest : string) :
  forall i skip s st,
    tokensTrimmed s ->
    exists s' st',
      Fixed.scanLoop rest i skip s st = (Ok s', st') /\ tokensTrimmed s'.
Proof.
  induction rest as [|c r IH]; intros i skip s st Hs.
  - exists s, st. now split.
  - cbn [Fixed.scanLoop]. destruct skip as [|k]; [|now apply IH].
    destruct (Ascii.eqb c "["); [now apply IH|].
    destruct (Ascii.eqb c "]").
    { destruct (Fixed.bracketDepth s) as [|below].
      - unfold bind, console_error, emit. now apply IH.
      - destruct below; [|now apply IH].
        destruct (headIs "*" r); [now apply IH|].
        apply IH. now apply tokensTrimmed_push. }
    destruct (Ascii.eqb c "*").
    { destruct (_ && _); [|now apply IH].
      apply IH. unfold Fixed.pushToken. now apply tokensTrimmed_push. }
    destruct (_ || _ || _); [|now apply IH].
    destruct (_ || _); [now apply IH|].
    destruct (negb _); [|now apply IH].
    apply IH. now apply tokensTrimmed_push.
Qed.

(** X25.  [tokenizeWithBrackets] of src/unnamed/part_001 returns, for every
    text, tokens that are not empty and have no white space at either
    end. *)
Theorem tokens_are_trimmed (pattern : string) (st : State) :
  exists toks st',
    Fixed.tokenizeWithBrackets pattern st = (Ok toks, st')
    /\ Forall (fun t => isEmpty t = false /\ trim t = t) toks.
Proof.
  unfold Fixed.tokenizeWithBrackets.
  destruct (scanLoop_trimmed pattern 0%nat 0%nat
              (Fixed.mkScan [] EmptyString 0 false) st)
    as (s & st1 & E & Hs); [constructor|].
  rewrite (bind_Ok _ _ _ _ _ E).
  set (s' := if isEmpty (Fixed.currentToken s) then s else Fixed.pushToken s).
  assert (Hs' : tokensTrimmed s').
  { unfold s'. destruct (isEmpty (Fixed.currentToken s)); [assumption|].
    now apply tokensTrimmed_push. }
  assert (Hfilter : Forall (fun t => isEmpty t = false /\ trim t = t)
                      (filter (fun t => negb (isEmpty (trim t)))
                         (Fixed.tokens s'))).
  { apply Forall_forall. intros t Ht. apply filter_In in Ht.
    destruct Ht as [Hin Hne]. unfold tokensTrimmed in Hs'.
    rewrite Forall_forall in Hs'. specialize (Hs' t Hin).
    unfold isTrimmed in Hs'. rewrite Hs' in Hne.
    apply negb_true_iff in Hne. now split. }
  destruct (Fixed.bracketDepth s' =? 0)%nat;
    eexists _, _; (split; [reflexivity | exact Hfilter]).
Qed.

(** *** A group after a number, in part_001 *)

Lemma scanLoop_content (content : string) :
  allOf isContentChar content = true ->
  forall rest i toks cur below,
    Fixed.scanLoop (content ++ rest) i 0
      (Fixed.mkScan toks cur (S below) false)
    = Fixed.scanLoop rest (i + String.length content) 0
        (Fixed.mkScan toks (cur ++ content) (S below) false).
Proof.
  induction content as [|c r IH]; intros Hc rest i toks cur below.
  - cbn [append String.length]. now rewrite Nat.add_0_r, append_empty_r.
  - rewrite allOf_cons in Hc. apply andb_true_iff in Hc.
    destruct Hc as [Hc Hr].
    change ((String c r ++ rest)%string) with (String c (r ++ rest)%string).
    assert (Hstep : Fixed.scanLoop (String c (r ++ rest)) i 0
                      (Fixed.mkScan toks cur (S below) false)
                    = Fixed.scanLoop (r ++ rest) (S i) 0
                        (Fixed.mkScan toks (cur ++ String c "") (S below) false)).
    { unfold isContentChar in Hc. apply orb_true_iff in Hc.
      destruct Hc as [Hc | Hc].
      - now rewrite scanLoop_plain_char.
      - apply Ascii.eqb_eq in Hc. subst c. reflexivity. }
    rewrite Hstep, (IH Hr). cbn [String.length].
    rewrite append_assoc. cbn [append].
    now replace (S i + String.length r)%nat with (i + S (String.length r))%nat
      by lia.
Qed.

Lemma trim_bracketed (content : string) :
  trim (String "[" (content ++ String "]" ""))
  = String "[" (content ++ String "]" "").
Proof.
  unfold trim. change (trimStart (String "[" (content ++ String "]" "")))
    with (String "[" (content ++ String "]" "")).
  change (String "[" (content ++ String "]" ""))
    with ((String "[" content) ++ String "]" "")%string.
  now apply trimEnd_app.
Qed.

Lemma tokenize_number_group (digits content : string) (st : State) :
  allOf isDigit digits = true -> isEmpty digits = false ->
  allOf isContentChar content = true ->
  Fixed.tokenizeWithBrackets (digits ++ " [" ++ content ++ "]") st
  = (Ok [digits; String "[" (content ++ String "]" "")], st).
Proof.
  intros Hd Hne Hc. unfold Fixed.tokenizeWithBrackets.
  assert (Hplain : allOf isPlainChar digits = true).
  { eapply allOf_impl; [|exact Hd]. intros c H. unfold isPlainChar.
    now rewrite H. }
  assert (Etrim : trim digits = digits).
  { apply plainText_trim. unfold isPlainText. now rewrite Hne, Hplain. }
  erewrite bind_Ok.
  2:{ rewrite scanLoop_plain_text by assumption.
      change (" [" ++ content ++ "]")%string
        with (String " " (String "[" (content ++ String "]" ""))).
      cbn [Fixed.scanLoop append].
      change (Ascii.eqb " " "[") with false.
      change (Ascii.eqb " " "]") with false.
      change (Ascii.eqb " " "*") with false.
      change (Ascii.eqb " " " ") with true.
      cbn [orb Fixed.bracketDepth Fixed.inTransform Nat.ltb Nat.leb
           Fixed.currentToken].
      rewrite Hne. cbn [negb]. unfold Fixed.pushToken.
      cbn [Fixed.tokens Fixed.currentToken Fixed.bracketDepth
           Fixed.inTransform app].
      change (Ascii.eqb "[" "[") with true. cbv iota.
      cbn [Nat.eqb andb isEmpty negb append].
      rewrite scanLoop_content by assumption.
      cbn [Fixed.scanLoop].
      change (Ascii.eqb "]" "[") with false.
      change (Ascii.eqb "]" "]") with true. cbv iota.
      cbn [Fixed.bracketDepth headIs Fixed.tokens Fixed.currentToken
           Fixed.inTransform].
      unfold ret. reflexivity. }
  cbn [Fixed.currentToken isEmpty Fixed.bracketDepth Nat.eqb Fixed.tokens].
  unfold bind, ret. rewrite Etrim. do 2 f_equal.
  cbn [filter app]. rewrite Etrim, Hne. cbn [negb].
  change (("[" ++ content) ++ "]")%string
    with (String "[" (content ++ String "]" "")).
  rewrite !trim_bracketed. reflexivity.
Qed.

Lemma Fixed_group_token (s : list step) (outputPattern : list step)
    (fuel : nat) (depth : Z) (st : State) :
  s <> [] -> forallb isPlain s = true ->
  depth <= maxRecursionDepth defaults ->
  Fixed.processToken (Fixed.parsePatternString (S fuel) defaults depth)
    defaults outputPattern (String "[" (patternToString s ++ String "]" "")) st
  = (Ok (outputPattern ++ s), st).
Proof.
  intros Hne Hs Hd. unfold Fixed.processToken, tryCatchOn.
  pose proof (content_inner s Hs) as Hin.
  replace (Final.isGroupRepeat
             (String "[" (patternToString s ++ String "]" ""))) with false.
  2:{ symmetry. unfold Final.isGroupRepeat.
      change (String "[" (patternToString s ++ String "]" ""))
        with ((String "[" (patternToString s)) ++ String "]" "")%string.
      rewrite reverse_snoc. reflexivity. }
  change (isTransformCall (String "[" (patternToString s ++ String "]" "")))
    with false. cbv iota.
  replace (Fixed.isGroup (String "[" (patternToString s ++ String "]" "")))
    with true.
  2:{ symmetry. unfold Fixed.isGroup. cbn [headIs drop].
      change (Ascii.eqb "[" "[") with true. cbn [andb].
      apply andb_true_iff. split.
      - unfold endsWith. rewrite reverse_snoc.
        apply (prefix_app "]" (reverse (patternToString s))).
      - rewrite allOf_cons, allOf_app.
        change (negb (isLineTerminator "[")) with true. cbn [andb].
        apply andb_true_iff. split; [|reflexivity].
        eapply allOf_impl; [|exact Hin]. intros c Hc.
        unfold isInnerChar in Hc. apply andb_true_iff in Hc. tauto. }
  rewrite slice_inner, patternToString_trim by assumption.
  unfold bind. rewrite Fixed_parsePatternString_plain by assumption.
  reflexivity.
Qed.

Lemma Fixed_parsePatternString_step (fuel : nat) (config : Config)
    (depth : Z) (pattern : string) :
  Fixed.parsePatternString (S fuel) config depth pattern
  = if depth >? maxRecursionDepth config then
      console_error ("Maximum recursion depth ("
                     ++ numberToString (Int (maxRecursionDepth config))
                     ++ ") exceeded. Pattern may have circular references.") ;;;
      ret []
    else
      found <- Fixed.tokenizeWithBrackets pattern ;;
      match found with
      | [] =>
          (if debug config
           then console_log "No valid tokens found in pattern"
           else ret tt) ;;;
          ret []
      | _ =>
          outputPattern <-
            Fixed.forEachToken
              (Fixed.parsePatternString fuel config (depth + 1))
              config found [] ;;
          ret (if normalizePitches config
               then normalizeSteps outputPattern
               else outputPattern)
      end.
Proof. reflexivity. Qed.

(** X26.  In src/unnamed/part_001 a group that follows a number is
    compiled: the number and then the steps of the group. *)
Theorem Fixed_number_before_group (v : N) (s : list step) (st : State) :
  s <> [] -> forallb isPlain s = true -> (v < 2 ^ 53)%N ->
  Fixed.parsePattern (decimal v ++ " [" ++ patternToString s ++ "]") defaults st
  = (Ok (Note (Int (Z.of_N v)) :: s), st).
Proof.
  intros Hne Hs Hv.
  destruct (decimal_digits v) as [Hd Hdne].
  unfold Fixed.parsePattern.
  replace (isEmpty (decimal v ++ " [" ++ patternToString s ++ "]")) with false
    by (now destruct (decimal v)).
  cbn [debug defaults]. unfold bind at 1.
  change (ret tt st) with (Ok tt, st). cbv iota beta.
  change (fuelFor defaults) with 11%nat.
  rewrite Fixed_parsePatternString_step.
  cbn [maxRecursionDepth defaults Z.gtb Z.compare].
  unfold bind at 1.
  rewrite tokenize_number_group
    by (try assumption; now apply patternToString_chars).
  cbn [Fixed.forEachToken]. unfold bind.
  assert (Ev : decimal v = stepText (Note (Int (Z.of_N v)))).
  { unfold stepText.
    change (joinText (toValue (Note (Int (Z.of_N v)))))
      with (numberToString (Int (Z.of_N v))).
    rewrite numberToString_small; [now rewrite N2Z.id|].
    split; [lia|]. apply Z.lt_trans with (2 ^ 53); [lia | reflexivity]. }
  rewrite Ev at 1.
  rewrite Fixed_processToken_plain.
  2:{ simpl. apply Z.ltb_lt.
      apply Z.lt_trans with (2 ^ 53); [lia | reflexivity]. }
  rewrite Fixed_group_token by (try assumption; cbn; lia).
  reflexivity.
Qed.

Lemma Fixed_number_before_group_witness :
  Fixed.parsePattern
    (decimal 7 ++ " [" ++ patternToString [Note (Int 1); Rest] ++ "]")
    defaults initialState
  = (Ok (Note (Int (Z.of_N 7)) :: [Note (Int 1); Rest]), initialState).
Proof.
  apply Fixed_number_before_group; [discriminate | reflexivity | reflexivity].
Defined.

(** ** src/lib/improved_pattern_generator.js *)

Lemma getRandomInt_bounds (max : Z) (st : State) :
  0 < max ->
  exists i,
    getRandomInt max st
    = (Ok i, mkState (currentDepth st) (random st) (S (drawn st)) (console st))
    /\ 0 <= i < max.
Proof.
  intros Hmax. unfold getRandomInt, bind, Math_random, ret.
  eexists. split; [reflexivity|].
  destruct (draw_in_unit (random st (drawn st))) as [H0 H1].
  now apply floorMul_bounds.
Qed.

Lemma pick_defined (patterns : list string) (st : State) :
  patterns <> [] ->
  exists p,
    pick patterns st
    = (Ok (Some p),
       mkState (currentDepth st) (random st) (S (drawn st)) (console st))
    /\ In p patterns.
Proof.
  intros Hne. unfold pick.
  destruct (getRandomInt_bounds (Z.of_nat (List.length patterns)) st)
    as (i & E & Hi).
  { destruct patterns; [congruence | simpl; lia]. }
  rewrite (bind_Ok _ _ _ _ _ E). unfold ret, elementAt.
  replace (i <? 0) with false by (symmetry; apply Z.ltb_ge; lia).
  destruct (nth_error patterns (Z.to_nat i)) as [p|] eqn:En.
  - exists p. split; [reflexivity|]. eapply nth_error_In, En.
  - apply nth_error_None in En. lia.
Qed.

Ltac bars :=
  intros st; eexists _, _; split;
  [vm_compute; reflexivity
  | split; [reflexivity | split; [discriminate | reflexivity]]].

Lemma dnb_bars : Forall compilesToBars dnbPatterns.
Proof. repeat constructor; bars. Qed.

Lemma house_bars : Forall compilesToBars housePatterns.
Proof. repeat constructor; bars. Qed.

Lemma minimal_bars : Forall compilesToBars minimalPatterns.
Proof. repeat constructor; bars. Qed.

Lemma scramble_bars : compilesToBars "scramble[1 2 3 4 5 6 7 8]".
Proof.
  intros st.
  set (s := [Note (Int 1); Note (Int 2); Note (Int 3); Note (Int 4);
             Note (Int 5); Note (Int 6); Note (Int 7); Note (Int 8)]).
  destruct (shuffleFrom_permutes 7 s st) as (r & E & Hperm);
    [simpl; lia|].
  exists r. eexists. split.
  - apply (parsePattern_call "scramble" s r st);
      [reflexivity | discriminate | reflexivity | exact E].
  - split; [reflexivity|].
    apply Permutation_length in Hperm. simpl in Hperm.
    split; [intros ->; discriminate | now rewrite <- Hperm].
Qed.

Lemma glitch_bars : Forall compilesToBars glitchPatterns.
Proof.
  constructor; [bars|]. constructor; [apply scramble_bars|].
  repeat constructor; bars.
Qed.

(** X27.  For each of the four styles, in any letter case,
    [generateStylePattern] reads one random number and returns a pattern
    of the list, never [undefined]; every such pattern compiles in
    src/lib/parser2.js, with no diagnostic, to a whole number of bars of
    eight steps. *)
Theorem style_pattern_compiles (style : string) (st : State) :
  In (toLowerCase style) musicalStyles ->
  exists p,
    generateStylePattern style st
    = (Ok (Some p),
       mkState (currentDepth st) (random st) (S (drawn st)) (console st))
    /\ compilesToBars p.
Proof.
  intros Hin. unfold generateStylePattern. simpl in Hin.
  assert (Hpick : forall patterns,
             patterns <> [] -> Forall compilesToBars patterns ->
             exists p,
               pick patterns st
               = (Ok (Some p),
                  mkState (currentDepth st) (random st) (S (drawn st))
                    (console st))
               /\ compilesToBars p).
  { intros patterns Hne Hall.
    destruct (pick_defined patterns st Hne) as (p & E & Hp).
    exists p. split; [exact E|]. rewrite Forall_forall in Hall. now apply Hall. }
  destruct Hin as [<- | [<- | [<- | [<- | []]]]]; cbn [String.eqb Ascii.eqb Bool.eqb].
  - apply Hpick; [discriminate | apply dnb_bars].
  - apply Hpick; [discriminate | apply house_bars].
  - apply Hpick; [discriminate | apply minimal_bars].
  - apply Hpick; [discriminate | apply glitch_bars].
Qed.

Lemma style_pattern_compiles_witness :
  exists p,
    generateStylePattern "DnB" initialState
    = (Ok (Some p),
       mkState (currentDepth initialState) (random initialState)
         (S (drawn initialState)) (console initialState))
    /\ compilesToBars p.
Proof. apply style_pattern_compiles. left. reflexivity. Defined.

(** A step within bounds that are printed in plain decimal is plain. *)
Lemma inBounds_plain (lo hi : Z) (x : step) :
  - 10 ^ 21 < lo -> hi < 10 ^ 21 -> inBounds lo hi x -> isPlain x = true.
Proof.
  intros Hlo Hhi. destruct x as [|[z|]]; simpl; [reflexivity | | tauto].
  intros Hz. apply Z.ltb_lt. lia.
Qed.

Lemma Forall_inBounds_plain (lo hi : Z) (s : list step) :
  - 10 ^ 21 < lo -> hi < 10 ^ 21 -> Forall (inBounds lo hi) s ->
  forallb isPlain s = true.
Proof.
  intros Hlo Hhi H. apply forallb_forall. intros x Hx.
  rewrite Forall_forall in H. eapply inBounds_plain; eauto.
Qed.

(** X28.  The text [generateSimplePattern] returns compiles back, in
    src/lib/parser2.js, to the sequence [createRandomPattern] gave it,
    when the bounds are printed in plain decimal and the length is from
    1 to 2^28. *)
Theorem simple_pattern_compiles_back (options : RandomOptions) (st : State) :
  - 10 ^ 21 < minValue options -> minValue options <= maxValue options ->
  maxValue options < 10 ^ 21 -> 0 < patternLength options <= 268435456 ->
  exists seq st',
    createRandomPattern options st = (Ok seq, st')
    /\ generateSimplePattern options st = (Ok (patternToString seq), st')
    /\ forall st2,
         parsePattern (patternToString seq) defaults st2 = (Ok seq, atDepth 0 st2).
Proof.
  intros Hlo Hmm Hhi [Hlen _].
  destruct (createRandomPattern_returns_within options st Hmm)
    as (seq & st' & E & Hall & Hl).
  exists seq, st'. split; [exact E|]. split.
  - unfold generateSimplePattern. now rewrite (bind_Ok _ _ _ _ _ E).
  - intros st2. apply round_trip_plain.
    + intros ->. simpl in Hl. lia.
    + now apply (Forall_inBounds_plain (minValue options) (maxValue options)).
Qed.

Lemma simple_pattern_compiles_back_witness :
  exists seq st',
    createRandomPattern simpleDefaults initialState = (Ok seq, st')
    /\ generateSimplePattern simpleDefaults initialState
       = (Ok (patternToString seq), st')
    /\ forall st2,
         parsePattern (patternToString seq) defaults st2 = (Ok seq, atDepth 0 st2).
Proof.
  apply simple_pattern_compiles_back;
    [reflexivity | vm_compute; discriminate | reflexivity
    | split; [reflexivity | vm_compute; discriminate]].
Defined.

Lemma section_is_plain (length : Z) (rest repetition : Q) (st : State) :
  0 < length ->
  exists seq st',
    createRandomPattern (sectionOptions length rest repetition) st
    = (Ok seq, st')
    /\ seq <> [] /\ forallb isPlain seq = true
    /\ Z.of_nat (List.length seq) <= length + 3.
Proof.
  intros Hlen.
  destruct (createRandomPattern_flat
              (sectionOptions length rest repetition) st)
    as (seq & st' & E & Hall & Hl); [reflexivity | simpl; lia | simpl; lia|].
  cbn [patternLength sectionOptions] in Hl.
  exists seq, st'. split; [exact E|]. split; [|split].
  - intros ->. simpl in Hl. lia.
  - apply (Forall_inBounds_plain 1 99); [reflexivity | reflexivity | exact Hall].
  - lia.
Qed.

(** X29.  [generateGroupedSection] returns the text of a group with a
    count from 2 to 4, which compiles in src/lib/parser2.js to that many
    copies of the steps of the group. *)
Theorem grouped_section_compiles (st : State) :
  exists section repeat st',
    generateGroupedSection st = (Ok (groupText section repeat), st')
    /\ 2 <= repeat <= 4
    /\ forall st2,
         parsePattern (groupText section repeat) defaults st2
         = (Ok (List.concat (List.repeat section (Z.to_nat repeat))),
            atDepth 0 st2).
Proof.
  unfold generateGroupedSection.
  destruct (produces_random st) as (r & st1 & E1 & H0 & H1).
  pose proof (floorMul_bounds r 3 H0 H1 ltac:(lia)) as Hlen.
  destruct (section_is_plain (floorMul r 3 + 2) (2 # 10) (2 # 10) st1)
    as (section & st2 & E2 & Hne & Hplain & Hshort); [lia|].
  destruct (produces_random st2) as (r' & st3 & E3 & H0' & H1').
  pose proof (floorMul_bounds r' 3 H0' H1' ltac:(lia)) as Hrep.
  exists section, (floorMul r' 3 + 2), st3.
  split; [|split; [lia|]].
  - rewrite (bind_Ok _ _ _ _ _ E1). cbv zeta.
    rewrite (bind_Ok _ _ _ _ _ E2), (bind_Ok _ _ _ _ _ E3). reflexivity.
  - intros st4. unfold groupText.
    rewrite numberToString_small by lia.
    rewrite parsePattern_group_repeat; try assumption.
    + now replace (N.to_nat (Z.to_N (floorMul r' 3 + 2)))
        with (Z.to_nat (floorMul r' 3 + 2)) by lia.
    + lia.
    + nia.
Qed.

Lemma transformations_return (transform : string) (s : list step)
    (st : State) :
  In transform transformations ->
  exists r, transformPattern transform s st = (Ok r, st).
Proof.
  intros Hin. simpl in Hin.
  destruct Hin as [<- | [<- | [<- | [<- | [<- | [<- | [<- | [<- | []]]]]]]]];
    try (eexists; reflexivity).
  - change "repeat2" with ("repeat" ++ decimal 2)%string.
    rewrite transformPattern_repeat, flatMapM_fill by lia. now eexists.
  - unfold transformPattern. cbn [matchTransform]. 
    change (transformPattern "rotate1" s) with
      (if Z.of_nat (List.length s) <=? 1 then ret s
       else ret (skipn (Z.to_nat (Z.rem (Z.rem 1 (Z.of_nat (List.length s))
                                         + Z.of_nat (List.length s))
                                    (Z.of_nat (List.length s)))) s
                 ++ firstn (Z.to_nat (Z.rem (Z.rem 1 (Z.of_nat (List.length s))
                                             + Z.of_nat (List.length s))
                                        (Z.of_nat (List.length s)))) s)).
    destruct (Z.of_nat (List.length s) <=? 1); eexists; reflexivity.
Qed.

(** X30.  [generateTransformationSection] returns one of its eight
    transformations in front of a group, and the text compiles in
    src/lib/parser2.js to that transformation applied to the steps of
    the group. *)
Theorem transformation_section_compiles (st : State) :
  exists transform pattern st',
    generateTransformationSection st = (Ok (callText transform pattern), st')
    /\ In transform transformations
    /\ forall st2,
       exists r,
         transformPattern transform pattern st2 = (Ok r, st2)
         /\ parsePattern (callText transform pattern) defaults st2
            = (Ok r, atDepth 0 st2).
Proof.
  unfold generateTransformationSection.
  destruct (pick_defined transformations st) as (transform & E0 & Hin);
    [discriminate|].
  set (st0 := mkState (currentDepth st) (random st) (S (drawn st))
                (console st)) in *.
  destruct (produces_random st0) as (r & st1 & E1 & H0 & H1).
  pose proof (floorMul_bounds r 4 H0 H1 ltac:(lia)) as Hlen.
  destruct (section_is_plain (floorMul r 4 + 3) (2 # 10) (2 # 10) st1)
    as (pattern & st2 & E2 & Hne & Hplain & _); [lia|].
  exists transform, pattern, st2. split; [|split; [exact Hin|]].
  - rewrite (bind_Ok _ _ _ _ _ E0), (bind_Ok _ _ _ _ _ E1). cbv zeta.
    rewrite (bind_Ok _ _ _ _ _ E2). reflexivity.
  - intros st3.
    destruct (transformations_return transform pattern st3 Hin) as (res & Er).
    exists res. split; [exact Er|]. unfold callText.
    apply parsePattern_call; try assumption.
    simpl in Hin.
    destruct Hin as [<- | [<- | [<- | [<- | [<- | [<- | [<- | [<- | []]]]]]]]];
      reflexivity.
Qed.
